(** * pytroller: the arcade simulation step of [src/game.py]

    A shallow embedding of the [Game] class (construction and [update]) and of
    the entity dataclasses [Star], [Laser], [Shard] and [Enemy].

    Conventions of the embedding.
    - Python [float] values are exact rationals [Q]; Python [int] values are
      [Z], injected into [Q] with [inject_Z] where the source mixes them.
    - A float division faults when its divisor is zero ([ZeroDivisionError]);
      it is [fdiv], which returns [None] there.
    - The process-wide [random] generator is an explicit state [G] threaded
      through the code, behind the interface [RandomSource].
    - [math.hypot], [math.sin] and [math.cos] are the interface [MathLib].
    - [pygame.Rect] is a record of four integers with pygame's
      [colliderect].
    - Rounding is not modelled, and neither is the [log] callback of [Game],
      which [update] never calls.

    After the [Game] module come the energy bar of [Game.draw] and the host
    loop of [src/main.py]: the log, the input state and its event handlers,
    [_axis_dirs], the inputs read from joystick and keyboard, and one pass
    of the loop around [game.update].  There a [dict] with integer keys is
    an association list in insertion order and a [set] of integers a list;
    the joystick manager, the rendering and the clock are outside the
    model, which takes the joystick ids, the events, the held keys and the
    elapsed milliseconds as given. *)

From Stdlib Require Import ZArith QArith Qabs List Bool Lia Lqa.
From Stdlib Require String.
Import ListNotations.

Local Open Scope Q_scope.

(** ** Python built-ins *)

Definition Qltb (a b : Q) : bool := negb (Qle_bool b a).

(** [max(a, b)]: the first argument is kept unless the second is greater. *)
Definition py_max (a b : Q) : Q := if Qltb a b then b else a.

(** [min(a, b)]: the first argument is kept unless the second is smaller. *)
Definition py_min (a b : Q) : Q := if Qltb b a then b else a.

(** [int(x)] on a float: truncation toward zero. *)
Definition py_int (q : Q) : Z := Z.quot (Qnum q) (Zpos (Qden q)).

(** [x or d] on floats: [x] unless it is falsy, that is, equal to zero. *)
Definition py_or (x d : Q) : Q := if Qeq_bool x 0 then d else x.

(** [a / b] on floats. *)
Definition fdiv (a b : Q) : option Q :=
  if Qeq_bool b 0 then None else Some (a / b).

(** [math.tau]. *)
Definition tau : Q := 6.283185307179586.

(** ** The random generator and the math library *)

Class RandomSource (G : Type) : Type := {
  (** [random.random()]: a float in [0, 1). *)
  rs_random : G -> Q * G;
  (** [_randbelow(n)]: an integer in [0, n). *)
  rs_randbelow : Z -> G -> Z * G;
  rs_random_range : forall g, 0 <= fst (rs_random g) /\ fst (rs_random g) < 1;
  rs_randbelow_range :
    forall n g, (0 < n)%Z -> (0 <= fst (rs_randbelow n g) < n)%Z
}.

Class MathLib : Type := {
  m_hypot : Q -> Q -> Q;
  m_sin : Q -> Q;
  m_cos : Q -> Q
}.

(** Code that draws random numbers and may fault. *)
Definition M (G A : Type) : Type := G -> option (A * G).

Definition ret {G A} (a : A) : M G A := fun g => Some (a, g).

Definition bind {G A B} (m : M G A) (k : A -> M G B) : M G B :=
  fun g => match m g with
           | Some (a, g') => k a g'
           | None => None
           end.

Definition lift_opt {G A} (o : option A) : M G A :=
  fun g => match o with Some a => Some (a, g) | None => None end.

Definition draw {G A} (f : G -> A * G) : M G A := fun g => Some (f g).

Declare Scope m_scope.
Delimit Scope m_scope with m.
Notation "x <- m ;; k" := (bind m (fun x => k))
  (at level 61, m at next level, right associativity) : m_scope.
Notation "' p <- m ;; k" := (bind m (fun x => let p := x in k))
  (at level 61, p pattern, m at next level, right associativity) : m_scope.

Section Random.
Context {G : Type} `{RS : RandomSource G}.

(** [random.uniform(a, b)] is [a + (b - a) * random()]. *)
Definition uniform (a b : Q) : G -> Q * G :=
  fun g => let (u, g') := rs_random g in (a + (b - a) * u, g').

(** [random.randint(a, b)] is [a + _randbelow(b - a + 1)]. *)
Definition randint (a b : Z) : G -> Z * G :=
  fun g => let (k, g') := rs_randbelow (b - a + 1) g in ((a + k)%Z, g').

(** [random.choice(seq)] is [seq[_randbelow(len(seq))]]. *)
Definition choice {A} (d : A) (l : list A) : G -> A * G :=
  fun g => let (k, g') := rs_randbelow (Z.of_nat (length l)) g in
           (nth (Z.to_nat k) l d, g').
End Random.

(** ** pygame.Rect *)

Module Rect.
Record t : Type := mk { x : Z; y : Z; w : Z; h : Z }.

(** [colliderect]: empty rectangles never collide; the others are
    compared on their normalised extents. *)
Definition colliderect (a b : t) : bool :=
  if ((w a =? 0) || (h a =? 0) || (w b =? 0) || (h b =? 0))%Z then false
  else ((Z.min (x a) (x a + w a) <? Z.max (x b) (x b + w b))
     && (Z.min (y a) (y a + h a) <? Z.max (y b) (y b + h b))
     && (Z.max (x a) (x a + w a) >? Z.min (x b) (x b + w b))
     && (Z.max (y a) (y a + h a) >? Z.min (y b) (y b + h b)))%Z.
End Rect.

(** ** Entities *)

Definition Color : Type := (Z * Z * Z)%type.
Definition YELLOW : Color := (240, 210, 70)%Z.
Definition RED : Color := (240, 90, 90)%Z.

Module Star.
Record t : Type := mk { x : Q; y : Q; layer : Q }.
End Star.

Module Laser.
Record t : Type := mk {
  x : Q; y : Q; vx : Q; vy : Q; color : Color; friendly : bool;
  w : Z; h : Z }.

(** The dataclass defaults [w = 14] and [h = 3]. *)
Definition new (x y vx vy : Q) (c : Color) (f : bool) : t :=
  mk x y vx vy c f 14 3.

Definition update (dt : Q) (self : t) : t :=
  mk (x self + vx self * dt) (y self + vy self * dt)
     (vx self) (vy self) (color self) (friendly self) (w self) (h self).

Definition rect (self : t) : Rect.t :=
  Rect.mk (py_int (x self - inject_Z (w self) / 2))
          (py_int (y self - inject_Z (h self) / 2))
          (w self) (h self).
End Laser.

Module Shard.
Record t : Type := mk { x : Q; y : Q; vx : Q; vy : Q; ttl : Q; value : Q }.

Definition update (dt : Q) (self : t) : t :=
  mk (x self + vx self * dt) (y self + vy self * dt)
     (vx self * (1 - 0.4 * dt)) (vy self * (1 - 0.4 * dt))
     (ttl self - dt) (value self).

Definition rect (self : t) : Rect.t :=
  Rect.mk (py_int (x self - 4)) (py_int (y self - 4)) 8 8.
End Shard.

Inductive Kind : Type := asteroid | blob | red | snake.

Module Enemy.
(** The [data] dictionary, one optional entry per key the code uses. *)
Record Data : Type := mkData {
  r : option Z;
  shoot_cd : option Q;
  segs : option (list (Q * Q));
  phase : option Q }.

Definition no_data : Data := mkData None None None None.

Record t : Type := mk {
  kind : Kind; x : Q; y : Q; vx : Q; vy : Q; hp : Q; t_ : Q; data : Data }.

(** [data.get(key, default)]. *)
Definition get {A} (o : option A) (d : A) : A :=
  match o with Some a => a | None => d end.

Definition rect (self : t) : Rect.t :=
  match kind self with
  | red =>
      let s := 24%Z in
      Rect.mk (py_int (x self - inject_Z s / 2))
              (py_int (y self - inject_Z s / 2)) s s
  | _ =>
      let r := get (r (data self)) 18%Z in
      Rect.mk (py_int (x self - inject_Z r)) (py_int (y self - inject_Z r))
              (r * 2) (r * 2)
  end.
End Enemy.


(** ** The world state and the simulation step *)

Module Game.
Record t : Type := mk {
  w : Z; h : Z;
  px : Q; py : Q;
  base_speed : Q; boost_mul : Q;
  energy : Q; energy_max : Q;
  boost_active : bool; shield_active : bool;
  shoot_cd : Q; score : Z;
  stars : list Star.t;
  bullets : list Laser.t; ebullets : list Laser.t;
  enemies : list Enemy.t; shards : list Shard.t;
  spawn_t : Q }.

(** Assignments to one attribute of [self]. *)
Definition set_px (v : Q) (s : t) : t :=
  mk (w s) (h s) v (py s) (base_speed s) (boost_mul s) (energy s)
     (energy_max s) (boost_active s) (shield_active s) (shoot_cd s) (score s)
     (stars s) (bullets s) (ebullets s) (enemies s) (shards s) (spawn_t s).
Definition set_py (v : Q) (s : t) : t :=
  mk (w s) (h s) (px s) v (base_speed s) (boost_mul s) (energy s)
     (energy_max s) (boost_active s) (shield_active s) (shoot_cd s) (score s)
     (stars s) (bullets s) (ebullets s) (enemies s) (shards s) (spawn_t s).
Definition set_energy (v : Q) (s : t) : t :=
  mk (w s) (h s) (px s) (py s) (base_speed s) (boost_mul s) v
     (energy_max s) (boost_active s) (shield_active s) (shoot_cd s) (score s)
     (stars s) (bullets s) (ebullets s) (enemies s) (shards s) (spawn_t s).
Definition set_boost_active (v : bool) (s : t) : t :=
  mk (w s) (h s) (px s) (py s) (base_speed s) (boost_mul s) (energy s)
     (energy_max s) v (shield_active s) (shoot_cd s) (score s)
     (stars s) (bullets s) (ebullets s) (enemies s) (shards s) (spawn_t s).
Definition set_shield_active (v : bool) (s : t) : t :=
  mk (w s) (h s) (px s) (py s) (base_speed s) (boost_mul s) (energy s)
     (energy_max s) (boost_active s) v (shoot_cd s) (score s)
     (stars s) (bullets s) (ebullets s) (enemies s) (shards s) (spawn_t s).
Definition set_shoot_cd (v : Q) (s : t) : t :=
  mk (w s) (h s) (px s) (py s) (base_speed s) (boost_mul s) (energy s)
     (energy_max s) (boost_active s) (shield_active s) v (score s)
     (stars s) (bullets s) (ebullets s) (enemies s) (shards s) (spawn_t s).
Definition set_score (v : Z) (s : t) : t :=
  mk (w s) (h s) (px s) (py s) (base_speed s) (boost_mul s) (energy s)
     (energy_max s) (boost_active s) (shield_active s) (shoot_cd s) v
     (stars s) (bullets s) (ebullets s) (enemies s) (shards s) (spawn_t s).
Definition set_stars (v : list Star.t) (s : t) : t :=
  mk (w s) (h s) (px s) (py s) (base_speed s) (boost_mul s) (energy s)
     (energy_max s) (boost_active s) (shield_active s) (shoot_cd s) (score s)
     v (bullets s) (ebullets s) (enemies s) (shards s) (spawn_t s).
Definition set_bullets (v : list Laser.t) (s : t) : t :=
  mk (w s) (h s) (px s) (py s) (base_speed s) (boost_mul s) (energy s)
     (energy_max s) (boost_active s) (shield_active s) (shoot_cd s) (score s)
     (stars s) v (ebullets s) (enemies s) (shards s) (spawn_t s).
Definition set_ebullets (v : list Laser.t) (s : t) : t :=
  mk (w s) (h s) (px s) (py s) (base_speed s) (boost_mul s) (energy s)
     (energy_max s) (boost_active s) (shield_active s) (shoot_cd s) (score s)
     (stars s) (bullets s) v (enemies s) (shards s) (spawn_t s).
Definition set_enemies (v : list Enemy.t) (s : t) : t :=
  mk (w s) (h s) (px s) (py s) (base_speed s) (boost_mul s) (energy s)
     (energy_max s) (boost_active s) (shield_active s) (shoot_cd s) (score s)
     (stars s) (bullets s) (ebullets s) v (shards s) (spawn_t s).
Definition set_shards (v : list Shard.t) (s : t) : t :=
  mk (w s) (h s) (px s) (py s) (base_speed s) (boost_mul s) (energy s)
     (energy_max s) (boost_active s) (shield_active s) (shoot_cd s) (score s)
     (stars s) (bullets s) (ebullets s) (enemies s) v (spawn_t s).
Definition set_spawn_t (v : Q) (s : t) : t :=
  mk (w s) (h s) (px s) (py s) (base_speed s) (boost_mul s) (energy s)
     (energy_max s) (boost_active s) (shield_active s) (shoot_cd s) (score s)
     (stars s) (bullets s) (ebullets s) (enemies s) (shards s) v.

Section WithRandom.
Context {G : Type} {RS : RandomSource G} {ML : MathLib}.
Local Open Scope m_scope.

(** *** Construction *)

(** One element of the star comprehension of [__init__]. *)
Definition new_star (width height : Z) : M G Star.t :=
  x <- draw (uniform 0 (inject_Z width)) ;;
  y <- draw (uniform 0 (inject_Z height)) ;;
  layer <- draw (choice 0 [0.6; 0.8; 1.0; 1.2; 1.4]) ;;
  ret (Star.mk x y layer).

(** [[f() for _ in range(n)]]. *)
Fixpoint repeatM {A} (n : nat) (m : M G A) : M G (list A) :=
  match n with
  | O => ret []
  | S n' => a <- m ;; l <- repeatM n' m ;; ret (a :: l)
  end.

Definition init (width height : Z) : M G t :=
  stars <- repeatM 140 (new_star width height) ;;
  ret (mk width height
          (inject_Z width * 0.18) (inject_Z height * 0.5)
          220 2 60 120 false false 0 0%Z
          stars [] [] [] [] 1).

(** *** Spawning / helpers *)

Definition _fire_player (self : t) : t :=
  let tip_x := px self + 18 in
  let tip_y := py self in
  set_bullets (bullets self ++ [Laser.new tip_x tip_y 520 0 YELLOW true]) self.

(** [random.choices(kinds, weights=[4, 3, 2, 1], k=1)[0]]: a bisection of
    [random() * 10] in the cumulative weights 4, 7, 9. *)
Definition choices_kind : M G Kind :=
  u <- draw rs_random ;;
  let x := u * 10 in
  ret (if Qltb x 4 then asteroid
       else if Qltb x 7 then blob
       else if Qltb x 9 then red
       else snake).

(** [range(n)] as a list of integers. *)
Definition range (n : nat) : list Z := map Z.of_nat (seq 0 n).

Definition _spawn_enemy (self : t) : M G t :=
  y <- draw (uniform 40 (inject_Z (h self - 40))) ;;
  kind <- choices_kind ;;
  match kind with
  | asteroid =>
      r <- draw (randint 12 28) ;;
      speed <- draw (uniform 80 160) ;;
      ret (set_enemies
             (enemies self ++
              [Enemy.mk asteroid (inject_Z (w self + 40)) y (- speed) 0
                 (1 + inject_Z r / 10) 0
                 (Enemy.mkData (Some r) None None None)]) self)
  | blob =>
      ret (set_enemies
             (enemies self ++
              [Enemy.mk blob (inject_Z (w self + 40)) y (-140) 0 3 0
                 Enemy.no_data]) self)
  | red =>
      cd <- draw (uniform 0.6 1.5) ;;
      ret (set_enemies
             (enemies self ++
              [Enemy.mk red (inject_Z (w self + 50)) y (-120) 0 4 0
                 (Enemy.mkData None (Some cd) None None)]) self)
  | snake =>
      let segs := map (fun i => (inject_Z (w self + 60 + i * 16), y))
                      (range 8) in
      ph <- draw (uniform 0 tau) ;;
      ret (set_enemies
             (enemies self ++
              [Enemy.mk snake (inject_Z (w self + 60)) y (-130) 0 6 0
                 (Enemy.mkData None None (Some segs) (Some ph))]) self)
  end.

(** One iteration of the shard loop of [_enemy_die]. *)
Definition new_shard (e : Enemy.t) : M G Shard.t :=
  ang <- draw (uniform (-0.6) 0.6) ;;
  sp <- draw (uniform 80 160) ;;
  let vx := - sp * m_cos ang in
  let vy := sp * m_sin ang * 0.5 in
  ttl <- draw (uniform 3 6) ;;
  value <- draw (uniform 6 12) ;;
  ret (Shard.mk (Enemy.x e) (Enemy.y e) vx vy ttl value).

Definition _enemy_die (e : Enemy.t) (self : t) : M G t :=
  n <- draw (randint 2 5) ;;
  new <- repeatM (Z.to_nat n) (new_shard e) ;;
  let self := set_shards (shards self ++ new) self in
  ret (set_score (score self + 1)%Z self).

(** *** Update: the stages of [update], in source order *)

(** Energy drains. *)
Definition energy_drains (dt : Q) (boost shield : bool) (self : t) : t :=
  let self := set_boost_active (boost && Qltb 0 (energy self)) self in
  let self := set_shield_active (shield && Qltb 0 (energy self)) self in
  let drain := 0 in
  let drain := if boost_active self then drain + 20 * dt else drain in
  let drain := if shield_active self then drain + 28 * dt else drain in
  set_energy (py_max 0 (energy self - drain)) self.

(** Movement. *)
Definition movement (dt move_dx move_dy : Q) (self : t) : t :=
  let speed := base_speed self * (if boost_active self then boost_mul self else 1) in
  let self :=
    set_px (py_max 20 (py_min (inject_Z (w self - 20))
                              (px self + move_dx * speed * dt))) self in
  set_py (py_max 20 (py_min (inject_Z (h self - 20))
                            (py self + move_dy * speed * dt))) self.

(** Shooting. *)
Definition shooting (dt : Q) (shoot : bool) (self : t) : t :=
  let self := set_shoot_cd (py_max 0 (shoot_cd self - dt)) self in
  if shoot && Qle_bool (shoot_cd self) 0
  then set_shoot_cd 0.18 (_fire_player self)
  else self.

(** Stars: the body of the loop, for one star. *)
Definition move_star (dt par : Q) (width height : Z) (s : Star.t) : M G Star.t :=
  let x := Star.x s - (35 * Star.layer s + par * Star.layer s) * dt in
  if Qltb x (-2)
  then
    u <- draw (uniform 0 60) ;;
    y <- draw (uniform 0 (inject_Z height)) ;;
    ret (Star.mk (inject_Z width + u) y (Star.layer s))
  else ret (Star.mk x (Star.y s) (Star.layer s)).

(** [for x in l: f(x)] where the body rewrites the element. *)
Fixpoint forM {A B} (f : A -> M G B) (l : list A) : M G (list B) :=
  match l with
  | [] => ret []
  | a :: tl => b <- f a ;; tl' <- forM f tl ;; ret (b :: tl')
  end.

Definition move_stars (dt move_dx : Q) (self : t) : M G t :=
  let par := py_max 0 move_dx * 60 in
  stars' <- forM (move_star dt par (w self) (h self)) (stars self) ;;
  ret (set_stars stars' self).

(** Bullets: the two culling tests. *)
Definition keep_bullet (width height : Z) (b : Laser.t) : bool :=
  Qle_bool (-40) (Laser.x b) && Qle_bool (Laser.x b) (inject_Z (width + 80))
  && (Qle_bool (-40) (Laser.y b) && Qle_bool (Laser.y b) (inject_Z (height + 40))).

Definition keep_ebullet (width height : Z) (b : Laser.t) : bool :=
  Qle_bool (-80) (Laser.x b) && Qle_bool (Laser.x b) (inject_Z (width + 40))
  && (Qle_bool (-40) (Laser.y b) && Qle_bool (Laser.y b) (inject_Z (height + 40))).

Definition move_bullets (dt : Q) (self : t) : t :=
  let self := set_bullets (map (Laser.update dt) (bullets self)) self in
  let self := set_ebullets (map (Laser.update dt) (ebullets self)) self in
  let self := set_bullets (filter (keep_bullet (w self) (h self)) (bullets self)) self in
  set_ebullets (filter (keep_ebullet (w self) (h self)) (ebullets self)) self.

(** Enemies spawn. *)
Definition spawn (dt : Q) (self : t) : M G t :=
  let self := set_spawn_t (spawn_t self - dt) self in
  if Qle_bool (spawn_t self) 0
  then
    self <- _spawn_enemy self ;;
    t' <- draw (uniform 0.6 1.2) ;;
    ret (set_spawn_t t' self)
  else ret self.

(** Enemies update: the snake's tail.  Each segment chases the segment
    before it, which has already moved. *)
Fixpoint chase (dt : Q) (prev : Q * Q) (rest : list (Q * Q))
  : option (list (Q * Q)) :=
  match rest with
  | [] => Some []
  | (cx, cy) :: tl =>
      let (px, py) := prev in
      let dx := px - cx in
      let dy := py - cy in
      let dist := py_or (m_hypot dx dy) 1 in
      let step := py_min (100 * dt) dist in
      match fdiv dx dist, fdiv dy dist with
      | Some qx, Some qy =>
          let new := (cx + qx * step, cy + qy * step) in
          match chase dt new tl with
          | Some tl' => Some (new :: tl')
          | None => None
          end
      | _, _ => None
      end
  end.

Definition set_xy (x y : Q) (e : Enemy.t) : Enemy.t :=
  Enemy.mk (Enemy.kind e) x y (Enemy.vx e) (Enemy.vy e) (Enemy.hp e)
           (Enemy.t_ e) (Enemy.data e).
Definition set_vy (vy : Q) (e : Enemy.t) : Enemy.t :=
  Enemy.mk (Enemy.kind e) (Enemy.x e) (Enemy.y e) (Enemy.vx e) vy (Enemy.hp e)
           (Enemy.t_ e) (Enemy.data e).
Definition set_hp (hp : Q) (e : Enemy.t) : Enemy.t :=
  Enemy.mk (Enemy.kind e) (Enemy.x e) (Enemy.y e) (Enemy.vx e) (Enemy.vy e) hp
           (Enemy.t_ e) (Enemy.data e).
Definition set_t (t' : Q) (e : Enemy.t) : Enemy.t :=
  Enemy.mk (Enemy.kind e) (Enemy.x e) (Enemy.y e) (Enemy.vx e) (Enemy.vy e)
           (Enemy.hp e) t' (Enemy.data e).
Definition set_data (d : Enemy.Data) (e : Enemy.t) : Enemy.t :=
  Enemy.mk (Enemy.kind e) (Enemy.x e) (Enemy.y e) (Enemy.vx e) (Enemy.vy e)
           (Enemy.hp e) (Enemy.t_ e) d.
Definition data_set_shoot_cd (v : Q) (d : Enemy.Data) : Enemy.Data :=
  Enemy.mkData (Enemy.r d) (Some v) (Enemy.segs d) (Enemy.phase d).
Definition data_set_segs (v : list (Q * Q)) (d : Enemy.Data) : Enemy.Data :=
  Enemy.mkData (Enemy.r d) (Enemy.shoot_cd d) (Some v) (Enemy.phase d).
Definition data_set_phase (v : Q) (d : Enemy.Data) : Enemy.Data :=
  Enemy.mkData (Enemy.r d) (Enemy.shoot_cd d) (Enemy.segs d) (Some v).

(** The body of the enemy loop for a red enemy; [self] gains the shot. *)
Definition update_red (dt : Q) (e : Enemy.t) (self : t) : M G (Enemy.t * t) :=
  let e := set_xy (Enemy.x e + Enemy.vx e * dt) (Enemy.y e) e in
  let cd := py_max 0 (Enemy.get (Enemy.shoot_cd (Enemy.data e)) 0 - dt) in
  let e := set_data (data_set_shoot_cd cd (Enemy.data e)) e in
  if Qle_bool cd 0
  then
    let dx := px self - Enemy.x e in
    let dy := py self - Enemy.y e in
    let L := py_or (m_hypot dx dy) 1 in
    let sp := 280 in
    bvx <- lift_opt (fdiv (sp * dx) L) ;;
    bvy <- lift_opt (fdiv (sp * dy) L) ;;
    let self :=
      set_ebullets
        (ebullets self ++ [Laser.new (Enemy.x e - 16) (Enemy.y e) bvx bvy RED false])
        self in
    cd' <- draw (uniform 1.0 1.8) ;;
    ret (set_data (data_set_shoot_cd cd' (Enemy.data e)) e, self)
  else ret (e, self).

Definition update_blob (dt : Q) (height : Z) (e : Enemy.t) : M G Enemy.t :=
  let e := set_xy (Enemy.x e + Enemy.vx e * dt) (Enemy.y e) e in
  u <- draw rs_random ;;
  e <- (if Qltb u 0.1
        then k <- draw (uniform (-60) 60) ;; ret (set_vy (Enemy.vy e + k) e)
        else ret e) ;;
  let e := set_vy (Enemy.vy e * (1 - 0.4 * dt)) e in
  let e := set_xy (Enemy.x e) (Enemy.y e + Enemy.vy e * dt) e in
  ret (set_xy (Enemy.x e)
              (py_max 20 (py_min (inject_Z (height - 20)) (Enemy.y e))) e).

Definition update_snake (dt : Q) (e : Enemy.t) : M G Enemy.t :=
  let e := set_xy (Enemy.x e + Enemy.vx e * dt) (Enemy.y e) e in
  let segs := Enemy.get (Enemy.segs (Enemy.data e)) [] in
  let phase := Enemy.get (Enemy.phase (Enemy.data e)) 0 in
  let phase := phase + dt * 2 in
  let e := set_data (data_set_phase phase (Enemy.data e)) e in
  let head_y := Enemy.y e + m_sin (phase + Enemy.x e * 0.02) * 40 in
  match segs with
  | [] => ret e
  | _ :: tl =>
      let head := (Enemy.x e, head_y) in
      tl' <- lift_opt (chase dt head tl) ;;
      let e := set_xy (Enemy.x e) head_y e in
      ret (set_data (data_set_segs (head :: tl') (Enemy.data e)) e)
  end.

(** The body of the enemy loop. *)
Definition update_enemy (dt : Q) (e : Enemy.t) (self : t) : M G (Enemy.t * t) :=
  let e := set_t (Enemy.t_ e + dt) e in
  match Enemy.kind e with
  | asteroid =>
      ret (set_xy (Enemy.x e + Enemy.vx e * dt) (Enemy.y e) e, self)
  | blob => e' <- update_blob dt (h self) e ;; ret (e', self)
  | red => update_red dt e self
  | snake => e' <- update_snake dt e ;; ret (e', self)
  end.

Fixpoint update_enemies_loop (dt : Q) (es : list Enemy.t) (self : t)
  : M G (list Enemy.t * t) :=
  match es with
  | [] => ret ([], self)
  | e :: tl =>
      '(e', self) <- update_enemy dt e self ;;
      '(tl', self) <- update_enemies_loop dt tl self ;;
      ret (e' :: tl', self)
  end.

Definition update_enemies (dt : Q) (self : t) : M G t :=
  '(es, self) <- update_enemies_loop dt (enemies self) self ;;
  ret (set_enemies es self).

(** Cull enemies. *)
Definition keep_enemy (height : Z) (e : Enemy.t) : bool :=
  Qltb (-80) (Enemy.x e)
  && (Qltb (-80) (Enemy.y e) && Qltb (Enemy.y e) (inject_Z (height + 80))).

Definition cull_enemies (self : t) : t :=
  set_enemies (filter (keep_enemy (h self)) (enemies self)) self.

(** Collisions, player bullets vs enemies: the hit test of each branch. *)
Definition hits (b : Laser.t) (e : Enemy.t) : bool :=
  match Enemy.kind e with
  | asteroid =>
      let r := Enemy.get (Enemy.r (Enemy.data e)) 18%Z in
      let dx := Laser.x b - Enemy.x e in
      let dy := Laser.y b - Enemy.y e in
      Qle_bool (dx * dx + dy * dy) (inject_Z ((r + 4) ^ 2))
  | blob =>
      let dx := Laser.x b - Enemy.x e in
      let dy := Laser.y b - Enemy.y e in
      Qle_bool (dx * dx + dy * dy) (inject_Z (18 ^ 2))
  | red => Rect.colliderect (Laser.rect b) (Enemy.rect e)
  | snake =>
      let dx := Laser.x b - Enemy.x e in
      let dy := Laser.y b - Enemy.y e in
      Qle_bool (dx * dx + dy * dy) (inject_Z (16 ^ 2))
  end.

(** The inner loop: the enemies are scanned in order up to the first one
    that is hit, which loses one hitpoint ([break]).  [None] is [hit = False]
    at the end of the loop. *)
Fixpoint hit_first (b : Laser.t) (es : list Enemy.t) : option (list Enemy.t) :=
  match es with
  | [] => None
  | e :: tl =>
      if hits b e then Some (set_hp (Enemy.hp e - 1) e :: tl)
      else match hit_first b tl with
           | Some tl' => Some (e :: tl')
           | None => None
           end
  end.

(** The outer loop: the remaining bullets and the enemies after the hits. *)
Fixpoint bullets_loop (bs : list Laser.t) (es : list Enemy.t)
  : list Laser.t * list Enemy.t :=
  match bs with
  | [] => ([], es)
  | b :: tl =>
      match hit_first b es with
      | Some es' => bullets_loop tl es'
      | None => let (remaining, es') := bullets_loop tl es in
                (b :: remaining, es')
      end
  end.

Definition bullets_vs_enemies (self : t) : t :=
  let (remaining_bullets, es) := bullets_loop (bullets self) (enemies self) in
  set_bullets remaining_bullets (set_enemies es self).

(** Resolve dead enemies -> shards. *)
Fixpoint resolve_loop (es : list Enemy.t) (self : t) : M G (list Enemy.t * t) :=
  match es with
  | [] => ret ([], self)
  | e :: tl =>
      if Qle_bool (Enemy.hp e) 0
      then self <- _enemy_die e self ;; resolve_loop tl self
      else '(alive, self) <- resolve_loop tl self ;; ret (e :: alive, self)
  end.

Definition resolve_dead (self : t) : M G t :=
  '(alive, self) <- resolve_loop (enemies self) self ;;
  ret (set_enemies alive self).

(** Enemy bullets vs player. *)
Definition player_rect (self : t) : Rect.t :=
  Rect.mk (py_int (px self - 12)) (py_int (py self - 10)) 24 20.

Fixpoint ebullets_loop (prect : Rect.t) (shield : bool) (bs : list Laser.t)
  (energy : Q) : list Laser.t * Q :=
  match bs with
  | [] => ([], energy)
  | b :: tl =>
      if Rect.colliderect (Laser.rect b) prect
      then
        if shield then ebullets_loop prect shield tl energy
        else ebullets_loop prect shield tl (py_max 0 (energy - 12))
      else let (keep_e, energy') := ebullets_loop prect shield tl energy in
           (b :: keep_e, energy')
  end.

Definition ebullets_vs_player (prect : Rect.t) (self : t) : t :=
  let (keep_e, energy') :=
    ebullets_loop prect (shield_active self) (ebullets self) (energy self) in
  set_ebullets keep_e (set_energy energy' self).

(** Shards update & collect. *)
Fixpoint shards_loop (dt : Q) (prect : Rect.t) (energy_max : Q)
  (ss : list Shard.t) (energy : Q) : list Shard.t * Q :=
  match ss with
  | [] => ([], energy)
  | s :: tl =>
      let s := Shard.update dt s in
      if Qle_bool (Shard.ttl s) 0
      then shards_loop dt prect energy_max tl energy
      else if Rect.colliderect prect (Shard.rect s)
      then shards_loop dt prect energy_max tl
             (py_min energy_max (energy + Shard.value s))
      else let (new_shards, energy') :=
             shards_loop dt prect energy_max tl energy in
           (s :: new_shards, energy')
  end.

Definition shards_collect (dt : Q) (prect : Rect.t) (self : t) : t :=
  let (new_shards, energy') :=
    shards_loop dt prect (energy_max self) (shards self) (energy self) in
  set_shards new_shards (set_energy energy' self).

(** The state at the head of each later part of [update]. *)
Definition update_to_kinematics (dt move_dx move_dy : Q)
  (shoot boost shield : bool) (self : t) : M G t :=
  let self := energy_drains dt boost shield self in
  let self := movement dt move_dx move_dy self in
  let self := shooting dt shoot self in
  self <- move_stars dt move_dx self ;;
  let self := move_bullets dt self in
  self <- spawn dt self ;;
  self <- update_enemies dt self ;;
  ret (cull_enemies self).

Definition update_to_deaths (dt move_dx move_dy : Q)
  (shoot boost shield : bool) (self : t) : M G t :=
  self <- update_to_kinematics dt move_dx move_dy shoot boost shield self ;;
  ret (bullets_vs_enemies self).

Definition update_to_player_hits (dt move_dx move_dy : Q)
  (shoot boost shield : bool) (self : t) : M G t :=
  self <- update_to_deaths dt move_dx move_dy shoot boost shield self ;;
  resolve_dead self.

Definition update (dt move_dx move_dy : Q) (shoot boost shield : bool)
  (self : t) : M G t :=
  self <- update_to_player_hits dt move_dx move_dy shoot boost shield self ;;
  let prect := player_rect self in
  let self := ebullets_vs_player prect self in
  ret (shards_collect dt prect self).
End WithRandom.
End Game.

(** ** [Game.draw]: the energy bar of the HUD *)

Module Draw.


End Draw.

(** * The host loop of [main.py] *)

(** A [dict] with integer keys, in insertion order. *)
Module Dict.
Definition t (V : Type) : Type := list (Z * V).

(** [d.get(k)]: the value, or nothing. *)
Fixpoint get {V} (d : t V) (k : Z) : option V :=
  match d with
  | [] => None
  | (k', v) :: tl => if (k' =? k)%Z then Some v else get tl k
  end.

(** [d.get(k, default)]. *)
Definition get_or {V} (d : t V) (k : Z) (default : V) : V :=
  match get d k with Some v => v | None => default end.

(** [k in d]. *)
Definition mem {V} (d : t V) (k : Z) : bool :=
  match get d k with Some _ => true | None => false end.

(** [d[k] = v]: in place when the key is there, at the end otherwise. *)
Fixpoint set {V} (k : Z) (v : V) (d : t V) : t V :=
  match d with
  | [] => [(k, v)]
  | (k', v') :: tl =>
      if (k' =? k)%Z then (k, v) :: tl else (k', v') :: set k v tl
  end.

(** [d.pop(k, None)]. *)
Definition pop {V} (k : Z) (d : t V) : t V :=
  filter (fun kv => negb (fst kv =? k)%Z) d.
End Dict.

(** A [set] of integers. *)
Module IntSet.
Definition t : Type := list Z.

Definition mem (k : Z) (s : t) : bool := existsb (Z.eqb k) s.

Definition add (k : Z) (s : t) : t := if mem k s then s else k :: s.

Definition discard (k : Z) (s : t) : t := filter (fun x => negb (x =? k)%Z) s.
End IntSet.

Module Main.
Definition WIDTH : Z := 800.
Definition HEIGHT : Z := 600.
Definition LOG_MAX : nat := 300.

Inductive ButtonName : Type :=
| start | menu | trigger_left | trigger_right
| action_right | action_left | action_up | action_down.

Definition BUTTON_MAP (name : ButtonName) : Z :=
  match name with
  | start => 9 | menu => 8 | trigger_left => 4 | trigger_right => 5
  | action_right => 0 | action_left => 1 | action_up => 2 | action_down => 3
  end.

Definition AXIS_X : Z := 0.
Definition AXIS_Y : Z := 1.
Definition AXIS_LEFT_POSITIVE : bool := true.
Definition AXIS_UP_POSITIVE : bool := true.
Definition AXIS_THRESH : Q := 0.50.

(** The keys the loop looks at. *)
Inductive Key : Type :=
| K_ESCAPE | K_r | K_c | K_RIGHT | K_LEFT | K_DOWN | K_UP | K_SPACE
| K_LSHIFT | K_RSHIFT | K_LCTRL | K_RCTRL | K_other.

(** [VisualUI._axis_dirs]: left, right, up, down. *)
Definition _axis_dirs (axes : Dict.t Q) : bool * bool * bool * bool :=
  let x := Dict.get_or axes AXIS_X 0 in
  let y := Dict.get_or axes AXIS_Y 0 in
  let left := if AXIS_LEFT_POSITIVE then Qle_bool AXIS_THRESH x
              else Qle_bool x (- AXIS_THRESH) in
  let right := if AXIS_LEFT_POSITIVE then Qle_bool x (- AXIS_THRESH)
               else Qle_bool AXIS_THRESH x in
  let up := if AXIS_UP_POSITIVE then Qle_bool AXIS_THRESH y
            else Qle_bool y (- AXIS_THRESH) in
  let down := if AXIS_UP_POSITIVE then Qle_bool y (- AXIS_THRESH)
              else Qle_bool AXIS_THRESH y in
  (left, right, up, down).

(** [deque(maxlen=n).append(x)]: the oldest entries make room. *)
Definition deque_append {A} (maxlen : nat) (x : A) (d : list A) : list A :=
  skipn (length (d ++ [x]) - maxlen) (d ++ [x]).

(** [log]: the line [f"{timestamp} | {msg}"] goes to the end of
    [log_lines]. *)
Module Text.
Import String.
Local Open Scope string_scope.
Definition line (timestamp msg : string) : string := timestamp ++ " | " ++ msg.
End Text.

Definition log (timestamp msg : String.string) (log_lines : list String.string)
  : list String.string :=
  deque_append LOG_MAX (Text.line timestamp msg) log_lines.

(** The input state of the loop, per joystick instance id. *)
Record InputState : Type := mkInputState {
  running : bool;
  pressed_by_iid : Dict.t IntSet.t;
  axis_by_iid : Dict.t (Dict.t Q)
}.

Definition ensure_state (iid : Z) (st : InputState) : InputState :=
  let p := if Dict.mem (pressed_by_iid st) iid then pressed_by_iid st
           else Dict.set iid [] (pressed_by_iid st) in
  let a := if Dict.mem (axis_by_iid st) iid then axis_by_iid st
           else Dict.set iid [] (axis_by_iid st) in
  mkInputState (running st) p a.

Inductive Event : Type :=
| QUIT
| KEYDOWN (key : Key)
| JOYDEVICEADDED (device_index : option Z)
| JOYDEVICEREMOVED (instance_id : option Z)
| JOYBUTTONDOWN (instance_id button : Z)
| JOYBUTTONUP (instance_id button : Z)
| JOYAXISMOTION (instance_id axis : Z) (value : Q)
| JOYHATMOTION (instance_id hat : Z)
| OTHER.

(** One pass of the event loop's body over the input state; a lookup
    [d[iid]] of a missing key faults. *)
Definition handle_event (event : Event) (st : InputState) : option InputState :=
  match event with
  | QUIT => Some (mkInputState false (pressed_by_iid st) (axis_by_iid st))
  | KEYDOWN key =>
      match key with
      | K_ESCAPE => Some (mkInputState false (pressed_by_iid st) (axis_by_iid st))
      | _ => Some st
      end
  | JOYDEVICEADDED _ => Some st
  | JOYDEVICEREMOVED None => Some st
  | JOYDEVICEREMOVED (Some iid) =>
      Some (mkInputState (running st) (Dict.pop iid (pressed_by_iid st))
              (Dict.pop iid (axis_by_iid st)))
  | JOYBUTTONDOWN iid button =>
      let st := ensure_state iid st in
      match Dict.get (pressed_by_iid st) iid with
      | Some s => Some (mkInputState (running st)
                          (Dict.set iid (IntSet.add button s) (pressed_by_iid st))
                          (axis_by_iid st))
      | None => None
      end
  | JOYBUTTONUP iid button =>
      let st := ensure_state iid st in
      match Dict.get (pressed_by_iid st) iid with
      | Some s => Some (mkInputState (running st)
                          (Dict.set iid (IntSet.discard button s) (pressed_by_iid st))
                          (axis_by_iid st))
      | None => None
      end
  | JOYAXISMOTION iid axis value =>
      let st := ensure_state iid st in
      match Dict.get (axis_by_iid st) iid with
      | Some a => Some (mkInputState (running st) (pressed_by_iid st)
                          (Dict.set iid (Dict.set axis value a) (axis_by_iid st)))
      | None => None
      end
  | JOYHATMOTION _ _ => Some st
  | OTHER => Some st
  end.

Fixpoint handle_events (events : list Event) (st : InputState)
  : option InputState :=
  match events with
  | [] => Some st
  | ev :: tl => match handle_event ev st with
                | Some st' => handle_events tl st'
                | None => None
                end
  end.

(** What the loop hands to [Game.update]. *)
Record Inputs : Type := mkInputs {
  mx : Q; my : Q; shoot : bool; boost : bool; shield : bool }.

Section Inputs.
Context {ML : MathLib}.

(** [next(iter(sorted(jm.joysticks.keys())), None)]: the least id. *)
Definition active_iid (joysticks : list Z) : option Z :=
  match joysticks with
  | [] => None
  | k :: tl => Some (fold_right Z.min k tl)
  end.

(** [L = math.hypot(mx, my)], then [mx /= L; my /= L] if [L] passes. *)
Definition normalize (passes : Q -> bool) (mx my : Q) : option (Q * Q) :=
  let L := m_hypot mx my in
  if passes L then
    match fdiv mx L, fdiv my L with
    | Some mx', Some my' => Some (mx', my')
    | _, _ => None
    end
  else Some (mx, my).

Definition deadzone (v : Q) : Q := if Qltb (Qabs v) 0.20 then 0 else v.

(** The stick, as screen dx, dy (right and down positive). *)
Definition stick (axes : Dict.t Q) : option (Q * Q) :=
  let ax := Dict.get_or axes AXIS_X 0 in
  let ay := Dict.get_or axes AXIS_Y 0 in
  let mx := if AXIS_LEFT_POSITIVE then - ax else ax in
  let my := if AXIS_UP_POSITIVE then - ay else ay in
  normalize (fun L => Qltb 1 L) (deadzone mx) (deadzone my).

Definition key_int (b : bool) : Z := if b then 1 else 0.

Definition kx (keys : Key -> bool) : Z :=
  key_int (keys K_RIGHT) - key_int (keys K_LEFT).

Definition ky (keys : Key -> bool) : Z :=
  key_int (keys K_DOWN) - key_int (keys K_UP).

(** The arrow keys, when one decides, replace the stick. *)
Definition arrows (keys : Key -> bool) (m : Q * Q) : option (Q * Q) :=
  if negb (kx keys =? 0)%Z || negb (ky keys =? 0)%Z
  then normalize (fun L => Qltb 0 L) (inject_Z (kx keys)) (inject_Z (ky keys))
  else Some m.

(** Inputs from joystick/keyboard. *)
Definition read_inputs (joysticks : list Z) (st : InputState)
  (keys : Key -> bool) : option Inputs :=
  let active := active_iid joysticks in
  let pressed := match active with
                 | Some iid => Dict.get_or (pressed_by_iid st) iid []
                 | None => []
                 end in
  let axes := match active with
              | Some iid => Dict.get_or (axis_by_iid st) iid []
              | None => []
              end in
  match stick axes with
  | Some m =>
      match arrows keys m with
      | Some (mx, my) =>
          Some (mkInputs mx my
                  (IntSet.mem (BUTTON_MAP action_up) pressed || keys K_SPACE)
                  (IntSet.mem (BUTTON_MAP action_left) pressed
                   || keys K_LSHIFT || keys K_RSHIFT)
                  (IntSet.mem (BUTTON_MAP action_right) pressed
                   || keys K_LCTRL || keys K_RCTRL))
      | None => None
      end
  | None => None
  end.

(** One pass of the loop: the elapsed milliseconds of [clock.tick(60)], the
    events, the inputs and [game.update].  [joysticks] are the ids the
    joystick manager holds once the events are handled. *)
Definition iteration {G} {RS : RandomSource G} (ms : Z) (events : list Event)
  (joysticks : list Z) (keys : Key -> bool) (st : InputState) (game : Game.t)
  : M G (InputState * Game.t) :=
  (let dt := inject_Z ms / 1000 in
   st <- lift_opt (handle_events events st) ;;
   i <- lift_opt (read_inputs joysticks st keys) ;;
   game <- Game.update dt (mx i) (my i) (shoot i) (boost i) (shield i) game ;;
   ret (st, game))%m.
End Inputs.
End Main.

(** ** A concrete random source and math library, to run the model

    The generator state is a tape of integers: each draw consumes the head
    (0 once the tape is empty).  The math functions are rational stand-ins;
    no theorem below depends on the values they return. *)

Definition tape_head (g : list Z) : Z := match g with [] => 0%Z | v :: _ => v end.

Definition tape_random (g : list Z) : Q * list Z :=
  (Qmake (tape_head g mod 1000) 1000, tl g).

Definition tape_randbelow (n : Z) (g : list Z) : Z * list Z :=
  ((tape_head g mod n)%Z, tl g).

Lemma tape_random_range (g : list Z) :
  0 <= fst (tape_random g) /\ fst (tape_random g) < 1.
Proof.
  unfold tape_random, Qle, Qlt; cbn [fst Qnum Qden].
  pose proof (Z.mod_pos_bound (tape_head g) 1000 eq_refl). lia.
Qed.

Lemma tape_randbelow_range (n : Z) (g : list Z) :
  (0 < n)%Z -> (0 <= fst (tape_randbelow n g) < n)%Z.
Proof. intros Hn. cbn [tape_randbelow fst]. now apply Z.mod_pos_bound. Qed.

#[export] Instance tape_source : RandomSource (list Z) :=
  Build_RandomSource (list Z) tape_random tape_randbelow
    tape_random_range tape_randbelow_range.

Definition taxicab (dx dy : Q) : Q := Qabs dx + Qabs dy.

Definition test_math : MathLib :=
  Build_MathLib taxicab (fun _ => 0) (fun _ => 1).

(** A game on the 800 x 600 playfield of [main.py], on a tape that makes the
    first spawn a red enemy level with the player.  With one-second frames
    the enemy fires in frame 1 and its shot reaches the player in frame 3. *)

Definition demo_tape : list Z := (repeat 0 700 ++ [500; 800; 0; 999; 999])%Z.

Definition demo_update := Game.update (ML:=test_math) 1 0 0 false false false.

Fixpoint demo_run (n : nat) : option (Game.t * list Z) :=
  match n with
  | O => Game.init 800 600 demo_tape
  | S k => match demo_run k with
           | Some (s, g) => demo_update s g
           | None => None
           end
  end.

(** [arena] is a state of the 800 x 600 playfield with the player at
    (144, 300), no stars and a spawn timer that does not expire in a frame
    of 1/60 s; [frame] is one such frame, with no movement. *)

Definition arena (energy : Q) (bullets ebullets : list Laser.t)
  (enemies : list Enemy.t) (shards : list Shard.t) : Game.t :=
  Game.mk 800 600 144 300 220 2 energy 120 false false 0 0%Z
          [] bullets ebullets enemies shards 1.

Definition frame (shield : bool) (s : Game.t) : option (Game.t * list Z) :=
  Game.update (ML:=test_math) (1 # 60) 0 0 false false shield s [].

Definition incoming : Laser.t := Laser.new 144 300 (-280) 0 RED false.

Definition rock (x : Q) (hp : Q) : Enemy.t :=
  Enemy.mk asteroid x 300 (-100) 0 hp 0 (Enemy.mkData (Some 20%Z) None None None).

(** * Vocabulary of the properties *)

(** A computation that never faults. *)
Definition total {G A} (m : M G A) : Prop := forall g, exists r, m g = Some r.

(** The last two stages of [update], from the state at their head. *)
Definition player_stages (dt : Q) (s10 : Game.t) : Game.t :=
  Game.shards_collect dt (Game.player_rect s10)
    (Game.ebullets_vs_player (Game.player_rect s10) s10).

(** The player is inside the inset margins. *)
Definition in_field (s : Game.t) : Prop :=
  20 <= Game.px s <= inject_Z (Game.w s - 20) /\
  20 <= Game.py s <= inject_Z (Game.h s - 20).



(** [b] is the shot a red enemy fires from where [e] stands. *)
Definition shot_by (e : Enemy.t) (b : Laser.t) : Prop :=
  Laser.x b = Enemy.x e - 16 /\ Laser.y b = Enemy.y e /\
  Laser.w b = 14%Z /\ Laser.h b = 3%Z /\ Laser.friendly b = false.

Definition shot_from (es : list Enemy.t) (b : Laser.t) : Prop :=
  exists e, In e es /\ Enemy.kind e = red /\ shot_by e b.


(** The enemy after one hit. *)
Definition damaged (e : Enemy.t) : Enemy.t := Game.set_hp (Enemy.hp e - 1) e.


(** The test of the death-resolution loop. *)
Definition dead (e : Enemy.t) : bool := Qle_bool (Enemy.hp e) 0.

(** What the death of [e] appends to the shards. *)
Definition shard_of (e : Enemy.t) (sh : Shard.t) : Prop :=
  Shard.x sh = Enemy.x e /\ Shard.y sh = Enemy.y e /\
  3 <= Shard.ttl sh <= 6 /\ 6 <= Shard.value sh <= 12.

Definition death_block (e : Enemy.t) (blk : list Shard.t) : Prop :=
  (2 <= length blk <= 5)%nat /\ Forall (shard_of e) blk.

(** The test of the player-hit loop and the damage of one unshielded hit. *)
Definition overlaps (prect : Rect.t) (b : Laser.t) : bool :=
  Rect.colliderect (Laser.rect b) prect.

Definition hit_damage (energy : Q) : Q := py_max 0 (energy - 12).

(** What the states of a game have in common. *)
Definition shards_worth (ss : list Shard.t) : Prop :=
  Forall (fun sh => 0 <= Shard.value sh) ss.

Definition laser_shape (b : Laser.t) : Prop :=
  Laser.w b = 14%Z /\ Laser.h b = 3%Z.

Definition state_ok (s : Game.t) : Prop :=
  0 <= Game.energy s <= Game.energy_max s /\
  shards_worth (Game.shards s) /\
  Forall laser_shape (Game.bullets s) /\
  Forall laser_shape (Game.ebullets s).

Section Frames.
Context {G : Type} {RS : RandomSource G} {ML : MathLib}.

(** The states that exist at the end of a frame of a [width] by [height]
    playfield: the state construction returns and the states [update]
    returns. *)
Definition frame_of (width height : Z) (s : Game.t) : Prop :=
  (exists (g g' : G), Game.init width height g = Some (s, g')) \/
  (exists dt mx my shoot boost shield s0 (g g' : G),
      Game.w s0 = width /\ Game.h s0 = height /\
      Game.update dt mx my shoot boost shield s0 g = Some (s, g')).

(** The states of a game: the one construction returns, and those [update]
    returns when called as the host loop calls it, with a positive elapsed
    time and a movement vector in [-1, 1] x [-1, 1]. *)
Inductive reachable : Game.t -> Prop :=
| reach_init width height (g : G) s g' :
    Game.init width height g = Some (s, g') -> reachable s
| reach_update dt mx my shoot boost shield s (g : G) s' g' :
    reachable s ->
    0 < dt -> -1 <= mx <= 1 -> -1 <= my <= 1 ->
    Game.update dt mx my shoot boost shield s g = Some (s', g') ->
    reachable s'.
End Frames.

(** ** Vocabulary of the further properties *)
(** The shot of [_fire_player], from the ship's tip. *)
Definition player_shot (s : Game.t) : Laser.t :=
  Laser.new (Game.px s + 18) (Game.py s) 520 0 YELLOW true.

(** What the star loop does to one star: it keeps its layer, and either
    drifts left or, once left of -2, comes back at the right edge. *)
Definition star_moved (dt move_dx : Q) (width height : Z) (s s' : Star.t) : Prop :=
  let x := Star.x s
           - (35 * Star.layer s + py_max 0 move_dx * 60 * Star.layer s) * dt in
  Star.layer s' = Star.layer s /\
  ((~ x < -2 /\ Star.x s' = x /\ Star.y s' = Star.y s) \/
   (x < -2 /\
    inject_Z width <= Star.x s' <= inject_Z width + 60 /\
    0 <= Star.y s' <= inject_Z height)).
(** What [_spawn_enemy] creates on a [width] by [height] playfield. *)
Definition spawned_ok (width height : Z) (e : Enemy.t) : Prop :=
  40 <= Enemy.y e <= inject_Z (height - 40) /\
  Enemy.vy e = 0 /\ Enemy.t_ e = 0 /\ Enemy.vx e < 0 /\ 0 < Enemy.hp e /\
  match Enemy.kind e with
  | asteroid =>
      Enemy.x e = inject_Z (width + 40) /\
      -160 <= Enemy.vx e <= -80 /\
      exists r, (12 <= r <= 28)%Z /\
                Enemy.hp e = 1 + inject_Z r / 10 /\
                Enemy.data e = Enemy.mkData (Some r) None None None
  | blob =>
      Enemy.x e = inject_Z (width + 40) /\ Enemy.vx e = -140 /\
      Enemy.hp e = 3 /\ Enemy.data e = Enemy.no_data
  | red =>
      Enemy.x e = inject_Z (width + 50) /\ Enemy.vx e = -120 /\
      Enemy.hp e = 4 /\
      exists cd, 0.6 <= cd <= 1.5 /\
                 Enemy.data e = Enemy.mkData None (Some cd) None None
  | snake =>
      Enemy.x e = inject_Z (width + 60) /\ Enemy.vx e = -130 /\
      Enemy.hp e = 6 /\
      exists ph, 0 <= ph <= tau /\
                 Enemy.data e =
                   Enemy.mkData None None
                     (Some (map (fun i => (inject_Z (width + 60 + i * 16),
                                           Enemy.y e)) (Game.range 8)))
                     (Some ph)
  end.

(** What the enemy loop does to one enemy, by kind. *)
Definition enemy_stepped (dt : Q) (height : Z) (e e' : Enemy.t) : Prop :=
  Enemy.kind e' = Enemy.kind e /\ Enemy.hp e' = Enemy.hp e /\
  Enemy.vx e' = Enemy.vx e /\ Enemy.t_ e' = Enemy.t_ e + dt /\
  Enemy.x e' = Enemy.x e + Enemy.vx e * dt /\
  Enemy.r (Enemy.data e') = Enemy.r (Enemy.data e) /\
  match Enemy.kind e with
  | asteroid =>
      Enemy.y e' = Enemy.y e /\ Enemy.vy e' = Enemy.vy e /\
      Enemy.data e' = Enemy.data e
  | blob =>
      Enemy.data e' = Enemy.data e /\
      exists y0,
        Enemy.y e' = py_max 20 (py_min (inject_Z (height - 20)) y0)
  | red =>
      Enemy.y e' = Enemy.y e /\ Enemy.vy e' = Enemy.vy e /\
      Enemy.segs (Enemy.data e') = Enemy.segs (Enemy.data e) /\
      Enemy.phase (Enemy.data e') = Enemy.phase (Enemy.data e) /\
      exists cd, Enemy.shoot_cd (Enemy.data e') = Some cd /\ 0 <= cd
  | snake =>
      Enemy.vy e' = Enemy.vy e /\
      Enemy.shoot_cd (Enemy.data e') = Enemy.shoot_cd (Enemy.data e) /\
      Enemy.phase (Enemy.data e') =
        Some (Enemy.get (Enemy.phase (Enemy.data e)) 0 + dt * 2) /\
      match Enemy.segs (Enemy.data e) with
      | Some (_ :: tl) =>
          exists tl',
            Enemy.segs (Enemy.data e') =
              Some ((Enemy.x e', Enemy.y e') :: tl') /\
            length tl' = length tl
      | segs => Enemy.segs (Enemy.data e') = segs /\ Enemy.y e' = Enemy.y e
      end
  end.

(** An enemy that differs from [e] by the hitpoints it has lost. *)
Definition hp_lowered (e e' : Enemy.t) : Prop :=
  e' = Game.set_hp (Enemy.hp e') e /\ Enemy.hp e' <= Enemy.hp e.

(** The hitpoints of a list of enemies and the worth of a list of shards. *)
Definition total_hp (es : list Enemy.t) : Q :=
  fold_right (fun e a => Enemy.hp e + a) 0 es.


(** A star of a game on a [width] by [height] playfield: one of the five
    layers, no further left than -2, no further right than 60 px past the
    right edge, at a height inside the playfield. *)
Definition star_ok (width height : Z) (st : Star.t) : Prop :=
  In (Star.layer st) [0.6; 0.8; 1.0; 1.2; 1.4] /\
  -2 <= Star.x st <= inject_Z width + 60 /\
  0 <= Star.y st <= inject_Z height.
(** [math.hypot] is at least as long as either of its arguments. *)
Definition hypot_dominates (ML : MathLib) : Prop :=
  forall a b, Qabs a <= m_hypot a b /\ Qabs b <= m_hypot a b.
(** Button [b] of joystick [iid] is held, and the value of one of its
    axes, as the loop reads them. *)
Definition is_pressed (st : Main.InputState) (iid b : Z) : bool :=
  IntSet.mem b (Dict.get_or (Main.pressed_by_iid st) iid []).

Definition axis_value (st : Main.InputState) (iid axis : Z) : Q :=
  Dict.get_or (Dict.get_or (Main.axis_by_iid st) iid []) axis 0.
(** Concrete pieces for the runs: a state with two stars, a blob sinking at
    the bottom edge, a red enemy with 0.5 s of cooldown left, a shard and a
    hostile projectile next to the player of [arena]. *)
Definition night : Game.t :=
  Game.mk 800 600 144 300 220 2 60 120 false false 0 0%Z
          [Star.mk 1 50 1.4; Star.mk 400 80 0.6] [] [] [] [] 1.

Definition jelly : Enemy.t :=
  Enemy.mk blob 500 590 (-140) 300 3 0 Enemy.no_data.

Definition gunner : Enemy.t :=
  Enemy.mk red 500 300 (-120) 0 4 0 (Enemy.mkData None (Some 0.5) None None).

Definition crumb (x : Q) : Shard.t := Shard.mk x 300 30 (-20) 6 10.

Definition graze (x : Q) : Laser.t := Laser.new x 305 (-280) 0 RED false.

(** The keyboard with the right and up arrows held; a stick pushed left
    beyond the threshold; the input state before any event. *)
Definition right_up (k : Main.Key) : bool :=
  match k with Main.K_RIGHT | Main.K_UP => true | _ => false end.

Definition pushed_left : Dict.t Q := [(Main.AXIS_X, 0.8)].

Definition idle : Main.InputState := Main.mkInputState true [] [].

(** * Properties *)

(** ** Python built-ins *)

Lemma Qltb_lt (a b : Q) : Qltb a b = true <-> a < b.
Proof.
  unfold Qltb. rewrite negb_true_iff, <- not_true_iff_false, Qle_bool_iff.
  split; [apply Qnot_le_lt | apply Qlt_not_le].
Qed.

Lemma Qltb_ge (a b : Q) : Qltb a b = false <-> b <= a.
Proof. unfold Qltb. now rewrite negb_false_iff, Qle_bool_iff. Qed.

Lemma py_max_l (a b : Q) : a <= py_max a b.
Proof.
  unfold py_max. destruct (Qltb a b) eqn:E.
  - apply Qltb_lt in E. lra.
  - lra.
Qed.

Lemma py_max_lub (a b c : Q) : a <= c -> b <= c -> py_max a b <= c.
Proof. unfold py_max. now destruct (Qltb a b). Qed.

Lemma py_min_l (a b : Q) : py_min a b <= a.
Proof.
  unfold py_min. destruct (Qltb b a) eqn:E.
  - apply Qltb_lt in E. lra.
  - lra.
Qed.

Lemma py_min_glb (a b c : Q) : c <= a -> c <= b -> c <= py_min a b.
Proof. unfold py_min. now destruct (Qltb b a). Qed.

Lemma py_or_nonzero (x d : Q) : ~ d == 0 -> ~ py_or x d == 0.
Proof.
  unfold py_or. intros Hd. destruct (Qeq_bool x 0) eqn:E; [exact Hd|].
  now apply Qeq_bool_neq.
Qed.

Lemma fdiv_Some (a b : Q) : ~ b == 0 -> fdiv a b = Some (a / b).
Proof.
  intros Hb. unfold fdiv. destruct (Qeq_bool b 0) eqn:E; [|reflexivity].
  now apply Qeq_bool_eq in E.
Qed.

(** ** The monad *)

Lemma bind_Some {G A B} (m : M G A) (k : A -> M G B) g r :
  bind m k g = Some r <->
  exists a g1, m g = Some (a, g1) /\ k a g1 = Some r.
Proof.
  unfold bind. split.
  - destruct (m g) as [[a g1]|]; [|discriminate]. intros H. now exists a, g1.
  - intros (a & g1 & -> & H). exact H.
Qed.

Lemma ret_Some {G A} (a : A) (g : G) r : ret a g = Some r <-> r = (a, g).
Proof. unfold ret. split; [now intros [= <-] | now intros ->]. Qed.

Lemma draw_Some {G A} (f : G -> A * G) g r : draw f g = Some r <-> r = f g.
Proof. unfold draw. split; [now intros [= <-] | now intros ->]. Qed.

Lemma total_ret {G A} (a : A) : total (@ret G A a).
Proof. intros g. now eexists. Qed.

Lemma total_draw {G A} (f : G -> A * G) : total (draw f).
Proof. intros g. now eexists. Qed.

Lemma total_bind {G A B} (m : M G A) (k : A -> M G B) :
  total m -> (forall a, total (k a)) -> total (bind m k).
Proof.
  intros Hm Hk g. unfold bind. destruct (Hm g) as [[a g1] ->]. apply Hk.
Qed.

Lemma total_lift_opt {G A} (o : option A) :
  (exists a, o = Some a) -> total (@lift_opt G A o).
Proof. intros [a ->] g. now eexists. Qed.

Lemma total_if {G A} (b : bool) (m1 m2 : M G A) :
  total m1 -> total m2 -> total (if b then m1 else m2).
Proof. now destruct b. Qed.

(** ** Every stage returns *)

Ltac total_step :=
  first [ apply total_ret | apply total_draw | apply total_if
        | apply total_bind; [| intros ?] ].

Section Totality.
Context {G : Type} {RS : RandomSource G} {ML : MathLib}.

Lemma total_forM {A B} (f : A -> M G B) (l : list A) :
  (forall a, total (f a)) -> total (Game.forM f l).
Proof.
  intros Hf. induction l as [|a l IH]; cbn [Game.forM].
  - apply total_ret.
  - apply total_bind; [apply Hf|]. intros b.
    apply total_bind; [apply IH|]. intros l'. apply total_ret.
Qed.

Lemma total_repeatM {A} (n : nat) (m : M G A) :
  total m -> total (Game.repeatM n m).
Proof.
  intros Hm. induction n as [|n IH]; cbn [Game.repeatM].
  - apply total_ret.
  - apply total_bind; [apply Hm|]. intros a.
    apply total_bind; [apply IH|]. intros l. apply total_ret.
Qed.

Lemma total_init (width height : Z) : total (Game.init width height).
Proof.
  unfold Game.init. apply total_bind; [|intros; apply total_ret].
  apply total_repeatM. unfold Game.new_star. repeat total_step.
Qed.

Lemma total_move_stars dt move_dx self : total (Game.move_stars dt move_dx self).
Proof.
  unfold Game.move_stars. apply total_bind; [|intros; apply total_ret].
  apply total_forM. intros s. unfold Game.move_star. repeat total_step.
Qed.

Lemma total_spawn_enemy self : total (Game._spawn_enemy self).
Proof.
  unfold Game._spawn_enemy. apply total_bind; [apply total_draw|]. intros y.
  apply total_bind; [unfold Game.choices_kind; repeat total_step|].
  intros [| | |]; repeat total_step.
Qed.

Lemma total_spawn dt self : total (Game.spawn dt self).
Proof.
  unfold Game.spawn. apply total_if; [|apply total_ret].
  apply total_bind; [apply total_spawn_enemy|]. intros. repeat total_step.
Qed.

(** The divisor of the aiming and of the chase-step calculation. *)
Lemma fallback_divisor_nonzero (d : Q) : ~ py_or d 1 == 0.
Proof. apply py_or_nonzero. discriminate. Qed.

Lemma chase_Some dt prev rest : exists r, Game.chase dt prev rest = Some r.
Proof.
  revert prev. induction rest as [|[cx cy] tl IH]; intros [px py];
    cbn [Game.chase].
  - now eexists.
  - rewrite !fdiv_Some by apply fallback_divisor_nonzero.
    match goal with |- context [Game.chase dt ?p tl] =>
      destruct (IH p) as [r ->] end.
    now eexists.
Qed.

Lemma total_update_red dt e self : total (Game.update_red dt e self).
Proof.
  unfold Game.update_red. apply total_if; [|apply total_ret].
  apply total_bind.
  { apply total_lift_opt. rewrite fdiv_Some by apply fallback_divisor_nonzero.
    now eexists. }
  intros bvx. apply total_bind.
  { apply total_lift_opt. rewrite fdiv_Some by apply fallback_divisor_nonzero.
    now eexists. }
  intros bvy. repeat total_step.
Qed.

Lemma total_update_blob dt height e : total (Game.update_blob dt height e).
Proof. unfold Game.update_blob. repeat total_step. Qed.

Lemma total_update_snake dt e : total (Game.update_snake (G:=G) dt e).
Proof.
  unfold Game.update_snake.
  destruct (Enemy.get _ _) as [|s0 tl]; [apply total_ret|].
  apply total_bind; [apply total_lift_opt, chase_Some|].
  intros. apply total_ret.
Qed.

Lemma total_update_enemy dt e self : total (Game.update_enemy dt e self).
Proof.
  unfold Game.update_enemy.
  destruct (Enemy.kind _).
  - apply total_ret.
  - apply total_bind; [apply total_update_blob|]. intros. apply total_ret.
  - apply total_update_red.
  - apply total_bind; [apply total_update_snake|]. intros. apply total_ret.
Qed.

Lemma total_update_enemies_loop dt es self :
  total (Game.update_enemies_loop dt es self).
Proof.
  revert self. induction es as [|e tl IH]; intros self;
    cbn [Game.update_enemies_loop].
  - apply total_ret.
  - apply total_bind; [apply total_update_enemy|]. intros [e' self1].
    apply total_bind; [apply IH|]. intros [tl' self2]. apply total_ret.
Qed.

Lemma total_update_enemies dt self : total (Game.update_enemies dt self).
Proof.
  unfold Game.update_enemies.
  apply total_bind; [apply total_update_enemies_loop|].
  intros [es self1]. apply total_ret.
Qed.

Lemma total_enemy_die e self : total (Game._enemy_die e self).
Proof.
  unfold Game._enemy_die. apply total_bind; [apply total_draw|]. intros n.
  apply total_bind; [|intros; apply total_ret].
  apply total_repeatM. unfold Game.new_shard. repeat total_step.
Qed.

Lemma total_resolve_loop es self : total (Game.resolve_loop es self).
Proof.
  revert self. induction es as [|e tl IH]; intros self;
    cbn [Game.resolve_loop].
  - apply total_ret.
  - apply total_if.
    + apply total_bind; [apply total_enemy_die|]. intros. apply IH.
    + apply total_bind; [apply IH|]. intros [alive self1]. apply total_ret.
Qed.

Lemma total_resolve_dead self : total (Game.resolve_dead self).
Proof.
  unfold Game.resolve_dead. apply total_bind; [apply total_resolve_loop|].
  intros [alive self1]. apply total_ret.
Qed.

Lemma total_update dt move_dx move_dy shoot boost shield self :
  total (Game.update dt move_dx move_dy shoot boost shield self).
Proof.
  unfold Game.update, Game.update_to_player_hits, Game.update_to_deaths,
    Game.update_to_kinematics.
  apply total_bind; [|intros; apply total_ret].
  apply total_bind; [|intros; apply total_resolve_dead].
  apply total_bind; [|intros; apply total_ret].
  apply total_bind; [apply total_move_stars|]. intros s4.
  apply total_bind; [apply total_spawn|]. intros s6.
  apply total_bind; [apply total_update_enemies|]. intros s7.
  apply total_ret.
Qed.
End Totality.

(** ** The shape of the state after each stage *)

Arguments Game.set_px _ _ /.
Arguments Game.set_py _ _ /.
Arguments Game.set_energy _ _ /.
Arguments Game.set_boost_active _ _ /.
Arguments Game.set_shield_active _ _ /.
Arguments Game.set_shoot_cd _ _ /.
Arguments Game.set_score _ _ /.
Arguments Game.set_stars _ _ /.
Arguments Game.set_bullets _ _ /.
Arguments Game.set_ebullets _ _ /.
Arguments Game.set_enemies _ _ /.
Arguments Game.set_shards _ _ /.
Arguments Game.set_spawn_t _ _ /.

Ltac gsimpl :=
  cbn [Game.set_px Game.set_py Game.set_energy Game.set_boost_active
       Game.set_shield_active Game.set_shoot_cd Game.set_score Game.set_stars
       Game.set_bullets Game.set_ebullets Game.set_enemies Game.set_shards
       Game.set_spawn_t
       Game.w Game.h Game.px Game.py Game.base_speed Game.boost_mul
       Game.energy Game.energy_max Game.boost_active Game.shield_active
       Game.shoot_cd Game.score Game.stars Game.bullets Game.ebullets
       Game.enemies Game.shards Game.spawn_t] in *.

Ltac inv_bind H :=
  let a := fresh "a" in
  let g := fresh "g" in
  let H1 := fresh H in
  apply bind_Some in H; destruct H as (a & g & H1 & H).

Lemma set_ebullets_nil (s : Game.t) :
  s = Game.set_ebullets (Game.ebullets s ++ []) s.
Proof. rewrite app_nil_r. destruct s; reflexivity. Qed.

Section Stages.
Context {G : Type} {RS : RandomSource G} {ML : MathLib}.

Lemma forM_length {A B} (f : A -> M G B) l g l' g' :
  Game.forM f l g = Some (l', g') -> length l' = length l.
Proof.
  revert g l'. induction l as [|a l IH]; intros g l' H; cbn [Game.forM] in H.
  - apply ret_Some in H. now inversion H.
  - inv_bind H. inv_bind H. apply ret_Some in H. inversion H; subst.
    cbn [length]. f_equal. eauto.
Qed.

Lemma repeatM_Forall {A} (P : A -> Prop) n (m : M G A) g l g' :
  (forall g a g1, m g = Some (a, g1) -> P a) ->
  Game.repeatM n m g = Some (l, g') -> length l = n /\ Forall P l.
Proof.
  intros Hm. revert g l. induction n as [|n IH]; intros g l H;
    cbn [Game.repeatM] in H.
  - apply ret_Some in H. inversion H. now split.
  - inv_bind H. inv_bind H. apply ret_Some in H. inversion H; subst.
    destruct (IH _ _ H1) as [Hl Hf]. split.
    + cbn [length]. now f_equal.
    + constructor; eauto.
Qed.

Lemma move_stars_shape dt move_dx self g s' g' :
  Game.move_stars dt move_dx self g = Some (s', g') ->
  exists st, length st = length (Game.stars self) /\ s' = Game.set_stars st self.
Proof.
  unfold Game.move_stars. intros H. inv_bind H. apply ret_Some in H.
  inversion H; subst. exists a. split; [|reflexivity].
  eapply forM_length; eauto.
Qed.

Lemma spawn_enemy_shape self g s' g' :
  Game._spawn_enemy self g = Some (s', g') ->
  exists e, s' = Game.set_enemies (Game.enemies self ++ [e]) self.
Proof.
  unfold Game._spawn_enemy. intros H. inv_bind H. inv_bind H.
  destruct a0.
  - inv_bind H. inv_bind H. apply ret_Some in H. inversion H. now eexists.
  - apply ret_Some in H. inversion H. now eexists.
  - inv_bind H. apply ret_Some in H. inversion H. now eexists.
  - inv_bind H. apply ret_Some in H. inversion H. now eexists.
Qed.

Lemma spawn_shape dt self g s' g' :
  Game.spawn dt self g = Some (s', g') ->
  exists new t',
    s' = Game.set_spawn_t t' (Game.set_enemies (Game.enemies self ++ new) self).
Proof.
  unfold Game.spawn. cbn [Game.spawn_t Game.set_spawn_t].
  destruct (Qle_bool (Game.spawn_t self - dt) 0); intros H.
  - inv_bind H. inv_bind H. apply ret_Some in H. inversion H; subst.
    apply spawn_enemy_shape in H0. destruct H0 as [e ->].
    exists [e]. eexists. reflexivity.
  - apply ret_Some in H. inversion H; subst. exists []. eexists.
    rewrite app_nil_r. destruct self; reflexivity.
Qed.

Lemma update_red_shape dt e self g e' s' g' :
  Game.update_red dt e self g = Some (e', s', g') ->
  Enemy.kind e' = Enemy.kind e /\
  exists fired,
    s' = Game.set_ebullets (Game.ebullets self ++ fired) self /\
    Forall (shot_by e') fired.
Proof.
  unfold Game.update_red.
  match goal with |- context [if ?c then _ else _] => destruct c end;
    intros H.
  - inv_bind H. inv_bind H. inv_bind H. apply ret_Some in H.
    inversion H; subst. split; [reflexivity|].
    eexists. split; [reflexivity|].
    constructor; [now cbn|constructor].
  - apply ret_Some in H. inversion H; subst. split; [reflexivity|].
    exists []. split; [apply set_ebullets_nil|constructor].
Qed.

Lemma update_enemy_shape dt e self g e' s' g' :
  Game.update_enemy dt e self g = Some (e', s', g') ->
  exists fired,
    s' = Game.set_ebullets (Game.ebullets self ++ fired) self /\
    Forall (shot_from [e']) fired.
Proof.
  unfold Game.update_enemy.
  destruct (Enemy.kind _) eqn:Hk; intros H.
  - apply ret_Some in H. inversion H; subst. exists [].
    split; [apply set_ebullets_nil|constructor].
  - inv_bind H. apply ret_Some in H. inversion H; subst.
    exists []. split; [apply set_ebullets_nil|constructor].
  - apply update_red_shape in H. destruct H as (Hk' & fired & -> & Hf).
    exists fired. split; [reflexivity|].
    eapply Forall_impl; [|exact Hf]. intros b Hb.
    exists e'. split; [now left|]. split; [|exact Hb].
    rewrite Hk'. exact Hk.
  - inv_bind H. apply ret_Some in H. inversion H; subst.
    exists []. split; [apply set_ebullets_nil|constructor].
Qed.

Lemma shot_from_incl es es' b :
  incl es es' -> shot_from es b -> shot_from es' b.
Proof. intros Hi (e & He & H). exists e. split; [now apply Hi|exact H]. Qed.

Lemma update_enemies_loop_shape dt es self g es' s' g' :
  Game.update_enemies_loop dt es self g = Some (es', s', g') ->
  exists fired,
    s' = Game.set_ebullets (Game.ebullets self ++ fired) self /\
    Forall (shot_from es') fired /\
    length es' = length es.
Proof.
  revert self g es' s'. induction es as [|e tl IH]; intros self g es' s' H;
    cbn [Game.update_enemies_loop] in H.
  - apply ret_Some in H. inversion H; subst. exists [].
    repeat split; [apply set_ebullets_nil|constructor].
  - inv_bind H. destruct a as [e1 s1]. inv_bind H. destruct a as [tl1 s2].
    apply ret_Some in H. inversion H; subst.
    apply update_enemy_shape in H0. destruct H0 as (f1 & -> & Hf1).
    apply IH in H1. destruct H1 as (f2 & -> & Hf2 & Hl).
    exists (f1 ++ f2). gsimpl. rewrite app_assoc.
    repeat split; [|cbn [length]; now f_equal].
    apply Forall_app. split.
    + eapply Forall_impl; [|exact Hf1]. intros b.
      apply shot_from_incl. intros x [<-|[]]. now left.
    + eapply Forall_impl; [|exact Hf2]. intros b.
      apply shot_from_incl. intros x Hx. now right.
Qed.

Lemma update_enemies_shape dt self g s' g' :
  Game.update_enemies dt self g = Some (s', g') ->
  exists es fired,
    s' = Game.set_enemies es
           (Game.set_ebullets (Game.ebullets self ++ fired) self) /\
    Forall (shot_from es) fired /\
    length es = length (Game.enemies self).
Proof.
  unfold Game.update_enemies. intros H. inv_bind H. destruct a as [es s1].
  apply ret_Some in H. inversion H; subst.
  apply update_enemies_loop_shape in H0. destruct H0 as (f & -> & Hf & Hl).
  now exists es, f.
Qed.

Lemma uniform_range a b g :
  a <= b -> a <= fst (uniform a b g) <= b.
Proof.
  intros Hab. unfold uniform.
  pose proof (rs_random_range g) as [H0 H1].
  destruct (rs_random g) as [u g1]. cbn [fst] in *. nra.
Qed.

Lemma randint_range a b g :
  (a <= b)%Z -> (a <= fst (randint a b g) <= b)%Z.
Proof.
  intros Hab. unfold randint.
  pose proof (@rs_randbelow_range _ _ (b - a + 1)%Z g ltac:(lia)) as H.
  destruct (rs_randbelow (b - a + 1)%Z g) as [k g1]. cbn [fst] in *. lia.
Qed.

Lemma new_shard_spec e g sh g' :
  Game.new_shard e g = Some (sh, g') -> shard_of e sh.
Proof.
  unfold Game.new_shard. intros H.
  inv_bind H. inv_bind H. inv_bind H. inv_bind H.
  apply ret_Some in H. inversion H; subst.
  apply draw_Some in H2, H3.
  pose proof (uniform_range 3 6 g1 ltac:(lra)) as Ht.
  pose proof (uniform_range 6 12 g2 ltac:(lra)) as Hv.
  rewrite <- H2 in Ht. rewrite <- H3 in Hv. cbn [fst] in Ht, Hv.
  unfold shard_of. cbn [Shard.x Shard.y Shard.ttl Shard.value]. tauto.
Qed.

Lemma enemy_die_shape e self g s' g' :
  Game._enemy_die e self g = Some (s', g') ->
  exists blk,
    death_block e blk /\
    s' = Game.set_score (Game.score self + 1)
           (Game.set_shards (Game.shards self ++ blk) self).
Proof.
  unfold Game._enemy_die. intros H. inv_bind H. inv_bind H.
  apply ret_Some in H. inversion H; subst.
  apply draw_Some in H0.
  pose proof (randint_range 2 5 g ltac:(lia)) as Hn.
  rewrite <- H0 in Hn. cbn [fst] in Hn.
  eapply repeatM_Forall in H1; [|intros ? ? ?; apply new_shard_spec].
  destruct H1 as [Hl Hf].
  exists a0. split; [split; [lia|exact Hf]|reflexivity].
Qed.

Lemma resolve_loop_shape es self g alive s' g' :
  Game.resolve_loop es self g = Some (alive, s', g') ->
  alive = filter (fun e => negb (dead e)) es /\
  exists blocks,
    Forall2 death_block (filter dead es) blocks /\
    s' = Game.set_score
           (Game.score self + Z.of_nat (length (filter dead es)))
           (Game.set_shards (Game.shards self ++ concat blocks) self).
Proof.
  revert self g alive s'.
  induction es as [|e tl IH]; intros self g alive s' H;
    cbn [Game.resolve_loop] in H.
  - apply ret_Some in H. inversion H; subst. split; [reflexivity|].
    exists []. split; [constructor|]. cbn [filter length concat Z.of_nat].
    rewrite app_nil_r, Z.add_0_r.
    match goal with |- ?s = _ => destruct s end. reflexivity.
  - cbn [filter]. fold (dead e) in *. destruct (dead e) eqn:Hd; cbn [negb].
    + inv_bind H. apply enemy_die_shape in H0. destruct H0 as (blk & Hb & ->).
      apply IH in H. destruct H as (-> & blocks & Hbs & ->).
      split; [reflexivity|]. exists (blk :: blocks).
      split; [now constructor|]. gsimpl. cbn [concat length].
      rewrite app_assoc. unfold Game.set_score, Game.set_shards. gsimpl.
      f_equal. lia.
    + inv_bind H. destruct a as [alive1 s1]. apply ret_Some in H.
      inversion H; subst. apply IH in H0.
      destruct H0 as (-> & blocks & Hbs & ->).
      split; [reflexivity|]. now exists blocks.
Qed.

Lemma resolve_dead_shape self g s' g' :
  Game.resolve_dead self g = Some (s', g') ->
  exists blocks,
    Forall2 death_block (filter dead (Game.enemies self)) blocks /\
    s' = Game.set_enemies
           (filter (fun e => negb (dead e)) (Game.enemies self))
           (Game.set_score
              (Game.score self +
               Z.of_nat (length (filter dead (Game.enemies self))))
              (Game.set_shards (Game.shards self ++ concat blocks) self)).
Proof.
  unfold Game.resolve_dead. intros H. inv_bind H. destruct a as [alive s1].
  apply ret_Some in H. inversion H; subst.
  apply resolve_loop_shape in H0. destruct H0 as (-> & blocks & Hb & ->).
  now exists blocks.
Qed.
End Stages.

(** ** The state after [update], field by field *)

Lemma bullets_vs_enemies_shape s :
  Game.bullets_vs_enemies s =
    Game.set_bullets (fst (Game.bullets_loop (Game.bullets s) (Game.enemies s)))
      (Game.set_enemies
         (snd (Game.bullets_loop (Game.bullets s) (Game.enemies s))) s).
Proof.
  unfold Game.bullets_vs_enemies.
  now destruct (Game.bullets_loop (Game.bullets s) (Game.enemies s)).
Qed.

Lemma ebullets_vs_player_shape prect s :
  Game.ebullets_vs_player prect s =
    Game.set_ebullets
      (fst (Game.ebullets_loop prect (Game.shield_active s) (Game.ebullets s)
              (Game.energy s)))
      (Game.set_energy
         (snd (Game.ebullets_loop prect (Game.shield_active s)
                 (Game.ebullets s) (Game.energy s))) s).
Proof.
  unfold Game.ebullets_vs_player.
  now destruct (Game.ebullets_loop _ _ _ _).
Qed.

Lemma shards_collect_shape dt prect s :
  Game.shards_collect dt prect s =
    Game.set_shards
      (fst (Game.shards_loop dt prect (Game.energy_max s) (Game.shards s)
              (Game.energy s)))
      (Game.set_energy
         (snd (Game.shards_loop dt prect (Game.energy_max s) (Game.shards s)
                 (Game.energy s))) s).
Proof.
  unfold Game.shards_collect.
  now destruct (Game.shards_loop _ _ _ _ _).
Qed.

(** [update] up to the shooting stage changes the player only. *)
Lemma prefix_fields dt mx my shoot boost shield s :
  let s1 := Game.energy_drains dt boost shield s in
  let s2 := Game.movement dt mx my s1 in
  let s3 := Game.shooting dt shoot s2 in
  Game.w s3 = Game.w s /\ Game.h s3 = Game.h s /\
  Game.px s3 = Game.px s2 /\ Game.py s3 = Game.py s2 /\
  Game.base_speed s3 = Game.base_speed s /\
  Game.boost_mul s3 = Game.boost_mul s /\
  Game.energy s3 = Game.energy s1 /\
  Game.energy_max s3 = Game.energy_max s /\
  Game.boost_active s3 = Game.boost_active s1 /\
  Game.shield_active s3 = Game.shield_active s1 /\
  Game.score s3 = Game.score s /\ Game.stars s3 = Game.stars s /\
  Game.ebullets s3 = Game.ebullets s /\ Game.enemies s3 = Game.enemies s /\
  Game.shards s3 = Game.shards s /\ Game.spawn_t s3 = Game.spawn_t s.
Proof.
  intros s1 s2 s3. subst s3. unfold Game.shooting.
  destruct (shoot && _); repeat split; reflexivity.
Qed.

Section Update.
Context {G : Type} {RS : RandomSource G} {ML : MathLib}.

(** The state when the enemies have moved and been culled. *)
Lemma update_to_kinematics_shape dt mx my shoot boost shield s (g : G) s8 g8 :
  Game.update_to_kinematics dt mx my shoot boost shield s g = Some (s8, g8) ->
  let s1 := Game.energy_drains dt boost shield s in
  let s2 := Game.movement dt mx my s1 in
  let s3 := Game.shooting dt shoot s2 in
  exists st fired moved t,
    let es := filter (Game.keep_enemy (Game.h s)) moved in
    length st = length (Game.stars s) /\
    Forall (shot_from moved) fired /\
    s8 = Game.mk (Game.w s) (Game.h s) (Game.px s2) (Game.py s2)
           (Game.base_speed s) (Game.boost_mul s)
           (Game.energy s1) (Game.energy_max s)
           (Game.boost_active s1) (Game.shield_active s1)
           (Game.shoot_cd s3) (Game.score s) st
           (filter (Game.keep_bullet (Game.w s) (Game.h s))
              (map (Laser.update dt) (Game.bullets s3)))
           (filter (Game.keep_ebullet (Game.w s) (Game.h s))
              (map (Laser.update dt) (Game.ebullets s)) ++ fired)
           es (Game.shards s) t.
Proof.
  intros H s1 s2 s3.
  pose proof (prefix_fields dt mx my shoot boost shield s) as HF.
  cbv zeta in HF. fold s1 s2 s3 in HF.
  unfold Game.update_to_kinematics in H. fold s1 s2 s3 in H.
  clearbody s3. clearbody s2. clearbody s1.
  inv_bind H. inv_bind H. inv_bind H. apply ret_Some in H.
  inversion H; subst; clear H.
  apply move_stars_shape in H0. destruct H0 as (st & Hst & ->).
  apply spawn_shape in H1. destruct H1 as (new & t & ->).
  apply update_enemies_shape in H2. destruct H2 as (es & fired & -> & Hf & _).
  destruct HF as (Hw & Hh & Hpx & Hpy & Hbs & Hbm & He & Hem & Hba & Hsa &
                  Hsc & Hstars & Heb & Hen & Hsh & Hsp).
  exists st, fired, es, t. cbv zeta.
  split; [|split; [exact Hf|]].
  - now rewrite Hst, Hstars.
  - unfold Game.cull_enemies, Game.move_bullets. gsimpl.
    rewrite Hw, Hh, Hpx, Hpy, Hbs, Hbm, He, Hem, Hba, Hsa, Hsc, Heb, Hsh.
    reflexivity.
Qed.

Lemma update_split dt mx my shoot boost shield s (g : G) s' g' :
  Game.update dt mx my shoot boost shield s g = Some (s', g') <->
  exists s8 g8 s10,
    Game.update_to_kinematics dt mx my shoot boost shield s g = Some (s8, g8) /\
    Game.update_to_deaths dt mx my shoot boost shield s g =
      Some (Game.bullets_vs_enemies s8, g8) /\
    Game.resolve_dead (Game.bullets_vs_enemies s8) g8 = Some (s10, g') /\
    Game.update_to_player_hits dt mx my shoot boost shield s g =
      Some (s10, g') /\
    s' = player_stages dt s10.
Proof.
  unfold Game.update, Game.update_to_player_hits, Game.update_to_deaths,
    player_stages.
  split.
  - intros H. apply bind_Some in H. destruct H as (s10 & g10 & H10 & H).
    apply ret_Some in H. inversion H; subst; clear H.
    pose proof H10 as Hr. apply bind_Some in Hr.
    destruct Hr as (s9 & g9 & H9 & Hr).
    pose proof H9 as H8. apply bind_Some in H8.
    destruct H8 as (s8 & g8 & H8 & E). apply ret_Some in E.
    inversion E; subst; clear E.
    exists s8, g8, s10. now repeat split.
  - intros (s8 & g8 & s10 & H8 & _ & H10 & _ & ->).
    unfold bind. rewrite H8. unfold ret. now rewrite H10.
Qed.

(** [update] always runs through its stages. *)
Lemma update_runs dt mx my shoot boost shield s (g : G) :
  exists s8 g8 s10 g',
    Game.update_to_kinematics dt mx my shoot boost shield s g = Some (s8, g8) /\
    Game.update_to_deaths dt mx my shoot boost shield s g =
      Some (Game.bullets_vs_enemies s8, g8) /\
    Game.resolve_dead (Game.bullets_vs_enemies s8) g8 = Some (s10, g') /\
    Game.update_to_player_hits dt mx my shoot boost shield s g =
      Some (s10, g') /\
    Game.update dt mx my shoot boost shield s g =
      Some (player_stages dt s10, g').
Proof.
  destruct (total_update dt mx my shoot boost shield s g) as [[s' g'] H].
  pose proof H as H'. apply update_split in H'.
  destruct H' as (s8 & g8 & s10 & H8 & H9 & Hr & H10 & ->).
  now exists s8, g8, s10, g'.
Qed.

(** The state at the head of the player-hit stage. *)
Lemma update_to_player_hits_shape dt mx my shoot boost shield s (g : G) s10 g' :
  Game.update_to_player_hits dt mx my shoot boost shield s g = Some (s10, g') ->
  let s1 := Game.energy_drains dt boost shield s in
  let s2 := Game.movement dt mx my s1 in
  let s3 := Game.shooting dt shoot s2 in
  exists st fired moved t blocks,
    let es := filter (Game.keep_enemy (Game.h s)) moved in
    let bl := filter (Game.keep_bullet (Game.w s) (Game.h s))
                (map (Laser.update dt) (Game.bullets s3)) in
    let eb := filter (Game.keep_ebullet (Game.w s) (Game.h s))
                (map (Laser.update dt) (Game.ebullets s)) ++ fired in
    let hit := Game.bullets_loop bl es in
    length st = length (Game.stars s) /\
    Forall (shot_from moved) fired /\
    Forall2 death_block (filter dead (snd hit)) blocks /\
    s10 = Game.mk (Game.w s) (Game.h s) (Game.px s2) (Game.py s2)
            (Game.base_speed s) (Game.boost_mul s)
            (Game.energy s1) (Game.energy_max s)
            (Game.boost_active s1) (Game.shield_active s1)
            (Game.shoot_cd s3)
            (Game.score s + Z.of_nat (length (filter dead (snd hit))))
            st (fst hit) eb
            (filter (fun e => negb (dead e)) (snd hit))
            (Game.shards s ++ concat blocks) t.
Proof.
  intros H s1 s2 s3.
  unfold Game.update_to_player_hits, Game.update_to_deaths in H.
  inv_bind H. inv_bind H0. apply ret_Some in H0.
  inversion H0; subst; clear H0.
  apply update_to_kinematics_shape in H1. cbv zeta in H1.
  fold s1 s2 s3 in H1.
  destruct H1 as (st & fired & moved & t & Hst & Hf & ->).
  apply resolve_dead_shape in H. destruct H as (blocks & Hb & ->).
  rewrite bullets_vs_enemies_shape in *. gsimpl.
  exists st, fired, moved, t, blocks. cbv zeta.
  split; [exact Hst|]. split; [exact Hf|]. split; [exact Hb|]. reflexivity.
Qed.

(** The state returned by [update]. *)
Lemma update_shape dt mx my shoot boost shield s (g : G) s' g' :
  Game.update dt mx my shoot boost shield s g = Some (s', g') ->
  let s1 := Game.energy_drains dt boost shield s in
  let s2 := Game.movement dt mx my s1 in
  let s3 := Game.shooting dt shoot s2 in
  exists st fired moved t blocks,
    let es := filter (Game.keep_enemy (Game.h s)) moved in
    let bl := filter (Game.keep_bullet (Game.w s) (Game.h s))
                (map (Laser.update dt) (Game.bullets s3)) in
    let eb := filter (Game.keep_ebullet (Game.w s) (Game.h s))
                (map (Laser.update dt) (Game.ebullets s)) ++ fired in
    let hit := Game.bullets_loop bl es in
    let prect := Game.player_rect s2 in
    let pl := Game.ebullets_loop prect (Game.shield_active s1) eb
                (Game.energy s1) in
    let sh := Game.shards_loop dt prect (Game.energy_max s)
                (Game.shards s ++ concat blocks) (snd pl) in
    length st = length (Game.stars s) /\
    Forall (shot_from moved) fired /\
    Forall2 death_block (filter dead (snd hit)) blocks /\
    s' = Game.mk (Game.w s) (Game.h s) (Game.px s2) (Game.py s2)
           (Game.base_speed s) (Game.boost_mul s)
           (snd sh) (Game.energy_max s)
           (Game.boost_active s1) (Game.shield_active s1)
           (Game.shoot_cd s3)
           (Game.score s + Z.of_nat (length (filter dead (snd hit))))
           st (fst hit) (fst pl)
           (filter (fun e => negb (dead e)) (snd hit)) (fst sh) t.
Proof.
  intros H s1 s2 s3. apply update_split in H.
  destruct H as (s8 & g8 & s10 & _ & _ & _ & H10 & ->).
  apply update_to_player_hits_shape in H10. cbv zeta in H10.
  fold s1 s2 s3 in H10.
  destruct H10 as (st & fired & moved & t & blocks & Hst & Hf & Hb & ->).
  exists st, fired, moved, t, blocks. cbv zeta.
  split; [exact Hst|]. split; [exact Hf|]. split; [exact Hb|].
  unfold player_stages.
  rewrite shards_collect_shape, ebullets_vs_player_shape.
  unfold Game.player_rect. gsimpl. reflexivity.
Qed.

(** [update] returns, and what holds of every state it could return holds
    of the state it returns. *)
Lemma update_returns dt mx my shoot boost shield s (g : G)
  (P : Game.t -> Prop) :
  (forall s' g', Game.update dt mx my shoot boost shield s g = Some (s', g') ->
                 P s') ->
  exists s' g',
    Game.update dt mx my shoot boost shield s g = Some (s', g') /\ P s'.
Proof.
  intros HP.
  destruct (total_update dt mx my shoot boost shield s g) as [[s' g'] H].
  exists s', g'. split; [exact H|]. eapply HP; eauto.
Qed.

Lemma init_shape width height (g : G) s g' :
  Game.init width height g = Some (s, g') ->
  exists st,
    length st = 140%nat /\
    s = Game.mk width height (inject_Z width * 0.18) (inject_Z height * 0.5)
          220 2 60 120 false false 0 0%Z st [] [] [] [] 1.
Proof.
  unfold Game.init. intros H. inv_bind H. apply ret_Some in H.
  inversion H; subst. exists a. split; [|reflexivity].
  eapply (repeatM_Forall (fun _ => True)) in H0; [tauto|trivial].
Qed.

Lemma init_returns width height (g : G) (P : Game.t -> Prop) :
  (forall s g', Game.init width height g = Some (s, g') -> P s) ->
  exists s g', Game.init width height g = Some (s, g') /\ P s.
Proof.
  intros HP. destruct (total_init width height g) as [[s g'] H].
  exists s, g'. split; [exact H|]. eapply HP; eauto.
Qed.

(** ** Frame: what [update] never writes *)

(** C10.  Every call of [update] returns a state with the same [w], [h],
    [base_speed], [boost_mul] and [energy_max] and with as many stars as
    before; construction creates 140 stars. *)
Theorem update_preserves_configuration :
  (forall width height (g : G),
      exists s g', Game.init width height g = Some (s, g') /\
                   length (Game.stars s) = 140%nat) /\
  (forall dt mx my shoot boost shield s (g : G),
      exists s' g',
        Game.update dt mx my shoot boost shield s g = Some (s', g') /\
        Game.w s' = Game.w s /\ Game.h s' = Game.h s /\
        Game.base_speed s' = Game.base_speed s /\
        Game.boost_mul s' = Game.boost_mul s /\
        Game.energy_max s' = Game.energy_max s /\
        length (Game.stars s') = length (Game.stars s)).
Proof.
  split.
  - intros width height g. apply init_returns. intros s g' H.
    apply init_shape in H. destruct H as (st & Hst & ->). exact Hst.
  - intros dt mx my shoot boost shield s g. apply update_returns.
    intros s' g' H. apply update_shape in H. cbv zeta in H.
    destruct H as (st & fired & moved & t & blocks & Hst & _ & _ & ->).
    gsimpl. now repeat split.
Qed.

(** ** Score *)

(** C8.  The score returned by [update] is never below the score it was
    called with. *)
Theorem score_monotone dt mx my shoot boost shield s (g : G) :
  exists s' g',
    Game.update dt mx my shoot boost shield s g = Some (s', g') /\
    (Game.score s <= Game.score s')%Z.
Proof.
  apply update_returns. intros s' g' H. apply update_shape in H.
  cbv zeta in H.
  destruct H as (st & fired & moved & t & blocks & _ & _ & _ & ->).
  gsimpl. lia.
Qed.

(** ** No division fault *)

(** C7.  [update] returns a state from every state and for every input:
    no division in it faults.  The divisor of the aiming calculation and
    of each chase step is [hypot(dx, dy) or 1.0]: it is 1 when the distance
    is zero and the distance itself otherwise, never zero, so the division
    by it is defined. *)
Theorem update_never_faults :
  (forall dt mx my shoot boost shield s (g : G),
      exists s' g',
        Game.update dt mx my shoot boost shield s g = Some (s', g')) /\
  (forall dt e self (g : G), exists r, Game.update_red dt e self g = Some r) /\
  (forall dt head tail, exists r, Game.chase dt head tail = Some r) /\
  (forall dx dy,
      let d := m_hypot dx dy in
      (d == 0 /\ py_or d 1 = 1) \/ (~ d == 0 /\ py_or d 1 = d)) /\
  (forall a d, ~ py_or d 1 == 0 /\ fdiv a (py_or d 1) = Some (a / py_or d 1)).
Proof.
  split; [|split; [|split; [|split]]].
  - intros dt mx my shoot boost shield s g.
    destruct (total_update dt mx my shoot boost shield s g) as [[s' g'] H].
    now exists s', g'.
  - intros dt e self g. apply total_update_red.
  - intros dt head tail. apply chase_Some.
  - intros dx dy d. unfold py_or. destruct (Qeq_bool d 0) eqn:E.
    + left. split; [now apply Qeq_bool_eq|reflexivity].
    + right. split; [now apply Qeq_bool_neq|reflexivity].
  - intros a d. split; [apply fallback_divisor_nonzero|].
    apply fdiv_Some, fallback_divisor_nonzero.
Qed.

(** ** Player position *)

Lemma clamp_in_range (n : Z) (x : Q) :
  (40 <= n)%Z ->
  20 <= py_max 20 (py_min (inject_Z (n - 20)) x) <= inject_Z (n - 20).
Proof.
  intros Hn. split; [apply py_max_l|].
  apply py_max_lub; [|apply py_min_l].
  change 20 with (inject_Z 20). rewrite <- Zle_Qle. lia.
Qed.

(** [update] clamps the player to the inset playfield as soon as the
    playfield is 40 wide and 40 high. *)
Lemma update_clamps_position dt mx my shoot boost shield s (g : G) s' g' :
  (40 <= Game.w s)%Z -> (40 <= Game.h s)%Z ->
  Game.update dt mx my shoot boost shield s g = Some (s', g') ->
  in_field s'.
Proof.
  intros Hw Hh H. apply update_shape in H. cbv zeta in H.
  destruct H as (st & fired & moved & t & blocks & _ & _ & _ & ->).
  unfold in_field, Game.movement. gsimpl.
  unfold Game.energy_drains. gsimpl.
  split; now apply clamp_in_range.
Qed.

Lemma init_in_field width height (g : G) s g' :
  (112 <= width)%Z -> (40 <= height)%Z ->
  Game.init width height g = Some (s, g') -> in_field s.
Proof.
  intros Hw Hh H. apply init_shape in H. destruct H as (st & _ & ->).
  unfold in_field. gsimpl. unfold Qle. cbn. lia.
Qed.

(** C2, amended.  On a playfield at least 112 wide and 40 high, the player
    position is within [20, width - 20] x [20, height - 20] after
    construction and after every call of [update]. *)
Theorem position_clamp width height s :
  (112 <= width)%Z -> (40 <= height)%Z ->
  frame_of width height s -> in_field s.
Proof.
  intros Hw Hh [(g & g' & H)|H].
  - eapply init_in_field; eauto.
  - destruct H as (dt & mx & my & shoot & boost & shield & s0 & g & g' &
                   <- & <- & H).
    eapply update_clamps_position; [| |exact H]; lia.
Qed.
End Update.

(** ** Energy *)

(** The player-hit loop keeps the projectiles that miss; shielded, it
    leaves the energy alone, and otherwise it applies [hit_damage] once per
    projectile that overlaps. *)
Lemma ebullets_loop_spec prect shield bs energy :
  Game.ebullets_loop prect shield bs energy =
    (filter (fun b => negb (overlaps prect b)) bs,
     if shield then energy
     else Nat.iter (length (filter (overlaps prect) bs)) hit_damage energy).
Proof.
  revert energy. induction bs as [|b tl IH]; intros energy;
    cbn [Game.ebullets_loop filter].
  - now destruct shield.
  - fold (overlaps prect b). destruct (overlaps prect b); cbn [negb].
    + destruct shield; rewrite IH; [reflexivity|].
      cbn [length]. now rewrite Nat.iter_succ_r.
    + now rewrite IH.
Qed.

Lemma hit_damage_bounds (m e : Q) :
  0 <= e <= m -> 0 <= hit_damage e <= m.
Proof.
  intros [H0 Hm]. unfold hit_damage. split; [apply py_max_l|].
  apply py_max_lub; lra.
Qed.

Lemma iter_hit_damage_bounds (m e : Q) (n : nat) :
  0 <= e <= m -> 0 <= Nat.iter n hit_damage e <= m.
Proof.
  intros H. induction n as [|n IH]; [exact H|].
  cbn [Nat.iter]. now apply hit_damage_bounds.
Qed.

Lemma ebullets_loop_energy prect shield bs (m e : Q) :
  0 <= e <= m -> 0 <= snd (Game.ebullets_loop prect shield bs e) <= m.
Proof.
  intros H. rewrite ebullets_loop_spec. cbn [snd].
  destruct shield; [exact H|]. now apply iter_hit_damage_bounds.
Qed.

Lemma shards_loop_energy dt prect (m : Q) ss e :
  shards_worth ss -> 0 <= e <= m ->
  0 <= snd (Game.shards_loop dt prect m ss e) <= m /\
  shards_worth (fst (Game.shards_loop dt prect m ss e)).
Proof.
  intros Hss. revert e. induction Hss as [|sh tl Hv Htl IH]; intros e He;
    cbn [Game.shards_loop].
  - split; [exact He|constructor].
  - destruct (Qle_bool (Shard.ttl (Shard.update dt sh)) 0); [now apply IH|].
    destruct (Rect.colliderect prect (Shard.rect (Shard.update dt sh))).
    + apply IH. cbn [Shard.update Shard.value].
      split; [apply py_min_glb; lra|apply py_min_l].
    + specialize (IH e He).
      destruct (Game.shards_loop dt prect m tl e) as [ns e']. cbn [fst snd] in *.
      split; [tauto|]. constructor; [exact Hv|tauto].
Qed.

Lemma death_blocks_worth es blocks :
  Forall2 death_block es blocks -> shards_worth (concat blocks).
Proof.
  induction 1 as [|e blk es blocks [_ Hb] _ IH]; cbn [concat]; [constructor|].
  apply Forall_app. split; [|exact IH].
  eapply Forall_impl; [|exact Hb]. intros sh (_ & _ & _ & Hv). cbn beta. lra.
Qed.

Lemma energy_drains_bounds dt boost shield s :
  0 <= dt -> 0 <= Game.energy s <= Game.energy_max s ->
  0 <= Game.energy (Game.energy_drains dt boost shield s) <= Game.energy_max s.
Proof.
  intros Hdt [H0 Hm]. unfold Game.energy_drains. gsimpl.
  split; [apply py_max_l|].
  apply py_max_lub; [lra|].
  destruct (boost && _), (shield && _); lra.
Qed.

(** ** The projectile loop *)

(** The hit test reads the kind, the position and the radius of an enemy,
    not its hitpoints. *)
Lemma hits_set_hp b hp e : Game.hits b (Game.set_hp hp e) = Game.hits b e.
Proof. destruct e as [k x y vx vy h t d]. now destruct k. Qed.

(** The scan of one projectile over the enemies. *)
Lemma hit_first_spec b es :
  match Game.hit_first b es with
  | Some es' =>
      exists before e after,
        es = before ++ e :: after /\
        Forall (fun x => Game.hits b x = false) before /\
        Game.hits b e = true /\
        es' = before ++ damaged e :: after
  | None => Forall (fun x => Game.hits b x = false) es
  end.
Proof.
  induction es as [|e tl IH]; cbn [Game.hit_first]; [constructor|].
  destruct (Game.hits b e) eqn:He.
  - exists [], e, tl. now repeat split.
  - destruct (Game.hit_first b tl) as [tl'|].
    + destruct IH as (before & e1 & after & -> & Hb & H1 & ->).
      exists (e :: before), e1, after. repeat split; try assumption.
      now constructor.
    + now constructor.
Qed.

Lemma hit_first_existsb b es :
  match Game.hit_first b es with
  | Some _ => existsb (Game.hits b) es = true
  | None => existsb (Game.hits b) es = false
  end.
Proof.
  induction es as [|e tl IH]; cbn [Game.hit_first existsb]; [reflexivity|].
  destruct (Game.hits b e); [reflexivity|].
  destruct (Game.hit_first b tl); exact IH.
Qed.

Lemma hit_first_keeps_hits b b' es es' :
  Game.hit_first b es = Some es' ->
  existsb (Game.hits b') es' = existsb (Game.hits b') es.
Proof.
  intros H. pose proof (hit_first_spec b es) as S. rewrite H in S.
  destruct S as (before & e & after & -> & _ & _ & ->).
  rewrite !existsb_app. cbn [existsb]. unfold damaged.
  now rewrite hits_set_hp.
Qed.

(** The projectiles that remain are those that overlap no enemy. *)
Lemma bullets_loop_remaining bs es :
  fst (Game.bullets_loop bs es) =
    filter (fun b => negb (existsb (Game.hits b) es)) bs.
Proof.
  revert es. induction bs as [|b tl IH]; intros es;
    cbn [Game.bullets_loop filter]; [reflexivity|].
  pose proof (hit_first_existsb b es) as Hb.
  destruct (Game.hit_first b es) as [es'|] eqn:E; rewrite Hb; cbn [negb].
  - rewrite IH. apply filter_ext. intros b'.
    now rewrite (hit_first_keeps_hits b b' es es' E).
  - specialize (IH es). destruct (Game.bullets_loop tl es) as [r es1].
    cbn [fst] in *. now rewrite IH.
Qed.


Lemma Forall_filter_keep {A} (P : A -> Prop) f (l : list A) :
  Forall P l -> Forall P (filter f l).
Proof.
  rewrite !Forall_forall. intros H x Hx. apply filter_In in Hx. now apply H.
Qed.

Lemma Forall_filter_test {A} (f : A -> bool) (l : list A) :
  Forall (fun x => f x = true) (filter f l).
Proof. rewrite Forall_forall. intros x Hx. now apply filter_In in Hx. Qed.

Lemma Forall_map_intro {A B} (P : B -> Prop) (f : A -> B) (l : list A) :
  Forall (fun x => P (f x)) l -> Forall P (map f l).
Proof. induction 1; cbn [map]; now constructor. Qed.

Lemma shooting_bullets dt shoot s :
  exists shot,
    Game.bullets (Game.shooting dt shoot s) = Game.bullets s ++ shot /\
    (shot = [] \/
     shot = [Laser.new (Game.px s + 18) (Game.py s) 520 0 YELLOW true]).
Proof.
  unfold Game.shooting. destruct (shoot && _).
  - eexists. split; [reflexivity|now right].
  - exists []. split; [now rewrite app_nil_r|now left].
Qed.

Section Reachable.
Context {G : Type} {RS : RandomSource G} {ML : MathLib}.

Lemma init_ok width height (g : G) s g' :
  Game.init width height g = Some (s, g') -> state_ok s.
Proof.
  intros H. apply init_shape in H. destruct H as (st & _ & ->).
  unfold state_ok, shards_worth. gsimpl.
  repeat split; try constructor; lra.
Qed.

Lemma update_ok dt mx my shoot boost shield s (g : G) s' g' :
  0 <= dt -> state_ok s ->
  Game.update dt mx my shoot boost shield s g = Some (s', g') ->
  state_ok s'.
Proof.
  intros Hdt (He & Hsh & Hb & Heb) H. apply update_shape in H.
  cbv zeta in H.
  destruct H as (st & fired & moved & t & blocks & _ & Hf & Hbl & ->).
  unfold state_ok. gsimpl.
  pose proof (energy_drains_bounds dt boost shield s Hdt He) as He1.
  set (s1 := Game.energy_drains dt boost shield s) in *.
  set (s2 := Game.movement dt mx my s1) in *.
  match goal with |- context [Game.ebullets_loop ?p ?sa ?eb ?e] =>
    pose proof (ebullets_loop_energy p sa eb (Game.energy_max s) e He1) as He2;
    set (pl := Game.ebullets_loop p sa eb e) in *
  end.
  assert (Hw : shards_worth (Game.shards s ++ concat blocks)).
  { apply Forall_app. split; [exact Hsh|].
    eapply death_blocks_worth; eauto. }
  match goal with |- context [Game.shards_loop dt ?p ?m ?ss ?e] =>
    destruct (shards_loop_energy dt p m ss e Hw He2) as [He3 Hs3]
  end.
  split; [exact He3|]. split; [exact Hs3|]. split.
  - rewrite bullets_loop_remaining. do 2 apply Forall_filter_keep.
    apply Forall_map_intro.
    destruct (shooting_bullets dt shoot s2) as (shot & -> & Hshot).
    apply Forall_app. split.
    + eapply Forall_impl; [|exact Hb]. now intros b.
    + destruct Hshot as [->| ->]; repeat constructor.
  - subst pl. rewrite ebullets_loop_spec. cbn [fst].
    apply Forall_filter_keep, Forall_app. split.
    + apply Forall_filter_keep, Forall_map_intro.
      eapply Forall_impl; [|exact Heb]. now intros b.
    + eapply Forall_impl; [|exact Hf].
      intros b (e & _ & _ & _ & _ & Hw14 & Hh3 & _). now split.
Qed.

Lemma reachable_ok s : reachable s -> state_ok s.
Proof.
  induction 1 as [width height g s g' H|dt mx my shoot boost shield s g s' g'
                                          _ IH Hdt _ _ H].
  - eapply init_ok; eauto.
  - eapply update_ok; [|exact IH|exact H]. lra.
Qed.

(** C1.  From every reachable state, a call of [update] with a positive
    elapsed time and a movement vector in range returns a state whose
    energy is between 0 and [energy_max].  Each decrease is a [max] with 0
    (the drain, the damage of a hit) and each increase a [min] with
    [energy_max] (a collected shard). *)
Theorem energy_bounds dt mx my shoot boost shield s (g : G) :
  reachable s ->
  0 < dt -> -1 <= mx <= 1 -> -1 <= my <= 1 ->
  exists s' g',
    Game.update dt mx my shoot boost shield s g = Some (s', g') /\
    0 <= Game.energy s' <= Game.energy_max s' /\
    0 <= Game.energy (Game.energy_drains dt boost shield s) /\
    (forall e, 0 <= hit_damage e) /\
    (forall e v, py_min (Game.energy_max s) (e + v) <= Game.energy_max s).
Proof.
  intros Hr Hdt Hmx Hmy.
  destruct (total_update dt mx my shoot boost shield s g) as [[s' g'] H].
  exists s', g'. split; [exact H|].
  assert (Hr' : reachable s')
    by exact (reach_update _ _ _ _ _ _ _ _ _ _ Hr Hdt Hmx Hmy H).
  apply reachable_ok in Hr'. destruct Hr' as (He & _).
  split; [exact He|]. split; [|split].
  - unfold Game.energy_drains. gsimpl. apply py_max_l.
  - intros e. apply py_max_l.
  - intros e v. apply py_min_l.
Qed.

(** ** Hostile projectiles vs player *)

Lemma hit_damage_cases (e : Q) :
  (12 < e /\ hit_damage e = e - 12) \/ (e <= 12 /\ hit_damage e = 0).
Proof.
  unfold hit_damage, py_max. destruct (Qltb 0 (e - 12)) eqn:E.
  - left. apply Qltb_lt in E. split; [lra|reflexivity].
  - right. apply Qltb_ge in E. split; [lra|reflexivity].
Qed.

(** What the last two stages leave of the state at their head. *)
Lemma player_stages_fields dt s10 :
  let prect := Game.player_rect s10 in
  let s11 := Game.ebullets_vs_player prect s10 in
  let s' := player_stages dt s10 in
  Game.ebullets s11 =
    filter (fun b => negb (overlaps prect b)) (Game.ebullets s10) /\
  Game.energy s11 =
    (if Game.shield_active s10 then Game.energy s10
     else Nat.iter (length (filter (overlaps prect) (Game.ebullets s10)))
            hit_damage (Game.energy s10)) /\
  Game.ebullets s' = Game.ebullets s11 /\
  Game.shield_active s' = Game.shield_active s10 /\
  Game.px s' = Game.px s10 /\ Game.py s' = Game.py s10 /\
  Game.enemies s' = Game.enemies s10 /\ Game.score s' = Game.score s10 /\
  Game.bullets s' = Game.bullets s10.
Proof.
  intros prect s11 s'. subst s' s11. unfold player_stages. fold prect.
  rewrite shards_collect_shape, ebullets_vs_player_shape. gsimpl.
  rewrite ebullets_loop_spec. cbn [fst snd]. now repeat split.
Qed.

Lemma hostile_shapes dt mx my shoot boost shield s (g : G) s10 g' :
  Forall laser_shape (Game.ebullets s) ->
  Game.update_to_player_hits dt mx my shoot boost shield s g = Some (s10, g') ->
  Forall laser_shape (Game.ebullets s10).
Proof.
  intros Heb H. apply update_to_player_hits_shape in H. cbv zeta in H.
  destruct H as (st & fired & moved & t & blocks & _ & Hf & _ & ->).
  gsimpl. apply Forall_app. split.
  - apply Forall_filter_keep, Forall_map_intro.
    eapply Forall_impl; [|exact Heb]. now intros b.
  - eapply Forall_impl; [|exact Hf].
    intros b (e & _ & _ & _ & _ & Hw14 & Hh3 & _). now split.
Qed.

(** C3.  From every reachable state, [update] reaches its player-hit stage
    in a state [s10] whose hostile projectiles all have a 14 x 3 rectangle;
    the hitbox is the 24 x 20 rectangle at [(int(px - 12), int(py - 10))].
    The stage keeps exactly the projectiles whose rectangle does not overlap
    the hitbox, and these are the hostile projectiles [update] returns.
    With the shield active the energy is unchanged; without it the energy
    goes through [hit_damage] once per overlapping projectile, which takes
    12 off, or leaves 0 when no more than 12 is left. *)
Theorem hostile_projectiles_vs_player dt mx my shoot boost shield s (g : G) :
  reachable s ->
  exists s10 g',
    Game.update_to_player_hits dt mx my shoot boost shield s g
      = Some (s10, g') /\
    Game.update dt mx my shoot boost shield s g
      = Some (player_stages dt s10, g') /\
    let prect := Game.player_rect s10 in
    let s11 := Game.ebullets_vs_player prect s10 in
    let hits := filter (overlaps prect) (Game.ebullets s10) in
    prect = Rect.mk (py_int (Game.px s10 - 12)) (py_int (Game.py s10 - 10))
              24 20 /\
    Forall (fun b => Rect.w (Laser.rect b) = 14%Z /\
                     Rect.h (Laser.rect b) = 3%Z) (Game.ebullets s10) /\
    Game.ebullets s11 =
      filter (fun b => negb (overlaps prect b)) (Game.ebullets s10) /\
    Game.ebullets (player_stages dt s10) = Game.ebullets s11 /\
    Game.energy s11 =
      (if Game.shield_active s10 then Game.energy s10
       else Nat.iter (length hits) hit_damage (Game.energy s10)) /\
    (forall e, (12 < e /\ hit_damage e = e - 12) \/
               (e <= 12 /\ hit_damage e = 0)).
Proof.
  intros Hr. apply reachable_ok in Hr. destruct Hr as (_ & _ & _ & Heb).
  destruct (update_runs dt mx my shoot boost shield s g)
    as (s8 & g8 & s10 & g' & _ & _ & _ & H10 & H).
  exists s10, g'. split; [exact H10|]. split; [exact H|]. cbv zeta.
  pose proof (hostile_shapes _ _ _ _ _ _ _ _ _ _ Heb H10) as Hs.
  destruct (player_stages_fields dt s10) as (E1 & E2 & E3 & _).
  split; [reflexivity|]. split; [exact Hs|].
  split; [exact E1|]. split; [exact E3|]. split; [exact E2|].
  exact hit_damage_cases.
Qed.

End Reachable.

Section Collisions.
Context {G : Type} {RS : RandomSource G} {ML : MathLib}.

(** ** Enemy death *)

(** C4.  [update] reaches its death-resolution stage in a state [s9].
    Every enemy of [s9] with hitpoints at most 0 is absent from the enemies
    [update] returns, which are the others, in order; for each of them, in
    order, a block of 2 to 5 shards is appended to the shards, each at the
    position of the enemy, with a ttl in [3, 6] and a value in [6, 12]; and
    the score grows by the number of these enemies. *)
Theorem enemy_death_resolution dt mx my shoot boost shield s (g : G) :
  exists s9 g9 s10 g',
    Game.update_to_deaths dt mx my shoot boost shield s g = Some (s9, g9) /\
    Game.resolve_dead s9 g9 = Some (s10, g') /\
    Game.update dt mx my shoot boost shield s g
      = Some (player_stages dt s10, g') /\
    let s' := player_stages dt s10 in
    let dying := filter dead (Game.enemies s9) in
    Forall (fun e => Enemy.hp e <= 0) dying /\
    Game.enemies s' = filter (fun e => negb (dead e)) (Game.enemies s9) /\
    Forall (fun e => 0 < Enemy.hp e) (Game.enemies s') /\
    Forall (fun e => ~ In e (Game.enemies s')) dying /\
    Game.score s' = (Game.score s + Z.of_nat (length dying))%Z /\
    exists blocks,
      Forall2 death_block dying blocks /\
      Game.shards s10 = Game.shards s9 ++ concat blocks.
Proof.
  destruct (update_runs dt mx my shoot boost shield s g)
    as (s8 & g8 & s10 & g' & H8 & H9 & Hr & H10 & H).
  exists (Game.bullets_vs_enemies s8), g8, s10, g'.
  split; [exact H9|]. split; [exact Hr|]. split; [exact H|]. cbv zeta.
  destruct (player_stages_fields dt s10) as (_ & _ & _ & _ & _ & _ & Een & Esc & _).
  rewrite Een, Esc.
  apply resolve_dead_shape in Hr. destruct Hr as (blocks & Hb & ->).
  apply update_to_kinematics_shape in H8. cbv zeta in H8.
  destruct H8 as (st & fired & moved & t & _ & _ & ->).
  rewrite bullets_vs_enemies_shape in *. gsimpl.
  set (es9 := snd (Game.bullets_loop _ _)) in *.
  assert (Hdead : Forall (fun e => Enemy.hp e <= 0) (filter dead es9)).
  { eapply Forall_impl; [|apply Forall_filter_test].
    intros e He. now apply Qle_bool_iff. }
  assert (Halive : Forall (fun e => 0 < Enemy.hp e)
                     (filter (fun e => negb (dead e)) es9)).
  { eapply Forall_impl; [|apply Forall_filter_test].
    intros e He. apply negb_true_iff in He. unfold dead in He.
    apply Qnot_le_lt. intros Hle. apply Qle_bool_iff in Hle. congruence. }
  split; [exact Hdead|]. split; [reflexivity|]. split; [exact Halive|].
  split; [|split; [reflexivity|now exists blocks]].
  rewrite Forall_forall in *. intros e He Hin.
  specialize (Hdead e He). specialize (Halive e Hin). lra.
Qed.

(** ** Player projectiles vs enemies *)

End Collisions.

(** ** Projectile culling *)





Section Culling.
Context {G : Type} {RS : RandomSource G} {ML : MathLib}.

End Culling.

(** * Runs of the model *)

Lemma demo_run_reachable (n : nat) :
  match demo_run n with
  | Some (s, _) => reachable (ML:=test_math) s
  | None => False
  end.
Proof.
  induction n as [|n IH]; cbn [demo_run].
  - destruct (total_init 800 600 demo_tape) as [[s g] H]. rewrite H.
    eapply reach_init; eauto.
  - destruct (demo_run n) as [[s g]|]; [|contradiction].
    destruct (total_update (ML:=test_math) 1 0 0 false false false s g)
      as [[s' g'] H].
    unfold demo_update. rewrite H.
    eapply (reach_update 1 0 0 false false false s g); eauto; lra.
Qed.

(** Frame 3 of the run: the shot overlaps the player, who loses 12 energy;
    the shot is gone and the one the enemy fires in this frame is there. *)
Example demo_frame_3 :
  match demo_run 2, demo_run 3 with
  | Some (s, _), Some (s', _) =>
      Game.energy s == 60 /\ Game.energy s' == 48 /\
      map Laser.x (Game.ebullets s') = [474] /\
      Game.shield_active s' = false
  | _, _ => False
  end.
Proof. vm_compute. repeat split. Qed.

Lemma energy_bounds_witness :
  match demo_run 2 with
  | Some (s, g) =>
      reachable (ML:=test_math) s /\
      0 < 1 /\ -1 <= 0 <= 1 /\ -1 <= 0 <= 1 /\
      exists s' g',
        Game.update (ML:=test_math) 1 0 0 false false false s g
          = Some (s', g') /\
        0 <= Game.energy s' <= Game.energy_max s' /\
        0 <= Game.energy (Game.energy_drains 1 false false s) /\
        (forall e, 0 <= hit_damage e) /\
        (forall e v, py_min (Game.energy_max s) (e + v) <= Game.energy_max s)
  | None => False
  end.
Proof.
  pose proof (demo_run_reachable 2) as Hr.
  destruct (demo_run 2) as [[s g]|]; [|exact Hr].
  assert (H1 : 0 < 1) by reflexivity.
  assert (H2 : -1 <= 0 <= 1) by (split; discriminate).
  split; [exact Hr|]. split; [exact H1|]. split; [exact H2|].
  split; [exact H2|].
  exact (energy_bounds 1 0 0 false false false s g Hr H1 H2 H2).
Defined.

Lemma hostile_projectiles_vs_player_witness :
  match demo_run 2 with
  | Some (s, g) =>
      reachable (ML:=test_math) s /\
      exists s10 g',
        Game.update_to_player_hits (ML:=test_math) 1 0 0 false false false s g
          = Some (s10, g') /\
        Game.update (ML:=test_math) 1 0 0 false false false s g
          = Some (player_stages 1 s10, g') /\
        Game.ebullets (Game.ebullets_vs_player (Game.player_rect s10) s10) =
          filter (fun b => negb (overlaps (Game.player_rect s10) b))
            (Game.ebullets s10) /\
        Game.energy (Game.ebullets_vs_player (Game.player_rect s10) s10) =
          (if Game.shield_active s10 then Game.energy s10
           else Nat.iter
                  (length (filter (overlaps (Game.player_rect s10))
                             (Game.ebullets s10)))
                  hit_damage (Game.energy s10))
  | None => False
  end.
Proof.
  pose proof (demo_run_reachable 2) as Hr.
  destruct (demo_run 2) as [[s g]|]; [|exact Hr].
  split; [exact Hr|].
  destruct (hostile_projectiles_vs_player 1 0 0 false false false s g Hr)
    as (s10 & g' & H10 & H & _ & _ & E1 & _ & E2 & _).
  exists s10, g'. repeat split; assumption.
Defined.


(** C2, as stated, fails.  Construction puts the player at 18% of the
    width: on a 100 x 100 playfield that is x = 18, left of the inset margin
    20.  On a 30 x 30 playfield the clamp of [update] itself returns x = 20,
    right of the upper bound 30 - 20 = 10. *)
Lemma position_clamp_fails_on_small_playfield :
  (exists s g',
      Game.init 100 100 (@nil Z) = Some (s, g') /\
      Game.px s == 18 /\ ~ in_field s) /\
  (exists s s' g g',
      Game.init 30 30 (@nil Z) = Some (s, g) /\
      Game.update (ML:=test_math) (1 # 60) 0 0 false false false s g
        = Some (s', g') /\
      Game.px s' == 20 /\ inject_Z (Game.w s' - 20) == 10 /\ ~ in_field s').
Proof.
  split.
  - eexists. eexists. split; [vm_compute; reflexivity|].
    split; [reflexivity|]. intros [[H _] _]. revert H. vm_compute.
    intros H. now apply H.
  - eexists. eexists. eexists. eexists. split; [vm_compute; reflexivity|].
    split; [vm_compute; reflexivity|].
    split; [reflexivity|]. split; [reflexivity|].
    intros [[_ H] _]. revert H. vm_compute. intros H. now apply H.
Qed.

Lemma position_clamp_witness :
  match Game.init 800 600 (@nil Z) with
  | Some (s, g) =>
      in_field s /\
      match Game.update (ML:=test_math) (1 # 60) 1 (-1) true true true s g with
      | Some (s', _) => in_field s'
      | None => False
      end
  | None => False
  end.
Proof.
  destruct (Game.init 800 600 []) as [[s g]|] eqn:E;
    [|vm_compute in E; discriminate].
  assert (F : frame_of (ML:=test_math) 800 600 s) by (left; now exists [], g).
  split; [apply (position_clamp (ML:=test_math) 800 600 s); [lia|lia|exact F]|].
  destruct (Game.update _ _ _ _ _ _ s g) as [[s' g']|] eqn:E';
    [|destruct (total_update (ML:=test_math) (1 # 60) 1 (-1) true true true s g)
        as [r Hr]; congruence].
  apply (position_clamp (ML:=test_math) 800 600 s'); [lia|lia|].
  right. apply init_shape in E. destruct E as (st & _ & ->).
  exists (1 # 60), 1, (-1), true, true, true. do 2 eexists. exists g'.
  split; [|split; [|exact E']]; reflexivity.
Defined.

(** ** Scenarios of the specification, run on the model *)

(** Shield absorption: the projectile is removed and only the drain of
    28/60 is taken. *)
Example shield_absorbs_hit :
  match frame true (arena 60 [] [incoming] [] []) with
  | Some (s', _) =>
      Game.shield_active s' = true /\ Game.ebullets s' = [] /\
      Game.energy s' == 60 - 28 * (1 # 60)
  | None => False
  end.
Proof. vm_compute. repeat split. Qed.

(** No-shield damage: the projectile is removed and takes 12. *)
Example unshielded_hit_takes_12 :
  match frame false (arena 60 [] [incoming] [] []) with
  | Some (s', _) =>
      Game.shield_active s' = false /\ Game.ebullets s' = [] /\
      Game.energy s' == 48
  | None => False
  end.
Proof. vm_compute. repeat split. Qed.

(** A shield requested with energy 0 stays off; the projectile is consumed
    and the damage is floored at 0. *)
Example no_energy_no_shield :
  match frame true (arena 0 [] [incoming] [] []) with
  | Some (s', _) =>
      Game.shield_active s' = false /\ Game.ebullets s' = [] /\
      Game.energy s' == 0
  | None => False
  end.
Proof. vm_compute. repeat split. Qed.

(** A shield switched on with energy 1/10 is drained to 0 before the
    player-hit stage and still absorbs the projectile. *)
Example shield_outlasts_energy :
  match frame true (arena (1 # 10) [] [incoming] [] []) with
  | Some (s', _) =>
      Game.shield_active s' = true /\ Game.ebullets s' = [] /\
      Game.energy s' == 0 /\
      Game.energy (Game.energy_drains (1 # 60) false true
                     (arena (1 # 10) [] [incoming] [] [])) == 0
  | None => False
  end.
Proof. vm_compute. repeat split. Qed.

(** Single-hit rule: a projectile inside two asteroids damages the first
    one only and is removed. *)
Example one_projectile_one_enemy :
  match frame false (arena 60 [Laser.new 400 300 520 0 YELLOW true] []
                       [rock 410 3; rock 412 3] []) with
  | Some (s', _) =>
      Game.bullets s' = [] /\
      Forall2 (fun e hp => Enemy.hp e == hp) (Game.enemies s') [2; 3]
  | None => False
  end.
Proof. vm_compute. repeat constructor. Qed.

(** Enemy death: an asteroid on its last hitpoint is hit, leaves the
    enemies, scores 1 and leaves 2 shards (the tape draws the minimum). *)
Example last_hitpoint :
  match frame false (arena 60 [Laser.new 400 300 520 0 YELLOW true] []
                       [rock 410 1] []) with
  | Some (s', _) =>
      Game.bullets s' = [] /\ Game.enemies s' = [] /\
      Game.score s' = 1%Z /\ length (Game.shards s') = 2%nat
  | None => False
  end.
Proof. vm_compute. repeat split. Qed.

(** Shard collection: a shard of value 10 on the player takes the energy
    from 50 to 60 and is removed. *)
Example shard_collected :
  match frame false (arena 50 [] [] [] [Shard.mk 144 300 0 0 6 10]) with
  | Some (s', _) => Game.shards s' = [] /\ Game.energy s' == 60
  | None => False
  end.
Proof. vm_compute. repeat split. Qed.

(** Projectile culling: of two friendly projectiles at x = 900 and x = 850,
    the step keeps the second. *)
Example culling_at_the_right_edge :
  match frame false (arena 60 [Laser.new 900 300 520 0 YELLOW true;
                               Laser.new 850 300 520 0 YELLOW true] [] [] []) with
  | Some (s', _) =>
      Forall2 (fun b x => Laser.x b == x) (Game.bullets s')
        [850 + 520 * (1 # 60)]
  | None => False
  end.
Proof. vm_compute. repeat constructor. Qed.

(** * Further properties of [game.py] *)

(** ** Shooting *)

Lemma py_max_0_le_0 (c : Q) : py_max 0 c <= 0 <-> c <= 0.
Proof.
  unfold py_max. destruct (Qltb 0 c) eqn:E.
  - apply Qltb_lt in E. split; lra.
  - apply Qltb_ge in E. split; lra.
Qed.

Lemma shooting_cases dt shoot s :
  (shoot = true /\ Game.shoot_cd s <= dt /\
   Game.shooting dt shoot s =
     Game.set_shoot_cd 0.18
       (Game._fire_player
          (Game.set_shoot_cd (py_max 0 (Game.shoot_cd s - dt)) s))) \/
  ((shoot = false \/ dt < Game.shoot_cd s) /\
   Game.shooting dt shoot s =
     Game.set_shoot_cd (py_max 0 (Game.shoot_cd s - dt)) s).
Proof.
  unfold Game.shooting.
  change (Game.shoot_cd
            (Game.set_shoot_cd (py_max 0 (Game.shoot_cd s - dt)) s))
    with (py_max 0 (Game.shoot_cd s - dt)).
  destruct shoot; cbn [andb]; [|right; split; [now left|reflexivity]].
  destruct (Qle_bool (py_max 0 (Game.shoot_cd s - dt)) 0) eqn:E.
  - left. apply Qle_bool_iff in E. apply -> py_max_0_le_0 in E.
    split; [reflexivity|]. split; [lra|reflexivity].
  - right. split; [|reflexivity]. right.
    apply Qnot_le_lt. intros H. apply not_true_iff_false in E. apply E.
    apply Qle_bool_iff. apply <- py_max_0_le_0. lra.
Qed.

Section Shooting.
Context {G : Type} {RS : RandomSource G} {ML : MathLib}.

(** The shooting stage, seen from the states of one call. *)
Lemma shooting_stage dt mx my shoot boost shield s (g : G) :
  exists s8 g8 s' g' shot,
    Game.update_to_kinematics dt mx my shoot boost shield s g
      = Some (s8, g8) /\
    Game.update dt mx my shoot boost shield s g = Some (s', g') /\
    Game.bullets s8 =
      filter (Game.keep_bullet (Game.w s) (Game.h s))
        (map (Laser.update dt) (Game.bullets s ++ shot)) /\
    Game.bullets s' =
      filter (fun b => negb (existsb (Game.hits b) (Game.enemies s8)))
        (Game.bullets s8) /\
    (length (Game.bullets s') <= length (Game.bullets s) + 1)%nat /\
    0 <= Game.shoot_cd s' /\
    ((shoot = true /\ Game.shoot_cd s <= dt /\
      shot = [player_shot s'] /\ Game.shoot_cd s' = 0.18) \/
     ((shoot = false \/ dt < Game.shoot_cd s) /\
      shot = [] /\
      Game.shoot_cd s' = py_max 0 (Game.shoot_cd s - dt))).
Proof.
  destruct (update_runs dt mx my shoot boost shield s g)
    as (s8 & g8 & s10 & g' & H8 & _ & _ & _ & H).
  pose proof H as K. apply update_shape in K. cbv zeta in K.
  destruct K as (st & fired & moved & t & blocks & _ & _ & _ & Es').
  pose proof H8 as K8. apply update_to_kinematics_shape in K8. cbv zeta in K8.
  destruct K8 as (st8 & fired8 & moved8 & t8 & _ & _ & Es8).
  set (s2 := Game.movement dt mx my (Game.energy_drains dt boost shield s)) in *.
  assert (Ebs : Game.bullets s2 = Game.bullets s) by reflexivity.
  assert (Ecd : Game.shoot_cd s2 = Game.shoot_cd s) by reflexivity.
  assert (E8 : Game.bullets s8 =
               filter (Game.keep_bullet (Game.w s) (Game.h s))
                 (map (Laser.update dt) (Game.bullets (Game.shooting dt shoot s2))))
    by (rewrite Es8; reflexivity).
  assert (En8 : Game.enemies s8 = filter (Game.keep_enemy (Game.h s)) moved8)
    by (rewrite Es8; reflexivity).
  assert (Eb' : Game.bullets (player_stages dt s10) =
                filter (fun b => negb (existsb (Game.hits b) (Game.enemies s8)))
                  (Game.bullets s8)).
  { destruct (update_split dt mx my shoot boost shield s g
                (player_stages dt s10) g') as [Hs _].
    destruct (Hs H) as (s8' & g8' & s10' & H8' & _ & Hr & _ & E10).
    assert (s8' = s8) by congruence. subst s8'.
    destruct (player_stages_fields dt s10')
      as (_ & _ & _ & _ & _ & _ & _ & _ & Eb).
    cbv zeta in Eb. rewrite E10, Eb.
    apply resolve_dead_shape in Hr. destruct Hr as (bl & _ & ->).
    rewrite bullets_vs_enemies_shape. gsimpl.
    apply bullets_loop_remaining. }
  assert (Ecd' : Game.shoot_cd (player_stages dt s10) =
                 Game.shoot_cd (Game.shooting dt shoot s2))
    by (rewrite Es'; reflexivity).
  assert (Epx : Game.px (player_stages dt s10) = Game.px s2)
    by (rewrite Es'; reflexivity).
  assert (Epy : Game.py (player_stages dt s10) = Game.py s2)
    by (rewrite Es'; reflexivity).
  assert (Hshot : exists shot,
             Game.bullets (Game.shooting dt shoot s2) = Game.bullets s ++ shot /\
             0 <= Game.shoot_cd (Game.shooting dt shoot s2) /\
             ((shoot = true /\ Game.shoot_cd s <= dt /\
               shot = [player_shot (player_stages dt s10)] /\
               Game.shoot_cd (Game.shooting dt shoot s2) = 0.18) \/
              ((shoot = false \/ dt < Game.shoot_cd s) /\ shot = [] /\
               Game.shoot_cd (Game.shooting dt shoot s2) =
                 py_max 0 (Game.shoot_cd s - dt)))).
  { unfold player_shot. rewrite Epx, Epy.
    destruct (shooting_cases dt shoot s2) as [(Hs & Hc & ->)|(Hc & ->)];
      rewrite Ecd in *.
    - eexists. split; [unfold Game._fire_player; gsimpl; rewrite Ebs; reflexivity|].
      gsimpl. split; [discriminate|]. left. now repeat split.
    - exists []. rewrite app_nil_r. split; [exact Ebs|]. gsimpl.
      split; [apply py_max_l|]. right. now repeat split. }
  destruct Hshot as (shot & Hb & Hcd & Hcase).
  exists s8, g8, (player_stages dt s10), g', shot.
  split; [exact H8|]. split; [exact H|].
  rewrite <- Hb, Ecd'. split; [exact E8|]. split; [exact Eb'|].
  split; [|split; [exact Hcd|exact Hcase]].
  rewrite Eb', E8, Hb.
  eapply Nat.le_trans; [apply filter_length_le|].
  eapply Nat.le_trans; [apply filter_length_le|].
  rewrite length_map, length_app.
  destruct Hcase as [(_ & _ & -> & _)|(_ & -> & _)]; cbn [length]; lia.
Qed.

(** X1.  [update] fires at most one shot per call: exactly when a shot is
    requested and the cooldown is no longer than the elapsed time.  The shot
    leaves from 18 px right of the moved player at 520 px/s, and the
    cooldown is then 0.18 s; otherwise the cooldown goes down by the elapsed
    time, floored at 0.  The friendly projectiles grow by at most one. *)
Theorem fire_control dt mx my shoot boost shield s (g : G) :
  exists s8 g8 s' g' shot,
    Game.update_to_kinematics dt mx my shoot boost shield s g
      = Some (s8, g8) /\
    Game.update dt mx my shoot boost shield s g = Some (s', g') /\
    Game.bullets s8 =
      filter (Game.keep_bullet (Game.w s) (Game.h s))
        (map (Laser.update dt) (Game.bullets s ++ shot)) /\
    Game.bullets s' =
      filter (fun b => negb (existsb (Game.hits b) (Game.enemies s8)))
        (Game.bullets s8) /\
    (length (Game.bullets s') <= length (Game.bullets s) + 1)%nat /\
    0 <= Game.shoot_cd s' /\
    ((shoot = true /\ Game.shoot_cd s <= dt /\
      shot = [player_shot s'] /\ Game.shoot_cd s' = 0.18) \/
     ((shoot = false \/ dt < Game.shoot_cd s) /\
      shot = [] /\
      Game.shoot_cd s' = py_max 0 (Game.shoot_cd s - dt))).
Proof. apply shooting_stage. Qed.

(** X2.  No two shots are closer than the cooldown: in the call after one
    that fired, with less than 0.18 s elapsed, no shot is fired, whatever is
    requested. *)
Theorem no_shot_during_cooldown dt mx my boost shield s (g : G)
  dt2 mx2 my2 shoot2 boost2 shield2 :
  Game.shoot_cd s <= dt -> dt2 < 0.18 ->
  exists s8 g8 s' g' t8 h8,
    Game.update_to_kinematics dt mx my true boost shield s g = Some (s8, g8) /\
    Game.update dt mx my true boost shield s g = Some (s', g') /\
    Game.bullets s8 =
      filter (Game.keep_bullet (Game.w s) (Game.h s))
        (map (Laser.update dt) (Game.bullets s ++ [player_shot s'])) /\
    Game.update_to_kinematics dt2 mx2 my2 shoot2 boost2 shield2 s' g'
      = Some (t8, h8) /\
    Game.bullets t8 =
      filter (Game.keep_bullet (Game.w s') (Game.h s'))
        (map (Laser.update dt2) (Game.bullets s')).
Proof.
  intros Hcd Hdt2.
  destruct (shooting_stage dt mx my true boost shield s g)
    as (s8 & g8 & s' & g' & shot & H8 & H & Eb8 & _ & _ & _ & Hcase).
  destruct Hcase as [(_ & _ & -> & Ecd)|([Hf|Hlt] & _)];
    [|discriminate|lra].
  destruct (shooting_stage dt2 mx2 my2 shoot2 boost2 shield2 s' g')
    as (t8 & h8 & t' & h' & shot2 & K8 & _ & Eb2 & _ & _ & _ & Hcase2).
  exists s8, g8, s', g', t8, h8.
  split; [exact H8|]. split; [exact H|]. split; [exact Eb8|].
  split; [exact K8|].
  destruct Hcase2 as [(_ & Hc & _)|(_ & -> & _)].
  - rewrite Ecd in Hc. lra.
  - now rewrite app_nil_r in Eb2.
Qed.
End Shooting.

(** ** Stars *)

Section Stars.
Context {G : Type} {RS : RandomSource G} {ML : MathLib}.

Lemma forM_Forall2 {A B} (R : A -> B -> Prop) (f : A -> M G B) l (g : G) l' g' :
  (forall a g b g1, f a g = Some (b, g1) -> R a b) ->
  Game.forM f l g = Some (l', g') -> Forall2 R l l'.
Proof.
  intros Hf. revert g l'. induction l as [|a l IH]; intros g l' H;
    cbn [Game.forM] in H.
  - apply ret_Some in H. inversion H. constructor.
  - apply bind_Some in H. destruct H as (b & g1 & Hb & H).
    apply bind_Some in H. destruct H as (tl' & g2 & Htl & H).
    apply ret_Some in H. inversion H; subst.
    constructor; eauto.
Qed.

Lemma move_star_spec dt move_dx width height s (g : G) s' g' :
  (0 <= height)%Z ->
  Game.move_star dt (py_max 0 move_dx * 60) width height s g = Some (s', g') ->
  star_moved dt move_dx width height s s'.
Proof.
  intros Hh. unfold Game.move_star, star_moved. cbv zeta.
  set (x := Star.x s - _).
  destruct (Qltb x (-2)) eqn:E; intros H.
  - apply Qltb_lt in E.
    apply bind_Some in H. destruct H as (u & g1 & Hu & H).
    apply bind_Some in H. destruct H as (y & g2 & Hy & H).
    apply ret_Some in H. inversion H; subst. apply draw_Some in Hu, Hy.
    pose proof (uniform_range 0 60 g ltac:(lra)) as Ru.
    assert (Hh' : 0 <= inject_Z height)
      by (change 0 with (inject_Z 0); now rewrite <- Zle_Qle).
    pose proof (uniform_range 0 (inject_Z height) g1 Hh') as Ry.
    rewrite <- Hu in Ru. rewrite <- Hy in Ry. cbn [fst] in Ru, Ry.
    cbn [Star.layer Star.x Star.y]. split; [reflexivity|]. right.
    split; [exact E|]. split; [lra|exact Ry].
  - apply Qltb_ge in E. apply ret_Some in H. inversion H; subst.
    cbn [Star.layer Star.x Star.y]. split; [reflexivity|]. left.
    split; [lra|]. now split.
Qed.

(** The stars, the spawn timer and the enemies after the kinematics stay as
    they are to the end of [update], but for the hits and the deaths. *)
Lemma after_kinematics_fields dt s8 (g8 : G) s10 g' :
  Game.resolve_dead (Game.bullets_vs_enemies s8) g8 = Some (s10, g') ->
  Game.stars (player_stages dt s10) = Game.stars s8 /\
  Game.spawn_t (player_stages dt s10) = Game.spawn_t s8 /\
  Game.enemies (player_stages dt s10) =
    filter (fun e => negb (dead e))
      (snd (Game.bullets_loop (Game.bullets s8) (Game.enemies s8))).
Proof.
  intros Hr. apply resolve_dead_shape in Hr. destruct Hr as (blocks & _ & ->).
  unfold player_stages.
  rewrite shards_collect_shape, ebullets_vs_player_shape.
  rewrite bullets_vs_enemies_shape. gsimpl. now repeat split.
Qed.

Lemma update_stars dt mx my shoot boost shield s (g : G) s' g' :
  Game.update dt mx my shoot boost shield s g = Some (s', g') ->
  exists g4,
    Game.forM (Game.move_star dt (py_max 0 mx * 60) (Game.w s) (Game.h s))
      (Game.stars s) g = Some (Game.stars s', g4).
Proof.
  intros H. apply update_split in H.
  destruct H as (s8 & g8 & s10 & H8 & _ & Hr & _ & ->).
  destruct (after_kinematics_fields dt s8 g8 s10 g' Hr) as (Est & _).
  unfold Game.update_to_kinematics in H8.
  apply bind_Some in H8. destruct H8 as (s4 & g4 & H4 & H8).
  apply bind_Some in H8. destruct H8 as (s6 & g6 & H6 & H8).
  apply bind_Some in H8. destruct H8 as (s7 & g7 & H7 & H8).
  apply ret_Some in H8. injection H8 as E8 _.
  apply spawn_shape in H6. destruct H6 as (new & t6 & E6).
  apply update_enemies_shape in H7. destruct H7 as (es & f7 & E7 & _ & _).
  unfold Game.move_stars in H4.
  apply bind_Some in H4. destruct H4 as (st4 & g4' & Hst & H4).
  apply ret_Some in H4. injection H4 as E4 Eg4. subst g4'.
  assert (E : Game.stars s8 = st4)
    by (rewrite E8, E7, E6, E4; reflexivity).
  pose proof (prefix_fields dt mx my shoot boost shield s) as HF.
  cbv zeta in HF.
  destruct HF as (Hw & Hh & _ & _ & _ & _ & _ & _ & _ & _ & _ & Hstars & _).
  rewrite Hw, Hh, Hstars in Hst. exists g4. now rewrite Est, E.
Qed.

(** X3.  The parallax loop of [update] keeps every star and its layer, in
    order.  A star drifts left by [(35 + 60 * max(0, move_dx)) * layer * dt]
    and keeps its height; one that would end left of -2 comes back between
    the right edge and 60 px past it, at a height inside the playfield.  So
    no star is left of -2 after a call. *)
Theorem stars_parallax dt mx my shoot boost shield s (g : G) :
  (0 <= Game.w s)%Z -> (0 <= Game.h s)%Z ->
  exists s' g',
    Game.update dt mx my shoot boost shield s g = Some (s', g') /\
    Forall2 (star_moved dt mx (Game.w s) (Game.h s))
      (Game.stars s) (Game.stars s') /\
    map Star.layer (Game.stars s') = map Star.layer (Game.stars s) /\
    Forall (fun st => -2 <= Star.x st) (Game.stars s').
Proof.
  intros Hw Hh. apply update_returns. intros s' g' H.
  apply update_stars in H. destruct H as (g4 & H).
  assert (F : Forall2 (star_moved dt mx (Game.w s) (Game.h s))
                (Game.stars s) (Game.stars s')).
  { eapply forM_Forall2; [|exact H].
    intros a g0 b g1. now apply move_star_spec. }
  assert (Hw' : 0 <= inject_Z (Game.w s))
    by (change 0 with (inject_Z 0); now rewrite <- Zle_Qle).
  split; [exact F|]. clear H. induction F as [|a b l l' Hab _ IH].
  - split; [reflexivity|constructor].
  - destruct IH as [IH1 IH2]. cbn [map]. split.
    + f_equal; [apply Hab|exact IH1].
    + constructor; [|exact IH2].
      destruct Hab as (_ & [(Hx & -> & _)|(_ & Hx & _)]).
      * now apply Qnot_lt_le.
      * lra.
Qed.
End Stars.

(** ** Spawning *)

Section Spawning.
Context {G : Type} {RS : RandomSource G} {ML : MathLib}.

Lemma choices_kind_Some (g : G) k g' :
  Game.choices_kind g = Some (k, g') -> g' = snd (rs_random g).
Proof.
  unfold Game.choices_kind. intros H.
  apply bind_Some in H. destruct H as (u & g1 & Hu & H).
  apply draw_Some in Hu. apply ret_Some in H. inversion H; subst.
  now rewrite <- Hu.
Qed.

Lemma spawn_enemy_ok self (g : G) :
  (80 <= Game.h self)%Z ->
  exists e g',
    Game._spawn_enemy self g
      = Some (Game.set_enemies (Game.enemies self ++ [e]) self, g') /\
    spawned_ok (Game.w self) (Game.h self) e.
Proof.
  intros Hh.
  assert (Hy0 : 40 <= inject_Z (Game.h self - 40))
    by (change 40 with (inject_Z 40); rewrite <- Zle_Qle; lia).
  unfold Game._spawn_enemy, bind. unfold draw at 1.
  pose proof (uniform_range 40 (inject_Z (Game.h self - 40)) g Hy0) as Hy.
  destruct (uniform 40 (inject_Z (Game.h self - 40)) g) as [y g1].
  cbn [fst] in Hy.
  destruct (Game.choices_kind g1) as [[k g2]|] eqn:Ek.
  2:{ unfold Game.choices_kind, bind, draw, ret in Ek.
      destruct (rs_random g1); discriminate. }
  assert (Hy' : 40 <= y <= inject_Z (Game.h self - 40)) by exact Hy.
  destruct k.
  - unfold draw, ret.
    pose proof (randint_range 12 28 g2 ltac:(lia)) as Hr.
    destruct (randint 12 28 g2) as [r g3]. cbn [fst] in Hr.
    pose proof (uniform_range 80 160 g3 ltac:(lra)) as Hs.
    destruct (uniform 80 160 g3) as [sp g4]. cbn [fst] in Hs.
    eexists. eexists. split; [reflexivity|].
    assert (Hr' : 12 <= inject_Z r <= 28).
    { change 12 with (inject_Z 12). change 28 with (inject_Z 28).
      rewrite <- !Zle_Qle. lia. }
    unfold spawned_ok.
    cbn [Enemy.kind Enemy.x Enemy.y Enemy.vx Enemy.vy Enemy.hp Enemy.t_
         Enemy.data].
    split; [exact Hy'|]. do 2 (split; [reflexivity|]).
    split; [lra|].
    split; [unfold Qdiv; change (/ 10) with (1 # 10); lra|].
    split; [reflexivity|]. split; [lra|].
    exists r. split; [lia|]. split; reflexivity.
  - unfold ret. eexists. eexists. split; [reflexivity|].
    unfold spawned_ok.
    cbn [Enemy.kind Enemy.x Enemy.y Enemy.vx Enemy.vy Enemy.hp Enemy.t_
         Enemy.data].
    split; [exact Hy'|]. do 2 (split; [reflexivity|]).
    split; [reflexivity|]. split; [reflexivity|]. now repeat split.
  - unfold draw, ret.
    pose proof (uniform_range 0.6 1.5 g2 ltac:(lra)) as Hc.
    destruct (uniform 0.6 1.5 g2) as [cd g3]. cbn [fst] in Hc.
    eexists. eexists. split; [reflexivity|].
    unfold spawned_ok.
    cbn [Enemy.kind Enemy.x Enemy.y Enemy.vx Enemy.vy Enemy.hp Enemy.t_
         Enemy.data].
    split; [exact Hy'|]. do 2 (split; [reflexivity|]).
    split; [reflexivity|]. split; [reflexivity|].
    do 3 (split; [reflexivity|]).
    exists cd. split; [exact Hc|reflexivity].
  - unfold draw, ret.
    pose proof (uniform_range 0 tau g2 ltac:(unfold tau; lra)) as Hp.
    destruct (uniform 0 tau g2) as [ph g3]. cbn [fst] in Hp.
    eexists. eexists. split; [reflexivity|].
    unfold spawned_ok.
    cbn [Enemy.kind Enemy.x Enemy.y Enemy.vx Enemy.vy Enemy.hp Enemy.t_
         Enemy.data].
    split; [exact Hy'|]. do 2 (split; [reflexivity|]).
    split; [reflexivity|]. split; [reflexivity|].
    do 3 (split; [reflexivity|]).
    exists ph. split; [exact Hp|reflexivity].
Qed.

(** X4.  On a playfield at least 80 high, [_spawn_enemy] appends exactly one
    enemy and changes nothing else.  The enemy stands off the right edge at
    a height in [40, h - 40], moves left, and has the hitpoints of its
    kind: 1 + r/10 for an asteroid of radius r in [12, 28], 3 for a blob, 4
    for a red enemy, 6 for a snake, whose 8 segments trail 16 px apart. *)
Theorem spawn_enemy_spec self (g : G) :
  (80 <= Game.h self)%Z ->
  exists e g',
    Game._spawn_enemy self g
      = Some (Game.set_enemies (Game.enemies self ++ [e]) self, g') /\
    spawned_ok (Game.w self) (Game.h self) e.
Proof. apply spawn_enemy_ok. Qed.
End Spawning.

(** ** Enemy kinematics *)

Section Kinematics.
Context {G : Type} {RS : RandomSource G} {ML : MathLib}.

Lemma chase_length dt prev rest r :
  Game.chase dt prev rest = Some r -> length r = length rest.
Proof.
  revert prev r. induction rest as [|[cx cy] tl IH]; intros [px py] r;
    cbn [Game.chase].
  - now intros [= <-].
  - destruct (fdiv _ _); [|discriminate]. destruct (fdiv _ _); [|discriminate].
    destruct (Game.chase dt _ tl) eqn:E; [|discriminate].
    intros [= <-]. cbn [length]. f_equal. eapply IH; eauto.
Qed.

Lemma update_enemy_spec dt e self (g : G) e' self' g' :
  Game.update_enemy dt e self g = Some (e', self', g') ->
  enemy_stepped dt (Game.h self) e e'.
Proof.
  unfold Game.update_enemy, enemy_stepped.
  change (Enemy.kind (Game.set_t (Enemy.t_ e + dt) e)) with (Enemy.kind e).
  destruct (Enemy.kind e) eqn:Hk; intros H.
  - apply ret_Some in H. inversion H; subst.
    destruct e; cbn in *. now repeat split.
  - apply bind_Some in H. destruct H as (e1 & g1 & Hb & H).
    apply ret_Some in H. inversion H; subst.
    unfold Game.update_blob in Hb.
    apply bind_Some in Hb. destruct Hb as (u & g2 & _ & Hb).
    apply bind_Some in Hb. destruct Hb as (e2 & g3 & He2 & Hb).
    apply ret_Some in Hb. inversion Hb; subst; clear Hb.
    assert (E2 : exists vy, e2 = Game.set_vy vy
                   (Game.set_xy (Enemy.x e + Enemy.vx e * dt) (Enemy.y e)
                      (Game.set_t (Enemy.t_ e + dt) e))).
    { destruct (Qltb u 0.1).
      - apply bind_Some in He2. destruct He2 as (k & g4 & _ & He2).
        apply ret_Some in He2. inversion He2. now eexists.
      - apply ret_Some in He2. inversion He2. eexists.
        destruct e; reflexivity. }
    destruct E2 as (vy & ->). destruct e; cbn in *.
    repeat split; try assumption. now eexists.
  - unfold Game.update_red in H.
    match type of H with context [if ?c then _ else _] => destruct c eqn:Ec end.
    + apply bind_Some in H. destruct H as (bvx & g1 & _ & H).
      apply bind_Some in H. destruct H as (bvy & g2 & _ & H).
      apply bind_Some in H. destruct H as (cd & g3 & Hcd & H).
      apply ret_Some in H. inversion H; subst; clear H.
      apply draw_Some in Hcd.
      pose proof (uniform_range 1.0 1.8 g2 ltac:(lra)) as Hr.
      rewrite <- Hcd in Hr. cbn [fst] in Hr.
      destruct e; cbn in *. repeat split; try assumption.
      exists cd. split; [reflexivity|lra].
    + apply ret_Some in H. inversion H; subst; clear H.
      destruct e; cbn in *. repeat split; try assumption.
      eexists. split; [reflexivity|apply py_max_l].
  - apply bind_Some in H. destruct H as (e1 & g1 & Hs & H).
    apply ret_Some in H. inversion H; subst; clear H.
    unfold Game.update_snake in Hs.
    destruct e as [k x y vx vy hp t [r cd segs ph]]. cbn in Hk. subst k.
    cbn in Hs |- *.
    destruct segs as [[|s0 tl]|]; cbn in Hs |- *.
    + apply ret_Some in Hs. inversion Hs; subst. cbn. now repeat split.
    + apply bind_Some in Hs. destruct Hs as (tl' & g2 & Hc & Hs).
      apply ret_Some in Hs. inversion Hs; subst; clear Hs. cbn.
      unfold lift_opt in Hc.
      destruct (Game.chase dt _ tl) as [r0|] eqn:Ec; [|discriminate].
      inversion Hc; subst. apply chase_length in Ec.
      repeat split. exists tl'. now split.
    + apply ret_Some in Hs. inversion Hs; subst. cbn. now repeat split.
Qed.

Lemma update_enemies_loop_spec dt es self (g : G) es' self' g' :
  Game.update_enemies_loop dt es self g = Some (es', self', g') ->
  Forall2 (enemy_stepped dt (Game.h self)) es es'.
Proof.
  revert self g es' self'. induction es as [|e tl IH]; intros self g es' self' H;
    cbn [Game.update_enemies_loop] in H.
  - apply ret_Some in H. inversion H. constructor.
  - apply bind_Some in H. destruct H as ([e1 s1] & g1 & He & H).
    apply bind_Some in H. destruct H as ([tl1 s2] & g2 & Htl & H).
    apply ret_Some in H. inversion H; subst; clear H.
    constructor; [eapply update_enemy_spec; eauto|].
    apply update_enemy_shape in He. destruct He as (f & -> & _).
    apply IH in Htl. exact Htl.
Qed.
End Kinematics.

(** ** The enemies through one call of [update] *)

Lemma hp_lowered_refl e : hp_lowered e e.
Proof. split; [now destruct e|apply Qle_refl]. Qed.

Lemma hp_lowered_trans e1 e2 e3 :
  hp_lowered e1 e2 -> hp_lowered e2 e3 -> hp_lowered e1 e3.
Proof.
  intros [E12 H12] [E23 H23]. split; [|lra].
  rewrite E23 at 1. rewrite E12. reflexivity.
Qed.

Lemma Forall2_hp_lowered_refl es : Forall2 hp_lowered es es.
Proof. induction es; constructor; [apply hp_lowered_refl|assumption]. Qed.

Lemma Forall2_hp_lowered_trans es1 es2 es3 :
  Forall2 hp_lowered es1 es2 -> Forall2 hp_lowered es2 es3 ->
  Forall2 hp_lowered es1 es3.
Proof.
  intros H. revert es3. induction H as [|a b l l' Hab _ IH]; intros es3 H3;
    inversion H3; subst; constructor.
  - eapply hp_lowered_trans; eauto.
  - now apply IH.
Qed.

Lemma hit_first_hp_lowered b es es' :
  Game.hit_first b es = Some es' -> Forall2 hp_lowered es es'.
Proof.
  intros H. pose proof (hit_first_spec b es) as S. rewrite H in S.
  destruct S as (before & e & after & -> & _ & _ & ->).
  apply Forall2_app; [apply Forall2_hp_lowered_refl|].
  constructor; [|apply Forall2_hp_lowered_refl].
  split; [reflexivity|]. unfold damaged. cbn [Game.set_hp Enemy.hp]. lra.
Qed.

Lemma bullets_loop_hp_lowered bs es :
  Forall2 hp_lowered es (snd (Game.bullets_loop bs es)).
Proof.
  revert es. induction bs as [|b tl IH]; intros es; cbn [Game.bullets_loop].
  - apply Forall2_hp_lowered_refl.
  - destruct (Game.hit_first b es) as [es'|] eqn:E.
    + eapply Forall2_hp_lowered_trans; [|apply IH].
      eapply hit_first_hp_lowered; eauto.
    + specialize (IH es). now destruct (Game.bullets_loop tl es).
Qed.

(** The part of an enemy that a hit leaves alone. *)
Lemma hp_lowered_same e e' :
  hp_lowered e e' ->
  Enemy.kind e' = Enemy.kind e /\ Enemy.x e' = Enemy.x e /\
  Enemy.y e' = Enemy.y e /\ Enemy.vx e' = Enemy.vx e /\
  Enemy.vy e' = Enemy.vy e /\ Enemy.t_ e' = Enemy.t_ e /\
  Enemy.data e' = Enemy.data e.
Proof. intros [-> _]. now repeat split. Qed.

Section Pipeline.
Context {G : Type} {RS : RandomSource G} {ML : MathLib}.

Lemma spawn_detail dt self (g : G) s' g' :
  Game.spawn dt self g = Some (s', g') ->
  (0 < Game.spawn_t self - dt /\
   s' = Game.set_spawn_t (Game.spawn_t self - dt)
          (Game.set_enemies (Game.enemies self ++ []) self)) \/
  (Game.spawn_t self - dt <= 0 /\
   exists e t' g1,
     Game._spawn_enemy (Game.set_spawn_t (Game.spawn_t self - dt) self) g
       = Some (Game.set_enemies (Game.enemies self ++ [e])
                 (Game.set_spawn_t (Game.spawn_t self - dt) self), g1) /\
     s' = Game.set_spawn_t t'
            (Game.set_enemies (Game.enemies self ++ [e]) self) /\
     0.6 <= t' <= 1.2).
Proof.
  unfold Game.spawn.
  change (Game.spawn_t (Game.set_spawn_t (Game.spawn_t self - dt) self))
    with (Game.spawn_t self - dt).
  destruct (Qle_bool (Game.spawn_t self - dt) 0) eqn:E; intros H.
  - right. apply Qle_bool_iff in E. split; [exact E|].
    apply bind_Some in H. destruct H as (s1 & g1 & H1 & H).
    apply bind_Some in H. destruct H as (t' & g2 & Ht & H).
    apply ret_Some in H. inversion H; subst; clear H.
    apply draw_Some in Ht.
    pose proof (uniform_range 0.6 1.2 g1 ltac:(lra)) as Hr.
    rewrite <- Ht in Hr. cbn [fst] in Hr.
    pose proof H1 as K. apply spawn_enemy_shape in K. destruct K as (e & K).
    subst s1. exists e, t', g1. split; [exact H1|].
    split; [reflexivity|exact Hr].
  - left. apply ret_Some in H. inversion H; subst; clear H.
    split.
    + apply Qnot_le_lt. intros Hle. apply Qle_bool_iff in Hle. congruence.
    + rewrite app_nil_r. now destruct self.
Qed.

(** The enemies of one call: the spawn, the loop, the cull, the hits and
    the deaths. *)
Lemma enemy_pipeline dt mx my shoot boost shield s (g : G) s' g' :
  Game.update dt mx my shoot boost shield s g = Some (s', g') ->
  exists new moved hit,
    ((dt < Game.spawn_t s /\ new = [] /\
      Game.spawn_t s' = Game.spawn_t s - dt) \/
     (Game.spawn_t s <= dt /\ 0.6 <= Game.spawn_t s' <= 1.2 /\
      exists e, new = [e] /\
                ((80 <= Game.h s)%Z -> spawned_ok (Game.w s) (Game.h s) e))) /\
    Forall2 (enemy_stepped dt (Game.h s)) (Game.enemies s ++ new) moved /\
    Forall2 hp_lowered (filter (Game.keep_enemy (Game.h s)) moved) hit /\
    Game.enemies s' = filter (fun e => negb (dead e)) hit.
Proof.
  intros H. apply update_split in H.
  destruct H as (s8 & g8 & s10 & H8 & _ & Hr & _ & ->).
  destruct (after_kinematics_fields dt s8 g8 s10 g' Hr) as (_ & Esp & Een).
  rewrite Esp, Een.
  unfold Game.update_to_kinematics in H8.
  apply bind_Some in H8. destruct H8 as (s4 & g4 & H4 & H8).
  apply bind_Some in H8. destruct H8 as (s6 & g6 & H6 & H8).
  apply bind_Some in H8. destruct H8 as (s7 & g7 & H7 & H8).
  apply ret_Some in H8. injection H8 as E8 _.
  apply move_stars_shape in H4. destruct H4 as (st & _ & E4).
  pose proof (prefix_fields dt mx my shoot boost shield s) as HF.
  cbv zeta in HF.
  destruct HF as (Hw & Hh & _ & _ & _ & _ & _ & _ & _ & _ & _ & _ & _ & Hen
                  & _ & Hsp).
  set (s3 := Game.shooting dt shoot _) in *. clearbody s3.
  set (s5 := Game.move_bullets dt s4) in *.
  assert (F5 : Game.w s5 = Game.w s /\ Game.h s5 = Game.h s /\
               Game.enemies s5 = Game.enemies s /\
               Game.spawn_t s5 = Game.spawn_t s).
  { subst s5. rewrite E4. unfold Game.move_bullets. gsimpl. now repeat split. }
  destruct F5 as (Hw5 & Hh5 & Hen5 & Hsp5). clearbody s5.
  unfold Game.update_enemies in H7.
  apply bind_Some in H7. destruct H7 as ([es s7'] & g7' & Hl & H7).
  apply ret_Some in H7. injection H7 as E7 _.
  pose proof Hl as Hsh. apply update_enemies_loop_shape in Hsh.
  destruct Hsh as (fired & E7' & _ & _).
  apply update_enemies_loop_spec in Hl.
  assert (Ees : Game.enemies s8 = filter (Game.keep_enemy (Game.h s6)) es
                /\ Game.spawn_t s8 = Game.spawn_t s6).
  { rewrite E8, E7, E7'. unfold Game.cull_enemies. gsimpl. now split. }
  destruct Ees as (Ees & Et8).
  apply spawn_detail in H6.
  destruct H6 as [(Hpos & E6)|(Hneg & e & t' & g1 & Hsp6 & E6 & Ht)].
  - exists [], es, (snd (Game.bullets_loop (Game.bullets s8) (Game.enemies s8))).
    rewrite E6 in Hl, Ees, Et8. gsimpl. rewrite Hh5, Hen5 in *.
    rewrite Hsp5 in *.
    split; [left; split; [lra|now split]|].
    split; [exact Hl|]. split; [|reflexivity].
    rewrite <- Ees. apply bullets_loop_hp_lowered.
  - assert (Hok : (80 <= Game.h s)%Z -> spawned_ok (Game.w s) (Game.h s) e).
    { intros H80.
      assert (HA : (80 <= Game.h (Game.set_spawn_t (Game.spawn_t s5 - dt) s5))%Z)
        by (cbn [Game.h Game.set_spawn_t]; lia).
      destruct (spawn_enemy_ok _ g4 HA) as (e0 & g0 & K & Hok).
      rewrite K in Hsp6.
      assert (Ee : Game.enemies s5 ++ [e0] = Game.enemies s5 ++ [e])
        by (injection Hsp6; intros; assumption).
      apply app_inv_head in Ee. injection Ee as Ee. subst e0.
      cbn [Game.w Game.h Game.set_spawn_t] in Hok.
      now rewrite Hw5, Hh5 in Hok. }
    clear Hsp6.
    exists [e], es, (snd (Game.bullets_loop (Game.bullets s8) (Game.enemies s8))).
    rewrite E6 in Hl, Ees, Et8. gsimpl. rewrite Hh5, Hen5 in *.
    rewrite Hsp5 in *.
    split; [right|].
    { split; [lra|]. split; [now rewrite Et8|]. exists e. now split. }
    split; [exact Hl|]. split; [|reflexivity].
    rewrite <- Ees. apply bullets_loop_hp_lowered.
Qed.
End Pipeline.

Lemma Forall2_In_r {A B} (R : A -> B -> Prop) l l' b :
  Forall2 R l l' -> In b l' -> exists a, In a l /\ R a b.
Proof.
  induction 1 as [|x y l l' Hxy _ IH]; intros Hin; [contradiction|].
  destruct Hin as [<-|Hin].
  - exists x. split; [now left|exact Hxy].
  - destruct (IH Hin) as (a & Ha & Hr). exists a. split; [now right|exact Hr].
Qed.

Lemma Forall2_length_eq {A B} (R : A -> B -> Prop) l l' :
  Forall2 R l l' -> length l' = length l.
Proof. induction 1; cbn [length]; congruence. Qed.

Section Enemies.
Context {G : Type} {RS : RandomSource G} {ML : MathLib}.

(** Where an enemy that [update] returns comes from. *)
Lemma enemy_history dt mx my shoot boost shield s (g : G) s' g' e' :
  Game.update dt mx my shoot boost shield s g = Some (s', g') ->
  In e' (Game.enemies s') ->
  exists e0 m,
    enemy_stepped dt (Game.h s) e0 m /\
    Game.keep_enemy (Game.h s) m = true /\
    hp_lowered m e' /\ 0 < Enemy.hp e'.
Proof.
  intros H Hin. apply enemy_pipeline in H.
  destruct H as (new & moved & hit & _ & Hst & Hhit & E).
  rewrite E in Hin. apply filter_In in Hin. destruct Hin as [Hin Halive].
  destruct (Forall2_In_r _ _ _ _ Hhit Hin) as (m & Hm & Hlow).
  apply filter_In in Hm. destruct Hm as [Hm Hkeep].
  destruct (Forall2_In_r _ _ _ _ Hst Hm) as (e0 & _ & Hstep).
  exists e0, m. split; [exact Hstep|]. split; [exact Hkeep|].
  split; [exact Hlow|].
  apply negb_true_iff in Halive. unfold dead in Halive.
  apply Qnot_le_lt. intros Hle. apply Qle_bool_iff in Hle. congruence.
Qed.

(** X5.  The spawn timer runs down by the elapsed time; when it expires the
    call spawns one enemy and restarts it between 0.6 and 1.2 s.  So it is
    positive after every call, and a call adds at most one enemy. *)
Theorem spawn_timer dt mx my shoot boost shield s (g : G) :
  exists s' g',
    Game.update dt mx my shoot boost shield s g = Some (s', g') /\
    0 < Game.spawn_t s' /\
    ((dt < Game.spawn_t s /\ Game.spawn_t s' = Game.spawn_t s - dt /\
      (length (Game.enemies s') <= length (Game.enemies s))%nat) \/
     (Game.spawn_t s <= dt /\ 0.6 <= Game.spawn_t s' <= 1.2 /\
      (length (Game.enemies s') <= length (Game.enemies s) + 1)%nat)).
Proof.
  apply update_returns. intros s' g' H. apply enemy_pipeline in H.
  destruct H as (new & moved & hit & Hsp & Hst & Hhit & E).
  assert (L : (length (Game.enemies s') <= length (Game.enemies s) + length new)%nat).
  { rewrite E. eapply Nat.le_trans; [apply filter_length_le|].
    rewrite (Forall2_length_eq _ _ _ Hhit).
    eapply Nat.le_trans; [apply filter_length_le|].
    rewrite (Forall2_length_eq _ _ _ Hst), length_app. lia. }
  destruct Hsp as [(Hlt & -> & Et)|(Hle & Ht & e & -> & _)]; cbn [length] in L.
  - split; [rewrite Et; lra|]. left. split; [exact Hlt|].
    split; [exact Et|lia].
  - split; [lra|]. right. split; [exact Hle|]. split; [exact Ht|exact L].
Qed.

(** X6.  The enemies [update] returns are the enemies it was called with,
    followed by the one it spawns when the timer expires, each stepped by
    the enemy loop, then culled, then hit, then without those that died.
    The loop keeps the kind, the hitpoints and the horizontal velocity of
    an enemy and moves it by [vx * dt]; a hit changes hitpoints only and
    never raises them. *)
Theorem enemies_through_update dt mx my shoot boost shield s (g : G) :
  exists s' g' new moved hit,
    Game.update dt mx my shoot boost shield s g = Some (s', g') /\
    (length new <= 1)%nat /\
    Forall2 (enemy_stepped dt (Game.h s)) (Game.enemies s ++ new) moved /\
    Forall2 hp_lowered (filter (Game.keep_enemy (Game.h s)) moved) hit /\
    Game.enemies s' = filter (fun e => negb (dead e)) hit.
Proof.
  destruct (total_update dt mx my shoot boost shield s g) as [[s' g'] H].
  pose proof H as K. apply enemy_pipeline in K.
  destruct K as (new & moved & hit & Hsp & Hst & Hhit & E).
  exists s', g', new, moved, hit. split; [exact H|].
  split; [|now repeat split].
  destruct Hsp as [(_ & -> & _)|(_ & _ & e & -> & _)]; cbn [length]; lia.
Qed.

(** X7.  On a playfield at least 40 high, every blob [update] returns is
    between 20 and [h - 20] high. *)
Theorem blobs_stay_in_field dt mx my shoot boost shield s (g : G) :
  (40 <= Game.h s)%Z ->
  exists s' g',
    Game.update dt mx my shoot boost shield s g = Some (s', g') /\
    Forall (fun e => match Enemy.kind e with
                     | blob => 20 <= Enemy.y e <= inject_Z (Game.h s - 20)
                     | _ => True
                     end) (Game.enemies s').
Proof.
  intros Hh. apply update_returns. intros s' g' H.
  apply Forall_forall. intros e' Hin.
  destruct (enemy_history _ _ _ _ _ _ _ _ _ _ _ H Hin)
    as (e0 & m & Hstep & _ & Hlow & _).
  apply hp_lowered_same in Hlow. destruct Hlow as (Ek & _ & Ey & _).
  destruct Hstep as (Ek0 & _ & _ & _ & _ & _ & Hkind).
  rewrite Ek, Ek0, Ey. destruct (Enemy.kind e0); try exact I.
  destruct Hkind as (_ & y0 & ->). now apply clamp_in_range.
Qed.


(** X9.  Every enemy [update] returns is right of -80, between -80 and
    [h + 80] high, and alive. *)
Theorem enemies_in_bounds dt mx my shoot boost shield s (g : G) :
  exists s' g',
    Game.update dt mx my shoot boost shield s g = Some (s', g') /\
    Forall (fun e => -80 < Enemy.x e /\
                     -80 < Enemy.y e < inject_Z (Game.h s + 80) /\
                     0 < Enemy.hp e) (Game.enemies s').
Proof.
  apply update_returns. intros s' g' H.
  apply Forall_forall. intros e' Hin.
  destruct (enemy_history _ _ _ _ _ _ _ _ _ _ _ H Hin)
    as (e0 & m & _ & Hkeep & Hlow & Hhp).
  apply hp_lowered_same in Hlow. destruct Hlow as (_ & -> & -> & _).
  unfold Game.keep_enemy in Hkeep.
  rewrite !andb_true_iff, !Qltb_lt in Hkeep. tauto.
Qed.

(** X10.  A red enemy fires when its cooldown is no longer than the elapsed
    time (a missing cooldown counts as 0): the loop appends one hostile
    14 x 3 projectile, 16 px left of the moved enemy, whose velocity is 280
    times the offset to the player over [hypot(dx, dy) or 1.0], and the
    enemy waits 1.0 to 1.8 s.  Otherwise the loop fires nothing and the
    cooldown goes down by the elapsed time. *)
Theorem red_fires_on_schedule dt e self (g : G) :
  Enemy.kind e = red ->
  let cd0 := Enemy.get (Enemy.shoot_cd (Enemy.data e)) 0 in
  exists e' self' g',
    Game.update_enemy dt e self g = Some (e', self', g') /\
    Enemy.x e' = Enemy.x e + Enemy.vx e * dt /\ Enemy.y e' = Enemy.y e /\
    ((dt < cd0 /\ self' = self /\
      Enemy.shoot_cd (Enemy.data e') = Some (cd0 - dt)) \/
     (cd0 <= dt /\
      exists b cd',
        self' = Game.set_ebullets (Game.ebullets self ++ [b]) self /\
        shot_by e' b /\
        (let dx := Game.px self - Enemy.x e' in
         let dy := Game.py self - Enemy.y e' in
         let L := py_or (m_hypot dx dy) 1 in
         Laser.vx b = 280 * dx / L /\ Laser.vy b = 280 * dy / L) /\
        Enemy.shoot_cd (Enemy.data e') = Some cd' /\ 1.0 <= cd' <= 1.8)).
Proof.
  intros Hk cd0.
  destruct (total_update_enemy dt e self g) as [[[e' self'] g'] H].
  exists e', self', g'. split; [exact H|].
  unfold Game.update_enemy in H.
  change (Enemy.kind (Game.set_t (Enemy.t_ e + dt) e)) with (Enemy.kind e) in H.
  rewrite Hk in H. unfold Game.update_red in H.
  destruct e as [k x y vx vy hp t [r cd segs ph]]. cbn in Hk. subst k.
  cbn [Game.set_t Game.set_xy Game.set_data Game.data_set_shoot_cd
       Enemy.x Enemy.y Enemy.vx Enemy.vy Enemy.t_ Enemy.data Enemy.shoot_cd
       Enemy.kind Enemy.hp Enemy.r Enemy.segs Enemy.phase] in H, cd0 |- *.
  fold cd0 in H.
  destruct (Qle_bool (py_max 0 (cd0 - dt)) 0) eqn:Ec.
  - apply Qle_bool_iff in Ec. apply -> py_max_0_le_0 in Ec.
    apply bind_Some in H. destruct H as (bvx & g1 & Hvx & H).
    apply bind_Some in H. destruct H as (bvy & g2 & Hvy & H).
    apply bind_Some in H. destruct H as (cd' & g3 & Hcd & H).
    apply ret_Some in H. inversion H; subst e' self' g'; clear H.
    apply draw_Some in Hcd.
    pose proof (uniform_range 1.0 1.8 g2 ltac:(lra)) as Hr.
    rewrite <- Hcd in Hr. cbn [fst] in Hr.
    rewrite fdiv_Some in Hvx, Hvy by apply fallback_divisor_nonzero.
    unfold lift_opt in Hvx, Hvy. inversion Hvx; inversion Hvy; subst.
    cbn [Enemy.x Enemy.y Enemy.data Enemy.shoot_cd].
    split; [reflexivity|]. split; [reflexivity|]. right.
    split; [lra|]. eexists. exists cd'. split; [reflexivity|].
    split; [now repeat split|]. split; [now split|]. now split.
  - apply ret_Some in H. inversion H; subst e' self' g'; clear H.
    cbn [Enemy.x Enemy.y Enemy.data Enemy.shoot_cd].
    split; [reflexivity|]. split; [reflexivity|]. left.
    assert (Hlt : 0 < cd0 - dt).
    { apply Qnot_le_lt. intros Hle. apply not_true_iff_false in Ec. apply Ec.
      apply Qle_bool_iff. now apply <- py_max_0_le_0. }
    split; [lra|]. split; [reflexivity|].
    unfold py_max. apply Qltb_lt in Hlt. now rewrite Hlt.
Qed.
End Enemies.

(** ** Damage and shards *)

Lemma total_hp_app es1 es2 : total_hp (es1 ++ es2) == total_hp es1 + total_hp es2.
Proof.
  unfold total_hp.
  induction es1 as [|e tl IH]; cbn [app fold_right]; lra.
Qed.

Lemma hit_first_total_hp b es es' :
  Game.hit_first b es = Some es' -> total_hp es' == total_hp es - 1.
Proof.
  intros H. pose proof (hit_first_spec b es) as S. rewrite H in S.
  destruct S as (before & e & after & -> & _ & _ & ->).
  rewrite !total_hp_app. unfold total_hp, damaged.
  cbn [fold_right Game.set_hp Enemy.hp]. lra.
Qed.

(** X11.  The projectile loop takes from the enemies, in total, exactly one
    hitpoint for each projectile it removes. *)
Theorem damage_is_conserved bs es :
  total_hp (snd (Game.bullets_loop bs es))
  + inject_Z (Z.of_nat (length bs))
  == total_hp es
     + inject_Z (Z.of_nat (length (fst (Game.bullets_loop bs es)))).
Proof.
  revert es. induction bs as [|b tl IH]; intros es; cbn [Game.bullets_loop].
  - cbn [fst snd length Z.of_nat]. lra.
  - destruct (Game.hit_first b es) as [es'|] eqn:E.
    + specialize (IH es'). rewrite (hit_first_total_hp b es es' E) in IH.
      cbn [length]. rewrite Nat2Z.inj_succ, <- Z.add_1_r, inject_Z_plus.
      change (inject_Z 1) with 1. lra.
    + specialize (IH es). destruct (Game.bullets_loop tl es) as [r es1].
      cbn [fst snd length] in *.
      rewrite !Nat2Z.inj_succ, <- !Z.add_1_r, !inject_Z_plus.
      change (inject_Z 1) with 1. lra.
Qed.




(** The drag of [Shard.update] for a step of at most 2.5 s. *)
Lemma drag_shrinks (v dt : Q) :
  0 <= dt -> dt <= 5 # 2 -> Qabs (v * (1 - 0.4 * dt)) <= Qabs v.
Proof.
  intros H0 H1. rewrite Qabs_Qmult.
  rewrite (Qabs_pos (1 - 0.4 * dt)) by lra.
  pose proof (Qabs_nonneg v) as Hv. nra.
Qed.

(** X12.  [Shard.update] moves a shard by its velocity, takes the elapsed
    time off its ttl and keeps its value; for a step between 0 and 2.5 s the
    drag never speeds the shard up and never turns it around. *)
Theorem shard_update_decays dt sh :
  0 <= dt -> dt <= 5 # 2 ->
  let sh' := Shard.update dt sh in
  Shard.x sh' = Shard.x sh + Shard.vx sh * dt /\
  Shard.y sh' = Shard.y sh + Shard.vy sh * dt /\
  Shard.ttl sh' = Shard.ttl sh - dt /\
  Shard.value sh' = Shard.value sh /\
  Qabs (Shard.vx sh') <= Qabs (Shard.vx sh) /\
  Qabs (Shard.vy sh') <= Qabs (Shard.vy sh) /\
  0 <= Shard.vx sh * Shard.vx sh' /\ 0 <= Shard.vy sh * Shard.vy sh'.
Proof.
  intros H0 H1 sh'. subst sh'. cbn [Shard.update Shard.x Shard.y Shard.vx
                                      Shard.vy Shard.ttl Shard.value].
  do 4 (split; [reflexivity|]).
  split; [now apply drag_shrinks|]. split; [now apply drag_shrinks|].
  assert (Hsq : forall v, 0 <= v * (v * (1 - 0.4 * dt))).
  { intros v. setoid_replace (v * (v * (1 - 0.4 * dt)))
      with ((v * v) * (1 - 0.4 * dt)) by ring.
    apply Qmult_le_0_compat; [|lra].
    destruct (Qlt_le_dec v 0) as [Hn|Hp].
    - setoid_replace (v * v) with ((- v) * (- v)) by ring.
      apply Qmult_le_0_compat; lra.
    - now apply Qmult_le_0_compat. }
  split; apply Hsq.
Qed.

Section Shards.
Context {G : Type} {RS : RandomSource G} {ML : MathLib}.


End Shards.

(** ** The hit boxes *)

(** [int] truncates: it stays within one of its argument, on either side. *)
Lemma py_int_bounds (q : Q) :
  q - 1 < inject_Z (py_int q) /\ inject_Z (py_int q) < q + 1.
Proof.
  destruct q as [n d]. unfold py_int. cbn [Qnum Qden].
  pose proof (Z.quot_rem' n (Zpos d)) as E.
  pose proof (Z.rem_bound_abs n (Zpos d) ltac:(lia)) as B.
  unfold Qlt, Qminus, Qplus, Qopp, inject_Z. cbn [Qnum Qden].
  split; nia.
Qed.

Lemma colliderect_sized (a b : Rect.t) :
  (0 < Rect.w a)%Z -> (0 < Rect.h a)%Z -> (0 < Rect.w b)%Z -> (0 < Rect.h b)%Z ->
  Rect.colliderect a b = true <->
  (Rect.x a < Rect.x b + Rect.w b /\ Rect.x b < Rect.x a + Rect.w a /\
   Rect.y a < Rect.y b + Rect.h b /\ Rect.y b < Rect.y a + Rect.h a)%Z.
Proof.
  intros Hwa Hha Hwb Hhb. unfold Rect.colliderect.
  destruct (Rect.w a =? 0)%Z eqn:E1; [apply Z.eqb_eq in E1; lia|].
  destruct (Rect.h a =? 0)%Z eqn:E2; [apply Z.eqb_eq in E2; lia|].
  destruct (Rect.w b =? 0)%Z eqn:E3; [apply Z.eqb_eq in E3; lia|].
  destruct (Rect.h b =? 0)%Z eqn:E4; [apply Z.eqb_eq in E4; lia|].
  cbn [orb]. rewrite !andb_true_iff, !Z.ltb_lt, !Z.gtb_lt. lia.
Qed.

(** An order between two truncations, read on the arguments. *)
Lemma py_int_lt_intro (a b : Q) (k : Z) :
  a + 2 <= b + inject_Z k -> (py_int a < py_int b + k)%Z.
Proof.
  intros H. destruct (py_int_bounds a) as [_ Ha].
  destruct (py_int_bounds b) as [Hb _].
  apply Z.lt_nge. intros Hge.
  assert (Hq : inject_Z (py_int b + k) <= inject_Z (py_int a))
    by (rewrite <- Zle_Qle; exact Hge).
  rewrite inject_Z_plus in Hq. lra.
Qed.

Lemma py_int_lt_elim (a b : Q) (k : Z) :
  (py_int a < py_int b + k)%Z -> a < b + inject_Z k + 2.
Proof.
  intros H. destruct (py_int_bounds a) as [Ha _].
  destruct (py_int_bounds b) as [_ Hb].
  assert (Hq : inject_Z (py_int a) < inject_Z (py_int b + k))
    by (rewrite <- Zlt_Qlt; exact H).
  rewrite inject_Z_plus in Hq. lra.
Qed.

Lemma Qabs_le_iff (x c : Q) : Qabs x <= c <-> - c <= x <= c.
Proof. apply Qabs_Qle_condition. Qed.

(** X15.  A hostile projectile of the standard size whose centre is within
    17 px across and 9.5 px up or down of the player overlaps the player's
    hit box; one that is 21 px or more across, or 13.5 px or more up or
    down, does not. *)
Theorem hostile_hit_zone (s : Game.t) (b : Laser.t) :
  laser_shape b ->
  (Qabs (Laser.x b - Game.px s) <= 17 ->
   Qabs (Laser.y b - Game.py s) <= 19 # 2 ->
   overlaps (Game.player_rect s) b = true) /\
  (21 <= Qabs (Laser.x b - Game.px s) \/
   27 # 2 <= Qabs (Laser.y b - Game.py s) ->
   overlaps (Game.player_rect s) b = false).
Proof.
  intros [Hw Hh]. unfold overlaps.
  pose proof (colliderect_sized (Laser.rect b) (Game.player_rect s)) as C.
  unfold Laser.rect, Game.player_rect in *. rewrite Hw, Hh in *.
  cbn [Rect.x Rect.y Rect.w Rect.h] in C.
  specialize (C eq_refl eq_refl eq_refl eq_refl).
  change (inject_Z 14 / 2) with (14 * (1 # 2)) in *.
  change (inject_Z 3 / 2) with (3 * (1 # 2)) in *.
  split.
  - intros Hx Hy. apply Qabs_le_iff in Hx, Hy. apply C.
    repeat split; apply py_int_lt_intro;
      change (inject_Z 24) with 24; change (inject_Z 14) with 14;
      change (inject_Z 20) with 20; change (inject_Z 3) with 3; lra.
  - intros H. apply not_true_is_false. intros K. apply C in K.
    destruct K as (K1 & K2 & K3 & K4).
    apply py_int_lt_elim in K1, K2, K3, K4.
    change (inject_Z 24) with 24 in *; change (inject_Z 14) with 14 in *;
      change (inject_Z 20) with 20 in *; change (inject_Z 3) with 3 in *.
    destruct H as [H|H]; revert H; apply Qlt_not_le;
      apply Qabs_Qlt_condition; lra.
Qed.

(** X16.  A shard whose centre is within 14 px across and 12 px up or down
    of the player touches the player's hit box; one that is 18 px or more
    across, or 16 px or more up or down, does not. *)
Theorem shard_pickup_zone (s : Game.t) (sh : Shard.t) :
  (Qabs (Shard.x sh - Game.px s) <= 14 ->
   Qabs (Shard.y sh - Game.py s) <= 12 ->
   Rect.colliderect (Game.player_rect s) (Shard.rect sh) = true) /\
  (18 <= Qabs (Shard.x sh - Game.px s) \/
   16 <= Qabs (Shard.y sh - Game.py s) ->
   Rect.colliderect (Game.player_rect s) (Shard.rect sh) = false).
Proof.
  pose proof (colliderect_sized (Game.player_rect s) (Shard.rect sh)) as C.
  unfold Shard.rect, Game.player_rect in *.
  cbn [Rect.x Rect.y Rect.w Rect.h] in C.
  specialize (C eq_refl eq_refl eq_refl eq_refl).
  split.
  - intros Hx Hy. apply Qabs_le_iff in Hx, Hy. apply C.
    repeat split; apply py_int_lt_intro;
      change (inject_Z 24) with 24; change (inject_Z 8) with 8;
      change (inject_Z 20) with 20; lra.
  - intros H. apply not_true_is_false. intros K. apply C in K.
    destruct K as (K1 & K2 & K3 & K4).
    apply py_int_lt_elim in K1, K2, K3, K4.
    change (inject_Z 24) with 24 in *; change (inject_Z 8) with 8 in *;
      change (inject_Z 20) with 20 in *.
    destruct H as [H|H]; revert H; apply Qlt_not_le;
      apply Qabs_Qlt_condition; lra.
Qed.

(** ** The energy bar *)


Section EnergyBar.
Context {G : Type} {RS : RandomSource G} {ML : MathLib}.

(** The configuration of a game. *)
Lemma reachable_config s :
  reachable s ->
  Game.energy_max s = 120 /\ Game.base_speed s = 220 /\ Game.boost_mul s = 2.
Proof.
  induction 1 as [width height g s g' H|dt mx my shoot boost shield s g s' g'
                                          _ IH _ _ _ H].
  - apply init_shape in H. destruct H as (st & _ & ->). now repeat split.
  - apply update_shape in H. cbv zeta in H.
    destruct H as (st & fired & moved & t & blocks & _ & _ & _ & ->).
    exact IH.
Qed.

End EnergyBar.

(** ** The speed of the player *)

(** Clamping a step from inside the range never lengthens it. *)
Lemma clamp_step (lo hi x d : Q) :
  lo <= x <= hi -> Qabs (py_max lo (py_min hi (x + d)) - x) <= Qabs d.
Proof.
  intros [Hlo Hhi]. apply Qabs_Qle_condition.
  assert (Hd : - Qabs d <= d <= Qabs d) by (apply Qabs_Qle_condition; lra).
  unfold py_max, py_min.
  destruct (Qltb (x + d) hi) eqn:E1;
    [apply Qltb_lt in E1|apply Qltb_ge in E1];
    match goal with |- context [Qltb lo ?v] =>
      destruct (Qltb lo v) eqn:E2;
        [apply Qltb_lt in E2|apply Qltb_ge in E2]
    end; lra.
Qed.

Section PlayerSpeed.
Context {G : Type} {RS : RandomSource G} {ML : MathLib}.

(** X18.  In a game, a player inside the margins moves in one call of
    [update] by at most the requested direction times 220 px/s times the
    elapsed time, and twice that with the boost, which is on exactly when
    it is requested and there is energy left. *)
Theorem player_speed_limit dt mx my shoot boost shield s (g : G) :
  reachable s -> in_field s -> 0 <= dt ->
  exists s' g',
    Game.update dt mx my shoot boost shield s g = Some (s', g') /\
    Game.boost_active s' = boost && Qltb 0 (Game.energy s) /\
    let speed := if Game.boost_active s' then 440 else 220 in
    Qabs (Game.px s' - Game.px s) <= Qabs mx * speed * dt /\
    Qabs (Game.py s' - Game.py s) <= Qabs my * speed * dt.
Proof.
  intros Hr [Hx Hy] Hdt. destruct (reachable_config s Hr) as (_ & Eb & Em).
  apply update_returns. intros s' g' H.
  apply update_shape in H. cbv zeta in H.
  destruct H as (st & fired & moved & t & blocks & _ & _ & _ & ->).
  cbn [Game.boost_active Game.px Game.py].
  unfold Game.movement, Game.energy_drains. gsimpl. rewrite Eb, Em.
  split; [reflexivity|].
  set (speed := 220 * (if boost && Qltb 0 (Game.energy s) then 2 else 1)).
  assert (Es : speed == (if boost && Qltb 0 (Game.energy s) then 440 else 220)
               /\ 0 <= speed).
  { subst speed. destruct (boost && _); split; lra. }
  destruct Es as [Es Hs].
  assert (Hd : forall m, Qabs (m * speed * dt) == Qabs m * speed * dt).
  { intros m. rewrite !Qabs_Qmult, (Qabs_pos speed), (Qabs_pos dt) by assumption.
    reflexivity. }
  rewrite <- Es, <- !Hd. split; apply clamp_step; assumption.
Qed.
End PlayerSpeed.

(** ** Construction and the star field *)

Section Construction.
Context {G : Type} {RS : RandomSource G} {ML : MathLib}.

Lemma new_star_spec width height (g : G) st g1 :
  (0 <= width)%Z -> (0 <= height)%Z ->
  Game.new_star width height g = Some (st, g1) ->
  In (Star.layer st) [0.6; 0.8; 1.0; 1.2; 1.4] /\
  0 <= Star.x st <= inject_Z width /\ 0 <= Star.y st <= inject_Z height.
Proof.
  intros Hw Hh H. unfold Game.new_star in H.
  apply bind_Some in H. destruct H as (x & g2 & Hx & H).
  apply bind_Some in H. destruct H as (y & g3 & Hy & H).
  apply bind_Some in H. destruct H as (l & g4 & Hl & H).
  apply ret_Some in H. inversion H; subst; clear H.
  apply draw_Some in Hx, Hy, Hl. cbn [Star.layer Star.x Star.y].
  assert (Hw' : 0 <= inject_Z width)
    by (change 0 with (inject_Z 0); now rewrite <- Zle_Qle).
  assert (Hh' : 0 <= inject_Z height)
    by (change 0 with (inject_Z 0); now rewrite <- Zle_Qle).
  pose proof (uniform_range 0 (inject_Z width) g Hw') as Rx.
  pose proof (uniform_range 0 (inject_Z height) g2 Hh') as Ry.
  rewrite <- Hx in Rx. rewrite <- Hy in Ry. cbn [fst] in Rx, Ry.
  split; [|split; assumption].
  unfold choice in Hl.
  pose proof (@rs_randbelow_range _ _ 5%Z g3 ltac:(lia)) as Rk.
  change (Z.of_nat (length [0.6; 0.8; 1.0; 1.2; 1.4])) with 5%Z in Hl.
  destruct (rs_randbelow 5 g3) as [k g5]. cbn [fst] in Rk.
  assert (El : l = nth (Z.to_nat k) [0.6; 0.8; 1.0; 1.2; 1.4] 0)
    by congruence.
  rewrite El. apply nth_In. cbn [length]. lia.
Qed.

Lemma init_stars width height (g : G) s g' :
  (0 <= width)%Z -> (0 <= height)%Z ->
  Game.init width height g = Some (s, g') ->
  length (Game.stars s) = 140%nat /\
  Forall (fun st =>
            In (Star.layer st) [0.6; 0.8; 1.0; 1.2; 1.4] /\
            0 <= Star.x st <= inject_Z width /\
            0 <= Star.y st <= inject_Z height) (Game.stars s).
Proof.
  intros Hw Hh H. unfold Game.init in H.
  apply bind_Some in H. destruct H as (st & g1 & Hst & H).
  apply ret_Some in H. inversion H; subst; clear H. cbn [Game.stars].
  eapply repeatM_Forall; [|exact Hst].
  intros g0 a g2 Ha. eapply new_star_spec; eauto.
Qed.

(** X19.  On a playfield with non-negative sides the construction returns,
    with 140 stars inside the playfield, each on one of the five layers,
    the player at 18% of the width and half the height, half the energy of
    120, no score, no cooldown, no entity and a spawn timer of one
    second. *)
Theorem construction_spec width height (g : G) :
  (0 <= width)%Z -> (0 <= height)%Z ->
  exists s g',
    Game.init width height g = Some (s, g') /\
    length (Game.stars s) = 140%nat /\
    Forall (fun st =>
              In (Star.layer st) [0.6; 0.8; 1.0; 1.2; 1.4] /\
              0 <= Star.x st <= inject_Z width /\
              0 <= Star.y st <= inject_Z height) (Game.stars s) /\
    s = Game.mk width height (inject_Z width * 0.18) (inject_Z height * 0.5)
          220 2 60 120 false false 0 0%Z (Game.stars s) [] [] [] [] 1.
Proof.
  intros Hw Hh. destruct (total_init width height g) as [[s g'] H].
  exists s, g'. split; [exact H|].
  destruct (init_stars width height g s g' Hw Hh H) as [Hl Hf].
  split; [exact Hl|]. split; [exact Hf|].
  apply init_shape in H. destruct H as (st & _ & ->). reflexivity.
Qed.

Lemma star_moved_ok dt mx width height st st' :
  0 < dt -> (0 <= width)%Z -> star_ok width height st ->
  star_moved dt mx width height st st' -> star_ok width height st'.
Proof.
  intros Hdt Hw (Hl & Hx & Hy) (El & Hm). unfold star_ok. rewrite El.
  assert (Hw' : 0 <= inject_Z width)
    by (change 0 with (inject_Z 0); now rewrite <- Zle_Qle).
  split; [exact Hl|].
  assert (Hpos : 0 < Star.layer st).
  { cbn [In] in Hl.
    destruct Hl as [<-|[<-|[<-|[<-|[<-|[]]]]]]; reflexivity. }
  pose proof (py_max_l 0 mx) as Hp.
  destruct Hm as [(Hge & -> & ->)|(_ & Hx' & Hy')].
  - split; [|exact Hy]. split; [lra|].
    assert (0 <= (35 * Star.layer st + py_max 0 mx * 60 * Star.layer st) * dt).
    { apply Qmult_le_0_compat; [|lra].
      assert (0 <= py_max 0 mx * 60 * Star.layer st)
        by (apply Qmult_le_0_compat; lra).
      lra. }
    lra.
  - split; [lra|exact Hy'].
Qed.

(** X20.  The star field of a game: on a playfield with non-negative sides
    there are always 140 stars, each on one of the five layers, between -2
    and 60 px past the right edge, at a height inside the playfield. *)
Theorem star_field_invariant s :
  reachable s -> (0 <= Game.w s)%Z -> (0 <= Game.h s)%Z ->
  length (Game.stars s) = 140%nat /\
  Forall (star_ok (Game.w s) (Game.h s)) (Game.stars s).
Proof.
  induction 1 as [width height g s g' H|dt mx my shoot boost shield s g s' g'
                                          _ IH Hdt _ _ H]; intros Hw Hh.
  - pose proof H as K. apply init_shape in K. destruct K as (st & _ & E).
    assert (Ew : Game.w s = width) by (rewrite E; reflexivity).
    assert (Eh : Game.h s = height) by (rewrite E; reflexivity).
    rewrite Ew, Eh in *.
    destruct (init_stars width height g s g' Hw Hh H) as [Hl Hf].
    split; [exact Hl|]. eapply Forall_impl; [|exact Hf].
    intros a (Ha & Hx & Hy). split; [exact Ha|]. split; [|exact Hy].
    assert (0 <= inject_Z width)
      by (change 0 with (inject_Z 0); now rewrite <- Zle_Qle).
    lra.
  - pose proof H as K. apply update_shape in K. cbv zeta in K.
    destruct K as (st & fired & moved & t & blocks & _ & _ & _ & E).
    assert (Ew : Game.w s' = Game.w s) by (rewrite E; reflexivity).
    assert (Eh : Game.h s' = Game.h s) by (rewrite E; reflexivity).
    rewrite Ew, Eh in *. destruct (IH Hw Hh) as [Hl Hf].
    apply update_stars in H. destruct H as (g4 & H).
    assert (F : Forall2 (star_moved dt mx (Game.w s) (Game.h s))
                  (Game.stars s) (Game.stars s')).
    { eapply forM_Forall2; [|exact H].
      intros a g0 b g1. now apply move_star_spec. }
    split; [rewrite <- Hl; symmetry; eapply Forall2_length; exact F|].
    clear - F Hf Hdt Hw. induction F as [|a b l l' Hab _ IHF]; [constructor|].
    inversion Hf; subst. constructor; [|now apply IHF].
    eapply star_moved_ok; eauto.
Qed.
End Construction.

(** * Properties of the host loop *)

(** ** Dictionaries and sets *)

Lemma dict_get_set_same {V} (d : Dict.t V) k v :
  Dict.get (Dict.set k v d) k = Some v.
Proof.
  induction d as [|[k' v'] tl IH]; cbn [Dict.set Dict.get].
  - now rewrite Z.eqb_refl.
  - destruct (k' =? k)%Z eqn:E; cbn [Dict.get].
    + now rewrite Z.eqb_refl.
    + now rewrite E.
Qed.

Lemma dict_get_set_other {V} (d : Dict.t V) k v k' :
  k' <> k -> Dict.get (Dict.set k v d) k' = Dict.get d k'.
Proof.
  intros Hk. induction d as [|[k0 v0] tl IH]; cbn [Dict.set Dict.get].
  - destruct (k =? k')%Z eqn:E; [apply Z.eqb_eq in E; congruence|reflexivity].
  - destruct (k0 =? k)%Z eqn:E; cbn [Dict.get].
    + apply Z.eqb_eq in E. subst k0.
      destruct (k =? k')%Z eqn:E'; [apply Z.eqb_eq in E'; congruence|reflexivity].
    + destruct (k0 =? k')%Z; [reflexivity|exact IH].
Qed.

Lemma dict_get_pop_same {V} (d : Dict.t V) k : Dict.get (Dict.pop k d) k = None.
Proof.
  unfold Dict.pop. induction d as [|[k' v'] tl IH]; cbn [filter Dict.get fst].
  - reflexivity.
  - destruct (k' =? k)%Z eqn:E; cbn [negb Dict.get]; [exact IH|].
    now rewrite E.
Qed.

Lemma dict_get_pop_other {V} (d : Dict.t V) k k' :
  k' <> k -> Dict.get (Dict.pop k d) k' = Dict.get d k'.
Proof.
  intros Hk. unfold Dict.pop.
  induction d as [|[k0 v0] tl IH]; cbn [filter Dict.get fst].
  - reflexivity.
  - destruct (k0 =? k)%Z eqn:E; cbn [negb Dict.get].
    + apply Z.eqb_eq in E. subst k0.
      destruct (k =? k')%Z eqn:E'; [apply Z.eqb_eq in E'; congruence|exact IH].
    + destruct (k0 =? k')%Z; [reflexivity|exact IH].
Qed.

Lemma intset_mem_add k s k' :
  IntSet.mem k' (IntSet.add k s) = (k' =? k)%Z || IntSet.mem k' s.
Proof.
  unfold IntSet.add. destruct (IntSet.mem k s) eqn:E; cbn [IntSet.mem existsb].
  - destruct (k' =? k)%Z eqn:E'; [|reflexivity].
    apply Z.eqb_eq in E'. subst k'. exact E.
  - reflexivity.
Qed.

Lemma intset_mem_discard k s k' :
  IntSet.mem k' (IntSet.discard k s) = negb (k' =? k)%Z && IntSet.mem k' s.
Proof.
  unfold IntSet.discard, IntSet.mem.
  induction s as [|x tl IH]; cbn [filter existsb].
  - now rewrite andb_false_r.
  - destruct (x =? k)%Z eqn:E; cbn [negb existsb].
    + rewrite IH. apply Z.eqb_eq in E. subst x.
      rewrite (Z.eqb_sym k' k). destruct (k =? k')%Z; reflexivity.
    + rewrite IH. destruct (k' =? x)%Z eqn:E'; [|reflexivity].
      apply Z.eqb_eq in E'. subst x. rewrite E. reflexivity.
Qed.

(** ** The log *)

Lemma deque_append_spec {A} (n : nat) (x : A) (d : list A) :
  (0 < n)%nat ->
  (length (Main.deque_append n x d) <= n)%nat /\
  (exists kept, Main.deque_append n x d = kept ++ [x]) /\
  exists dropped,
    d ++ [x] = dropped ++ Main.deque_append n x d /\
    length dropped = (length d + 1 - n)%nat.
Proof.
  intros Hn. unfold Main.deque_append.
  set (l := d ++ [x]). set (k := (length l - n)%nat).
  assert (Hl : length l = (length d + 1)%nat)
    by (subst l; rewrite length_app; reflexivity).
  assert (Hk : (k <= length d)%nat) by (subst k; lia).
  split; [rewrite length_skipn; subst k; lia|]. split.
  - exists (skipn k d). subst l. rewrite skipn_app.
    replace (k - length d)%nat with 0%nat by lia. reflexivity.
  - exists (firstn k l). split; [now rewrite firstn_skipn|].
    rewrite length_firstn. subst k. lia.
Qed.

(** X21.  The log holds at most [LOG_MAX] = 300 lines: [log] puts the new
    line last and drops from the front exactly the lines in excess. *)
Theorem log_keeps_newest timestamp msg log_lines :
  (length (Main.log timestamp msg log_lines) <= 300)%nat /\
  (exists kept,
      Main.log timestamp msg log_lines
      = kept ++ [Main.Text.line timestamp msg]) /\
  exists dropped,
    log_lines ++ [Main.Text.line timestamp msg]
    = dropped ++ Main.log timestamp msg log_lines /\
    length dropped = (length log_lines + 1 - 300)%nat.
Proof.
  unfold Main.log.
  apply (deque_append_spec Main.LOG_MAX); unfold Main.LOG_MAX; lia.
Qed.

(** ** The input state *)

Lemma ensure_state_pressed iid st :
  exists s, Dict.get (Main.pressed_by_iid (Main.ensure_state iid st)) iid = Some s /\
            s = Dict.get_or (Main.pressed_by_iid st) iid [].
Proof.
  unfold Main.ensure_state, Dict.mem, Dict.get_or. cbn [Main.pressed_by_iid].
  destruct (Dict.get (Main.pressed_by_iid st) iid) as [s|] eqn:E.
  - exists s. now split.
  - exists []. split; [apply dict_get_set_same|reflexivity].
Qed.

Lemma ensure_state_axes iid st :
  exists a, Dict.get (Main.axis_by_iid (Main.ensure_state iid st)) iid = Some a /\
            a = Dict.get_or (Main.axis_by_iid st) iid [].
Proof.
  unfold Main.ensure_state, Dict.mem, Dict.get_or. cbn [Main.axis_by_iid].
  destruct (Dict.get (Main.axis_by_iid st) iid) as [s|] eqn:E.
  - exists s. now split.
  - exists []. split; [apply dict_get_set_same|reflexivity].
Qed.

Lemma ensure_state_pressed_other iid st iid' :
  Dict.get_or (Main.pressed_by_iid (Main.ensure_state iid st)) iid' []
  = Dict.get_or (Main.pressed_by_iid st) iid' [].
Proof.
  unfold Main.ensure_state, Dict.mem, Dict.get_or. cbn [Main.pressed_by_iid].
  destruct (Dict.get (Main.pressed_by_iid st) iid) as [s|] eqn:E; [reflexivity|].
  destruct (Z.eq_dec iid' iid) as [->|Hne].
  - now rewrite dict_get_set_same, E.
  - now rewrite dict_get_set_other.
Qed.

Lemma ensure_state_axes_other iid st iid' :
  Dict.get_or (Main.axis_by_iid (Main.ensure_state iid st)) iid' []
  = Dict.get_or (Main.axis_by_iid st) iid' [].
Proof.
  unfold Main.ensure_state, Dict.mem, Dict.get_or. cbn [Main.axis_by_iid].
  destruct (Dict.get (Main.axis_by_iid st) iid) as [s|] eqn:E; [reflexivity|].
  destruct (Z.eq_dec iid' iid) as [->|Hne].
  - now rewrite dict_get_set_same, E.
  - now rewrite dict_get_set_other.
Qed.

Lemma handle_event_total ev st : exists st', Main.handle_event ev st = Some st'.
Proof.
  destruct ev as [|key|idx|[iid|]|iid b|iid b|iid ax v|iid hat|];
    cbn [Main.handle_event]; try (eexists; reflexivity).
  - destruct key; eexists; reflexivity.
  - destruct (ensure_state_pressed iid st) as (s & -> & _). eexists; reflexivity.
  - destruct (ensure_state_pressed iid st) as (s & -> & _). eexists; reflexivity.
  - destruct (ensure_state_axes iid st) as (s & -> & _). eexists; reflexivity.
Qed.

Lemma handle_events_total evs st : exists st', Main.handle_events evs st = Some st'.
Proof.
  revert st. induction evs as [|ev tl IH]; intros st; cbn [Main.handle_events].
  - eexists; reflexivity.
  - destruct (handle_event_total ev st) as [st1 ->]. apply IH.
Qed.

(** The held buttons after a press or a release. *)
Lemma button_event_pressed (down : bool) iid b st :
  exists st',
    (if down then Main.handle_event (Main.JOYBUTTONDOWN iid b) st
     else Main.handle_event (Main.JOYBUTTONUP iid b) st) = Some st' /\
    Main.running st' = Main.running st /\
    (forall iid' b',
        is_pressed st' iid' b' =
          if (iid' =? iid)%Z && (b' =? b)%Z then down
          else is_pressed st iid' b') /\
    (forall iid' ax, axis_value st' iid' ax = axis_value st iid' ax).
Proof.
  destruct (ensure_state_pressed iid st) as (s & Es & Hs).
  assert (Hrun : Main.running (Main.ensure_state iid st) = Main.running st)
    by reflexivity.
  exists (Main.mkInputState (Main.running (Main.ensure_state iid st))
            (Dict.set iid (if down then IntSet.add b s else IntSet.discard b s)
               (Main.pressed_by_iid (Main.ensure_state iid st)))
            (Main.axis_by_iid (Main.ensure_state iid st))).
  split.
  { destruct down; cbn [Main.handle_event]; rewrite Es; reflexivity. }
  split; [exact Hrun|]. split.
  - intros iid' b'. unfold is_pressed, Dict.get_or.
    destruct (Z.eq_dec iid' iid) as [->|Hne].
    + rewrite Z.eqb_refl. cbn [andb].
      destruct down; cbn [Main.pressed_by_iid]; rewrite dict_get_set_same.
      * rewrite intset_mem_add, Hs. unfold Dict.get_or.
        destruct (b' =? b)%Z; reflexivity.
      * rewrite intset_mem_discard, Hs. unfold Dict.get_or.
        destruct (b' =? b)%Z; reflexivity.
    + assert (E : (iid' =? iid)%Z = false) by now apply Z.eqb_neq.
      rewrite E. cbn [andb].
      destruct down; cbn [Main.pressed_by_iid];
        rewrite dict_get_set_other by exact Hne;
        f_equal; apply (ensure_state_pressed_other iid st iid').
  - intros iid' ax. unfold axis_value.
    destruct down; cbn [Main.axis_by_iid];
      now rewrite ensure_state_axes_other.
Qed.

(** X22.  A button is held from its press to its release: after
    [JOYBUTTONDOWN] the loop reads it as held, after [JOYBUTTONUP] as
    released, and neither event changes another button, another joystick,
    an axis or [running]; no lookup of the handler faults. *)
Theorem button_press_and_release iid b st :
  exists st1 st2,
    Main.handle_event (Main.JOYBUTTONDOWN iid b) st = Some st1 /\
    Main.handle_event (Main.JOYBUTTONUP iid b) st1 = Some st2 /\
    is_pressed st1 iid b = true /\ is_pressed st2 iid b = false /\
    Main.running st2 = Main.running st /\
    (forall iid' b', (iid', b') <> (iid, b) ->
       is_pressed st1 iid' b' = is_pressed st iid' b' /\
       is_pressed st2 iid' b' = is_pressed st iid' b') /\
    (forall iid' ax, axis_value st1 iid' ax = axis_value st iid' ax /\
                     axis_value st2 iid' ax = axis_value st iid' ax).
Proof.
  destruct (button_event_pressed true iid b st) as (st1 & H1 & R1 & P1 & A1).
  destruct (button_event_pressed false iid b st1) as (st2 & H2 & R2 & P2 & A2).
  exists st1, st2. split; [exact H1|]. split; [exact H2|].
  split; [rewrite P1, !Z.eqb_refl; reflexivity|].
  split; [rewrite P2, !Z.eqb_refl; reflexivity|].
  split; [congruence|]. split.
  - intros iid' b' Hne.
    assert (E : (iid' =? iid)%Z && (b' =? b)%Z = false).
    { apply andb_false_iff.
      destruct (Z.eq_dec iid' iid) as [->|Hi]; [|left; now apply Z.eqb_neq].
      right. apply Z.eqb_neq. congruence. }
    rewrite P2, P1, E. now split.
  - intros iid' ax. rewrite A2, A1. now split.
Qed.

(** X23.  An axis event is what the loop reads afterwards on that axis of
    that joystick, and only there; the held buttons stay. *)
Theorem axis_event_is_read iid axis value st :
  exists st',
    Main.handle_event (Main.JOYAXISMOTION iid axis value) st = Some st' /\
    axis_value st' iid axis = value /\
    (forall iid' ax', (iid', ax') <> (iid, axis) ->
       axis_value st' iid' ax' = axis_value st iid' ax') /\
    (forall iid' b, is_pressed st' iid' b = is_pressed st iid' b).
Proof.
  destruct (ensure_state_axes iid st) as (a & Ea & Ha).
  eexists. split; [cbn [Main.handle_event]; rewrite Ea; reflexivity|].
  unfold axis_value, is_pressed. cbn [Main.axis_by_iid Main.pressed_by_iid].
  split; [|split].
  - unfold Dict.get_or. now rewrite !dict_get_set_same.
  - intros iid' ax' Hne. destruct (Z.eq_dec iid' iid) as [->|Hi].
    + unfold Dict.get_or at 2. rewrite dict_get_set_same.
      unfold Dict.get_or at 1. rewrite dict_get_set_other by congruence.
      rewrite Ha. reflexivity.
    + unfold Dict.get_or at 2. rewrite dict_get_set_other by exact Hi.
      fold (Dict.get_or (Main.axis_by_iid (Main.ensure_state iid st)) iid' []).
      now rewrite ensure_state_axes_other.
  - intros iid' b. now rewrite ensure_state_pressed_other.
Qed.

(** X24.  When a joystick is removed the loop forgets its input state: no
    button of it is held and every axis of it reads 0, while the other
    joysticks keep theirs. *)
Theorem removal_forgets_inputs iid st :
  exists st',
    Main.handle_event (Main.JOYDEVICEREMOVED (Some iid)) st = Some st' /\
    (forall b, is_pressed st' iid b = false) /\
    (forall ax, axis_value st' iid ax = 0) /\
    (forall iid', iid' <> iid ->
       (forall b, is_pressed st' iid' b = is_pressed st iid' b) /\
       (forall ax, axis_value st' iid' ax = axis_value st iid' ax)).
Proof.
  eexists. split; [reflexivity|].
  unfold is_pressed, axis_value, Dict.get_or.
  cbn [Main.pressed_by_iid Main.axis_by_iid].
  split; [|split].
  - intros b. now rewrite dict_get_pop_same.
  - intros ax. now rewrite dict_get_pop_same.
  - intros iid' Hne. split; intros; now rewrite dict_get_pop_other.
Qed.

(** ** The inputs *)

Lemma Qdiv_sign (a L : Q) :
  0 < L ->
  (a < 0 -> a / L < 0) /\ (0 < a -> 0 < a / L) /\ (a == 0 -> a / L == 0).
Proof.
  intros HL. pose proof (Qinv_lt_0_compat L HL) as Hi. unfold Qdiv.
  split; [|split]; intros Ha.
  - setoid_replace (a * / L) with (- ((- a) * / L)) by ring.
    assert (0 < (- a) * / L) by (apply Qmult_lt_0_compat; lra). lra.
  - apply Qmult_lt_0_compat; lra.
  - rewrite Ha. ring.
Qed.

Lemma Qdiv_unit (a L : Q) : 0 < L -> Qabs a <= L -> -1 <= a / L <= 1.
Proof.
  intros HL Ha. apply Qabs_Qle_condition in Ha. split.
  - apply Qle_shift_div_l; [exact HL|lra].
  - apply Qle_shift_div_r; [exact HL|lra].
Qed.

Section InputProps.
Context {ML : MathLib}.

Lemma normalize_spec (passes : Q -> bool) (a b : Q) :
  (forall L, passes L = true -> 0 < L) ->
  exists a' b',
    Main.normalize passes a b = Some (a', b') /\
    ((passes (m_hypot a b) = true /\ 0 < m_hypot a b /\
      a' = a / m_hypot a b /\ b' = b / m_hypot a b) \/
     (passes (m_hypot a b) = false /\ a' = a /\ b' = b)).
Proof.
  intros Hp. unfold Main.normalize.
  destruct (passes (m_hypot a b)) eqn:E.
  - pose proof (Hp _ E) as HL.
    assert (Hz : ~ m_hypot a b == 0) by lra.
    rewrite !fdiv_Some by exact Hz.
    eexists. eexists. split; [reflexivity|]. left. now repeat split.
  - eexists. eexists. split; [reflexivity|]. right. now repeat split.
Qed.

Lemma stick_passes L : Qltb 1 L = true -> 0 < L.
Proof. intros H. apply Qltb_lt in H. lra. Qed.

Lemma arrows_passes L : Qltb 0 L = true -> 0 < L.
Proof. intros H. now apply Qltb_lt in H. Qed.

(** What [normalize] keeps: the signs, and under a dominating [hypot] the
    unit box once the length passes or the components were inside. *)
Lemma normalize_signs (passes : Q -> bool) (a b a' b' : Q) :
  (forall L, passes L = true -> 0 < L) ->
  Main.normalize passes a b = Some (a', b') ->
  ((a < 0 -> a' < 0) /\ (0 < a -> 0 < a') /\ (a == 0 -> a' == 0)) /\
  ((b < 0 -> b' < 0) /\ (0 < b -> 0 < b') /\ (b == 0 -> b' == 0)).
Proof.
  intros Hp H. destruct (normalize_spec passes a b Hp) as (a1 & b1 & E & C).
  rewrite E in H. injection H as <- <-.
  destruct C as [(_ & HL & -> & ->)|(_ & -> & ->)].
  - split; now apply Qdiv_sign.
  - split; (split; [|split]); intros K; exact K.
Qed.

Lemma deadzone_cases v :
  (Main.deadzone v = 0 /\ Qabs v < 0.20) \/
  (Main.deadzone v = v /\ 0.20 <= Qabs v).
Proof.
  unfold Main.deadzone. destruct (Qltb (Qabs v) 0.20) eqn:E.
  - left. split; [reflexivity|now apply Qltb_lt].
  - right. split; [reflexivity|now apply Qltb_ge].
Qed.

Lemma stick_total axes : exists m, Main.stick axes = Some m.
Proof.
  unfold Main.stick.
  match goal with |- context [Main.normalize ?p ?a ?b] =>
    destruct (normalize_spec p a b stick_passes) as (a' & b' & E & _)
  end.
  rewrite E. now eexists.
Qed.

Lemma arrows_total keys m : exists m', Main.arrows keys m = Some m'.
Proof.
  unfold Main.arrows. destruct (_ || _); [|now eexists].
  match goal with |- context [Main.normalize ?p ?a ?b] =>
    destruct (normalize_spec p a b arrows_passes) as (a' & b' & E & _)
  end.
  rewrite E. now eexists.
Qed.

Lemma read_inputs_total joysticks st keys :
  exists i, Main.read_inputs joysticks st keys = Some i.
Proof.
  unfold Main.read_inputs.
  match goal with |- context [Main.stick ?a] =>
    destruct (stick_total a) as [m ->]
  end.
  destruct (arrows_total keys m) as [[x y] ->]. now eexists.
Qed.

(** The direction [read_inputs] returns is that of [arrows] after
    [stick]. *)
Lemma read_inputs_direction joysticks st keys i :
  Main.read_inputs joysticks st keys = Some i ->
  exists axes m,
    (forall iid, Main.active_iid joysticks = Some iid ->
                 axes = Dict.get_or (Main.axis_by_iid st) iid []) /\
    Main.stick axes = Some m /\
    Main.arrows keys m = Some (Main.mx i, Main.my i).
Proof.
  unfold Main.read_inputs. intros H.
  match type of H with context [Main.stick ?a] => set (axes := a) in * end.
  assert (Hax : forall iid, Main.active_iid joysticks = Some iid ->
                            axes = Dict.get_or (Main.axis_by_iid st) iid [])
    by (intros iid E; subst axes; now rewrite E).
  clearbody axes. exists axes.
  destruct (Main.stick axes) as [m|] eqn:Es; [|discriminate].
  exists m. destruct (Main.arrows keys m) as [[x y]|] eqn:Ea; [|discriminate].
  injection H as <-. cbn [Main.mx Main.my].
  split; [exact Hax|]. split; reflexivity.
Qed.

(** X25.  The stick as the game reads it agrees with the four direction
    flags of [_axis_dirs]: left and right are never both set, nor up and
    down, and a set flag means motion that way on the screen (left and up
    are negative). *)
Theorem indicator_matches_motion (axes : Dict.t Q) :
  exists mx my,
    Main.stick axes = Some (mx, my) /\
    let '(l, r, u, d) := Main._axis_dirs axes in
    l && r = false /\ u && d = false /\
    (l = true -> mx < 0) /\ (r = true -> 0 < mx) /\
    (u = true -> my < 0) /\ (d = true -> 0 < my).
Proof.
  destruct (stick_total axes) as [[mx my] E]. exists mx, my.
  split; [exact E|].
  unfold Main.stick in E. apply (normalize_signs _ _ _ _ _ stick_passes) in E.
  destruct E as ((Xn & Xp & _) & (Yn & Yp & _)).
  unfold Main._axis_dirs, Main.AXIS_LEFT_POSITIVE, Main.AXIS_UP_POSITIVE,
    Main.AXIS_THRESH in *.
  set (x := Dict.get_or axes Main.AXIS_X 0) in *.
  set (y := Dict.get_or axes Main.AXIS_Y 0) in *.
  assert (D : forall v,
             (Qle_bool 0.50 v = true -> Main.deadzone (- v) < 0) /\
             (Qle_bool v (- 0.50) = true -> 0 < Main.deadzone (- v)) /\
             Qle_bool 0.50 v && Qle_bool v (- 0.50) = false).
  { intros v. split; [|split].
    - intros H. apply Qle_bool_iff in H.
      destruct (deadzone_cases (- v)) as [[_ B]|[-> _]]; [|lra].
      apply Qabs_Qlt_condition in B. lra.
    - intros H. apply Qle_bool_iff in H.
      destruct (deadzone_cases (- v)) as [[_ B]|[-> _]]; [|lra].
      apply Qabs_Qlt_condition in B. lra.
    - destruct (Qle_bool 0.50 v) eqn:E1; [|reflexivity].
      destruct (Qle_bool v (- 0.50)) eqn:E2; [|reflexivity].
      apply Qle_bool_iff in E1, E2. lra. }
  destruct (D x) as (Dl & Dr & Dx). destruct (D y) as (Du & Dd & Dy).
  split; [exact Dx|]. split; [exact Dy|].
  split; [intros H; apply Xn, Dl, H|].
  split; [intros H; apply Xp, Dr, H|].
  split; [intros H; apply Yn, Du, H|intros H; apply Yp, Dd, H].
Qed.

Lemma key_int_range b : (Main.key_int b = 0 \/ Main.key_int b = 1)%Z.
Proof. destruct b; [now right|now left]. Qed.

Lemma arrows_unit keys m m' :
  hypot_dominates ML ->
  -1 <= fst m <= 1 -> -1 <= snd m <= 1 ->
  Main.arrows keys m = Some m' ->
  -1 <= fst m' <= 1 /\ -1 <= snd m' <= 1.
Proof.
  intros Hd Hx Hy. unfold Main.arrows.
  destruct (negb (Main.kx keys =? 0)%Z || negb (Main.ky keys =? 0)%Z) eqn:E.
  - intros H.
    destruct (normalize_spec (fun L => Qltb 0 L) (inject_Z (Main.kx keys))
                (inject_Z (Main.ky keys)) arrows_passes) as (a & b & En & C).
    rewrite En in H. injection H as <-. cbn [fst snd].
    destruct (Hd (inject_Z (Main.kx keys)) (inject_Z (Main.ky keys))) as [Dx Dy].
    destruct C as [(_ & HL & -> & ->)|(Hp & -> & ->)].
    + split; now apply Qdiv_unit.
    + apply Qltb_ge in Hp. apply Qabs_Qle_condition in Dx, Dy. lra.
  - intros [= <-]. now split.
Qed.

Lemma stick_unit axes m :
  hypot_dominates ML -> Main.stick axes = Some m ->
  -1 <= fst m <= 1 /\ -1 <= snd m <= 1.
Proof.
  intros Hd. unfold Main.stick.
  match goal with |- context [Main.normalize ?p ?a ?b] =>
    destruct (normalize_spec p a b stick_passes) as (a' & b' & E & C);
    destruct (Hd a b) as [Dx Dy];
    set (mx := a) in *; set (my := b) in *
  end.
  rewrite E. intros [= <-]. cbn [fst snd].
  destruct C as [(_ & HL & -> & ->)|(Hp & -> & ->)].
  - split; now apply Qdiv_unit.
  - apply Qltb_ge in Hp. apply Qabs_Qle_condition in Dx, Dy. lra.
Qed.

Lemma read_inputs_unit joysticks st keys :
  hypot_dominates ML ->
  exists i,
    Main.read_inputs joysticks st keys = Some i /\
    -1 <= Main.mx i <= 1 /\ -1 <= Main.my i <= 1.
Proof.
  intros Hd. destruct (read_inputs_total joysticks st keys) as [i H].
  exists i. split; [exact H|].
  apply read_inputs_direction in H. destruct H as (axes & m & _ & Es & Ea).
  destruct (stick_unit axes m Hd Es) as [Hx Hy].
  exact (arrows_unit keys m _ Hd Hx Hy Ea).
Qed.

(** X26.  With a [hypot] that is at least as long as its arguments, the
    direction the loop hands to [update] is inside the unit box, whatever
    the axes report and whichever keys are held; no division of the
    normalisation faults. *)
Theorem inputs_in_unit_box joysticks st keys :
  hypot_dominates ML ->
  exists i,
    Main.read_inputs joysticks st keys = Some i /\
    -1 <= Main.mx i <= 1 /\ -1 <= Main.my i <= 1.
Proof. apply read_inputs_unit. Qed.

(** X27.  When an arrow key decides, the keyboard replaces the stick: the
    direction has the signs of the arrows, and it is the same whatever the
    joysticks and their state. *)
Theorem arrow_keys_decide joysticks st keys :
  Main.kx keys <> 0%Z \/ Main.ky keys <> 0%Z ->
  exists i,
    Main.read_inputs joysticks st keys = Some i /\
    ((Main.kx keys < 0)%Z -> Main.mx i < 0) /\
    ((0 < Main.kx keys)%Z -> 0 < Main.mx i) /\
    (Main.kx keys = 0%Z -> Main.mx i == 0) /\
    ((Main.ky keys < 0)%Z -> Main.my i < 0) /\
    ((0 < Main.ky keys)%Z -> 0 < Main.my i) /\
    (Main.ky keys = 0%Z -> Main.my i == 0) /\
    forall joysticks' st',
    exists i',
      Main.read_inputs joysticks' st' keys = Some i' /\
      Main.mx i' = Main.mx i /\ Main.my i' = Main.my i.
Proof.
  intros Hk.
  assert (Hc : negb (Main.kx keys =? 0)%Z || negb (Main.ky keys =? 0)%Z = true).
  { apply orb_true_iff.
    destruct Hk as [H|H]; [left|right]; apply negb_true_iff, Z.eqb_neq, H. }
  assert (Ha : forall m, Main.arrows keys m =
                 Main.normalize (fun L => Qltb 0 L) (inject_Z (Main.kx keys))
                   (inject_Z (Main.ky keys)))
    by (intros m; unfold Main.arrows; now rewrite Hc).
  destruct (read_inputs_total joysticks st keys) as [i H].
  exists i. split; [exact H|].
  apply read_inputs_direction in H. destruct H as (axes & m & _ & _ & Ea).
  rewrite Ha in Ea. pose proof Ea as Es.
  apply (normalize_signs _ _ _ _ _ arrows_passes) in Es.
  destruct Es as ((Xn & Xp & Xz) & (Yn & Yp & Yz)).
  split; [intros K; apply Xn; rewrite Zlt_Qlt in K; exact K|].
  split; [intros K; apply Xp; rewrite Zlt_Qlt in K; exact K|].
  split; [intros K; apply Xz; rewrite K; reflexivity|].
  split; [intros K; apply Yn; rewrite Zlt_Qlt in K; exact K|].
  split; [intros K; apply Yp; rewrite Zlt_Qlt in K; exact K|].
  split; [intros K; apply Yz; rewrite K; reflexivity|].
  intros joysticks' st'.
  destruct (read_inputs_total joysticks' st' keys) as [i' H'].
  exists i'. split; [exact H'|].
  apply read_inputs_direction in H'. destruct H' as (axes' & m' & _ & _ & Ea').
  rewrite Ha, Ea in Ea'. now injection Ea' as -> ->.
Qed.
End InputProps.

(** ** One pass of the loop *)

Section Iteration.
Context {G : Type} {RS : RandomSource G} {ML : MathLib}.

Lemma iteration_runs ms events joysticks keys st game (g : G) :
  exists st' i game' g',
    Main.handle_events events st = Some st' /\
    Main.read_inputs joysticks st' keys = Some i /\
    Game.update (inject_Z ms / 1000) (Main.mx i) (Main.my i) (Main.shoot i)
      (Main.boost i) (Main.shield i) game g = Some (game', g') /\
    Main.iteration ms events joysticks keys st game g = Some ((st', game'), g').
Proof.
  destruct (handle_events_total events st) as [st' He].
  destruct (read_inputs_total joysticks st' keys) as [i Hi].
  destruct (total_update (inject_Z ms / 1000) (Main.mx i) (Main.my i)
              (Main.shoot i) (Main.boost i) (Main.shield i) game g)
    as [[game' g'] Hu].
  exists st', i, game', g'. split; [exact He|]. split; [exact Hi|].
  split; [exact Hu|].
  unfold Main.iteration. cbv zeta. unfold bind, lift_opt, ret.
  rewrite He, Hi, Hu. reflexivity.
Qed.


(** X29.  The host loop calls [update] as the game expects: when at least
    one millisecond has elapsed and [hypot] is at least as long as its
    arguments, a pass of the loop takes a state of a game to a state of a
    game. *)
Theorem iteration_keeps_game ms events joysticks keys st game (g : G) :
  reachable game -> (0 < ms)%Z -> hypot_dominates ML ->
  exists st' game' g',
    Main.iteration ms events joysticks keys st game g = Some ((st', game'), g') /\
    reachable game'.
Proof.
  intros Hr Hms Hd.
  destruct (iteration_runs ms events joysticks keys st game g)
    as (st' & i & game' & g' & _ & Hi & Hu & H).
  exists st', game', g'. split; [exact H|].
  destruct (read_inputs_unit joysticks st' keys Hd) as (i' & Hi' & Hx & Hy).
  assert (i' = i) by congruence. subst i'.
  refine (reach_update _ _ _ _ _ _ _ _ _ _ Hr _ Hx Hy Hu).
  apply Qlt_shift_div_l; [reflexivity|].
  rewrite Qmult_0_l. change 0 with (inject_Z 0). now rewrite <- Zlt_Qlt.
Qed.
End Iteration.

(** * Runs of the further properties *)

Lemma taxicab_dominates : hypot_dominates test_math.
Proof.
  intros a b. cbn [m_hypot test_math]. unfold taxicab.
  pose proof (Qabs_nonneg a). pose proof (Qabs_nonneg b). split; lra.
Qed.

Lemma no_shot_during_cooldown_witness :
  Game.shoot_cd (arena 60 [] [] [] []) <= 1 # 60 /\ 1 # 60 < 0.18 /\
  exists s8 g8 s' g' t8 h8,
    Game.update_to_kinematics (ML:=test_math) (1 # 60) 0 0 true false false
      (arena 60 [] [] [] []) (@nil Z) = Some (s8, g8) /\
    Game.update (ML:=test_math) (1 # 60) 0 0 true false false
      (arena 60 [] [] [] []) [] = Some (s', g') /\
    Game.bullets s8 =
      filter (Game.keep_bullet 800 600)
        (map (Laser.update (1 # 60)) ([] ++ [player_shot s'])) /\
    Game.update_to_kinematics (ML:=test_math) (1 # 60) 0 0 true false false
      s' g' = Some (t8, h8) /\
    Game.bullets t8 =
      filter (Game.keep_bullet (Game.w s') (Game.h s'))
        (map (Laser.update (1 # 60)) (Game.bullets s')).
Proof.
  assert (H1 : Game.shoot_cd (arena 60 [] [] [] []) <= 1 # 60) by discriminate.
  assert (H2 : 1 # 60 < 0.18) by reflexivity.
  split; [exact H1|]. split; [exact H2|].
  exact (no_shot_during_cooldown (ML:=test_math) (1 # 60) 0 0 false false
           (arena 60 [] [] [] []) [] (1 # 60) 0 0 true false false H1 H2).
Defined.

Lemma stars_parallax_witness :
  (0 <= 800)%Z /\ (0 <= 600)%Z /\
  exists s' g',
    Game.update (ML:=test_math) (1 # 10) 1 0 false false false night (@nil Z)
      = Some (s', g') /\
    Forall2 (star_moved (1 # 10) 1 800 600) (Game.stars night) (Game.stars s') /\
    map Star.layer (Game.stars s') = [1.4; 0.6] /\
    Forall (fun st => -2 <= Star.x st) (Game.stars s').
Proof.
  assert (H1 : (0 <= Game.w night)%Z) by discriminate.
  assert (H2 : (0 <= Game.h night)%Z) by discriminate.
  split; [exact H1|]. split; [exact H2|].
  exact (stars_parallax (ML:=test_math) (1 # 10) 1 0 false false false
           night [] H1 H2).
Defined.

Lemma spawn_enemy_spec_witness :
  (80 <= 600)%Z /\
  exists e g',
    Game._spawn_enemy (arena 60 [] [] [] []) (@nil Z)
      = Some (Game.set_enemies ([] ++ [e]) (arena 60 [] [] [] []), g') /\
    spawned_ok 800 600 e.
Proof.
  assert (H : (80 <= Game.h (arena 60 [] [] [] []))%Z) by discriminate.
  split; [exact H|].
  exact (spawn_enemy_spec (arena 60 [] [] [] []) [] H).
Defined.

Lemma blobs_stay_in_field_witness :
  (40 <= 600)%Z /\
  exists s' g',
    Game.update (ML:=test_math) (1 # 60) 0 0 false false false
      (arena 60 [] [] [jelly] []) (@nil Z) = Some (s', g') /\
    Forall (fun e => match Enemy.kind e with
                     | blob => 20 <= Enemy.y e <= inject_Z (600 - 20)
                     | _ => True
                     end) (Game.enemies s').
Proof.
  assert (H : (40 <= Game.h (arena 60 [] [] [jelly] []))%Z) by discriminate.
  split; [exact H|].
  exact (blobs_stay_in_field (ML:=test_math) (1 # 60) 0 0 false false false
           (arena 60 [] [] [jelly] []) [] H).
Defined.

Lemma red_fires_on_schedule_witness :
  Enemy.kind gunner = red /\
  exists e' self' g',
    Game.update_enemy (ML:=test_math) 1 gunner (arena 60 [] [] [] []) (@nil Z)
      = Some (e', self', g') /\
    Enemy.x e' = 500 + -120 * 1 /\ Enemy.y e' = 300 /\
    ((1 < 0.5 /\ self' = arena 60 [] [] [] [] /\
      Enemy.shoot_cd (Enemy.data e') = Some (0.5 - 1)) \/
     (0.5 <= 1 /\
      exists b cd',
        self' = Game.set_ebullets ([] ++ [b]) (arena 60 [] [] [] []) /\
        shot_by e' b /\
        (let dx := 144 - Enemy.x e' in
         let dy := 300 - Enemy.y e' in
         let L := py_or (taxicab dx dy) 1 in
         Laser.vx b = 280 * dx / L /\ Laser.vy b = 280 * dy / L) /\
        Enemy.shoot_cd (Enemy.data e') = Some cd' /\ 1.0 <= cd' <= 1.8)).
Proof.
  assert (H : Enemy.kind gunner = red) by reflexivity.
  split; [exact H|].
  exact (red_fires_on_schedule (ML:=test_math) 1 gunner
           (arena 60 [] [] [] []) [] H).
Defined.

Lemma shard_update_decays_witness :
  0 <= 1 # 60 /\ 1 # 60 <= 5 # 2 /\
  Shard.x (Shard.update (1 # 60) (crumb 154)) = 154 + 30 * (1 # 60) /\
  Shard.ttl (Shard.update (1 # 60) (crumb 154)) = 6 - (1 # 60) /\
  Qabs (Shard.vx (Shard.update (1 # 60) (crumb 154))) <= Qabs 30 /\
  Qabs (Shard.vy (Shard.update (1 # 60) (crumb 154))) <= Qabs (-20).
Proof.
  assert (H1 : 0 <= 1 # 60) by discriminate.
  assert (H2 : 1 # 60 <= 5 # 2) by discriminate.
  split; [exact H1|]. split; [exact H2|].
  destruct (shard_update_decays (1 # 60) (crumb 154) H1 H2)
    as (Ex & _ & Et & _ & Hx & Hy & _).
  split; [exact Ex|]. split; [exact Et|]. split; [exact Hx|exact Hy].
Defined.


Lemma hostile_hit_zone_witness :
  laser_shape (graze 159) /\
  overlaps (Game.player_rect (arena 60 [] [] [] [])) (graze 159) = true /\
  overlaps (Game.player_rect (arena 60 [] [] [] [])) (graze 166) = false.
Proof.
  assert (H : forall x, laser_shape (graze x)) by (intros x; split; reflexivity).
  split; [exact (H 159)|]. split.
  - apply (proj1 (hostile_hit_zone (arena 60 [] [] [] []) (graze 159) (H 159)));
      discriminate.
  - apply (proj2 (hostile_hit_zone (arena 60 [] [] [] []) (graze 166) (H 166))).
    left. discriminate.
Defined.

Lemma shard_pickup_zone_witness :
  Rect.colliderect (Game.player_rect (arena 60 [] [] [] []))
    (Shard.rect (crumb 154)) = true /\
  Rect.colliderect (Game.player_rect (arena 60 [] [] [] []))
    (Shard.rect (crumb 163)) = false.
Proof.
  split.
  - apply (proj1 (shard_pickup_zone (arena 60 [] [] [] []) (crumb 154)));
      discriminate.
  - apply (proj2 (shard_pickup_zone (arena 60 [] [] [] []) (crumb 163))).
    left. discriminate.
Defined.


Lemma indicator_matches_motion_witness :
  Main._axis_dirs pushed_left = (true, false, false, false) /\
  exists mx my,
    Main.stick (ML:=test_math) pushed_left = Some (mx, my) /\ mx < 0.
Proof.
  split; [reflexivity|].
  destruct (indicator_matches_motion (ML:=test_math) pushed_left)
    as (mx & my & E & H).
  change (Main._axis_dirs pushed_left) with (true, false, false, false) in H.
  cbv iota beta in H. destruct H as (_ & _ & Hl & _).
  exists mx, my. split; [exact E|]. apply Hl. reflexivity.
Defined.

Lemma inputs_in_unit_box_witness :
  hypot_dominates test_math /\
  exists i,
    Main.read_inputs (ML:=test_math) [0%Z] idle right_up = Some i /\
    -1 <= Main.mx i <= 1 /\ -1 <= Main.my i <= 1.
Proof.
  split; [exact taxicab_dominates|].
  exact (inputs_in_unit_box (ML:=test_math) [0%Z] idle right_up
           taxicab_dominates).
Defined.

Lemma arrow_keys_decide_witness :
  (Main.kx right_up <> 0%Z \/ Main.ky right_up <> 0%Z) /\
  exists i,
    Main.read_inputs (ML:=test_math) [0%Z] idle right_up = Some i /\
    0 < Main.mx i /\ Main.my i < 0.
Proof.
  assert (H : Main.kx right_up <> 0%Z \/ Main.ky right_up <> 0%Z)
    by (left; discriminate).
  split; [exact H|].
  destruct (arrow_keys_decide (ML:=test_math) [0%Z] idle right_up H)
    as (i & E & _ & Xp & _ & Yn & _).
  exists i. split; [exact E|]. split; [apply Xp|apply Yn]; reflexivity.
Defined.

Lemma iteration_keeps_game_witness :
  match demo_run 2 with
  | Some (s, g) =>
      reachable (ML:=test_math) s /\ (0 < 16)%Z /\
      hypot_dominates test_math /\
      exists st' game' g',
        Main.iteration (ML:=test_math) 16
          [Main.JOYAXISMOTION 0 0 0.8; Main.JOYBUTTONDOWN 0 2] [0%Z]
          right_up idle s g = Some ((st', game'), g') /\
        reachable (ML:=test_math) game'
  | None => False
  end.
Proof.
  pose proof (demo_run_reachable 2) as Hr.
  destruct (demo_run 2) as [[s g]|]; [|exact Hr].
  assert (H1 : (0 < 16)%Z) by reflexivity.
  split; [exact Hr|]. split; [exact H1|]. split; [exact taxicab_dominates|].
  exact (iteration_keeps_game (ML:=test_math) 16 _ [0%Z] right_up idle s g
           Hr H1 taxicab_dominates).
Defined.

(** ** Scenarios of the host loop, run on the model *)

(** A stick pushed left moves the player left; the right arrow overrides
    it. *)
Example stick_then_arrow :
  match Main.handle_event (Main.JOYAXISMOTION 0 0 0.8) idle with
  | Some st =>
      match Main.read_inputs (ML:=test_math) [0%Z] st (fun _ => false),
            Main.read_inputs (ML:=test_math) [0%Z] st right_up with
      | Some i, Some k =>
          Main.mx i == -0.8 /\ Main.my i == 0 /\
          Main.mx k == 1 # 2 /\ Main.my k == - (1 # 2)
      | _, _ => False
      end
  | None => False
  end.
Proof. vm_compute. repeat split. Qed.

(** The log of 300 lines drops its oldest line for a new one. *)
Example log_is_full :
  length (Main.log String.EmptyString String.EmptyString
            (repeat String.EmptyString 300)) = 300%nat.
Proof. vm_compute. reflexivity. Qed.

Lemma construction_spec_witness :
  (0 <= 800)%Z /\ (0 <= 600)%Z /\
  exists s g',
    Game.init 800 600 demo_tape = Some (s, g') /\
    length (Game.stars s) = 140%nat /\
    Forall (fun st =>
              In (Star.layer st) [0.6; 0.8; 1.0; 1.2; 1.4] /\
              0 <= Star.x st <= inject_Z 800 /\
              0 <= Star.y st <= inject_Z 600) (Game.stars s) /\
    s = Game.mk 800 600 (inject_Z 800 * 0.18) (inject_Z 600 * 0.5)
          220 2 60 120 false false 0 0%Z (Game.stars s) [] [] [] [] 1.
Proof.
  assert (H1 : (0 <= 800)%Z) by discriminate.
  assert (H2 : (0 <= 600)%Z) by discriminate.
  split; [exact H1|]. split; [exact H2|].
  exact (construction_spec 800 600 demo_tape H1 H2).
Defined.

Lemma star_field_invariant_witness :
  match demo_run 3 with
  | Some (s, _) =>
      reachable (ML:=test_math) s /\ (0 <= Game.w s)%Z /\ (0 <= Game.h s)%Z /\
      length (Game.stars s) = 140%nat /\
      Forall (star_ok (Game.w s) (Game.h s)) (Game.stars s)
  | None => False
  end.
Proof.
  pose proof (demo_run_reachable 3) as Hr.
  destruct (demo_run 3) as [[s g]|] eqn:E; [|exact Hr].
  assert (Hw : Game.w s = 800%Z /\ Game.h s = 600%Z)
    by (vm_compute in E; injection E as <- _; split; reflexivity).
  destruct Hw as [Hw Hh].
  assert (H1 : (0 <= Game.w s)%Z) by (rewrite Hw; discriminate).
  assert (H2 : (0 <= Game.h s)%Z) by (rewrite Hh; discriminate).
  split; [exact Hr|]. split; [exact H1|]. split; [exact H2|].
  exact (star_field_invariant (ML:=test_math) s Hr H1 H2).
Defined.

Lemma player_speed_limit_witness :
  match demo_run 2 with
  | Some (s, g) =>
      reachable (ML:=test_math) s /\ in_field s /\ 0 <= 1 # 60 /\
      exists s' g',
        Game.update (ML:=test_math) (1 # 60) 1 (-1) false true false s g
          = Some (s', g') /\
        Game.boost_active s' = true && Qltb 0 (Game.energy s) /\
        Qabs (Game.px s' - Game.px s)
        <= Qabs 1 * (if Game.boost_active s' then 440 else 220) * (1 # 60) /\
        Qabs (Game.py s' - Game.py s)
        <= Qabs (-1) * (if Game.boost_active s' then 440 else 220) * (1 # 60)
  | None => False
  end.
Proof.
  pose proof (demo_run_reachable 2) as Hr.
  destruct (demo_run 2) as [[s g]|] eqn:E; [|exact Hr].
  assert (Hf : in_field s).
  { vm_compute in E. injection E as <- _. repeat split; discriminate. }
  assert (Hdt : 0 <= 1 # 60) by discriminate.
  split; [exact Hr|]. split; [exact Hf|]. split; [exact Hdt|].
  exact (player_speed_limit (1 # 60) 1 (-1) false true false s g Hr Hf Hdt).
Defined.
